(** * Flowchart CFG generator: a shallow embedding of [main.py]

    The development follows the Python source: [CFGNode], the
    [FlowchartCFGBuilder] visitor (written in state-passing style, the
    builder object [self] being threaded through every method), the two
    complexity metrics and the Graphviz exporter.

    Conventions.
    - Python [str] is [string], holding the bytes of the UTF-8 encoding
      of the text; [PyStr.len] counts code points as [len] does, and
      whitespace is the set of code points [str.isspace] accepts.
    - [int] node ids are [nat]; the complexity (a possibly negative
      intermediate) is computed in [Z].
    - [Dict[int, CFGNode]] keeps insertion order, on which the exporter
      depends: it is an association list, new keys appended at the end.
    - [Set[int]] is stdpp's [gset nat].
    - Expression sub-trees are only ever rendered by [ast.unparse]; they
      are carried by their rendered text. *)

From Stdlib Require Import ZArith Ascii.
From stdpp Require Import base gmap sets list strings pretty.

(** ** Python string helpers *)

Module PyStr.

  (** [str.lower] on the ASCII range. *)
Definition lower_ascii (c : ascii) : ascii :=
    let n := nat_of_ascii c in
    if (65 <=? n) && (n <=? 90) then ascii_of_nat (n + 32) else c.

Fixpoint lower (s : string) : string :=
    match s with
    | EmptyString => EmptyString
    | String c s' => String (lower_ascii c) (lower s')
    end.

  (** [sub in s] *)
Fixpoint contains (sub s : string) : bool :=
    String.prefix sub s ||
    match s with
    | EmptyString => false
    | String _ s' => contains sub s'
    end.

  (** A byte of the form 10xxxxxx continues the code point begun by the
      nearest byte before it that is not of that form. *)
Definition continuation (c : ascii) : bool :=
    let n := nat_of_ascii c in (128 <=? n) && (n <=? 191).

  (** [len(s)]: the number of code points, one per byte that is not a
      continuation byte. *)
Fixpoint len (s : string) : nat :=
    match s with
    | EmptyString => 0
    | String c s' => if continuation c then len s' else S (len s')
    end.

  (** The code points of [s] in order, each as the bytes that encode it. *)
Fixpoint chars (s : string) : list string :=
    match s with
    | EmptyString => []
    | String c s' =>
        match chars s' with
        | String c' ch :: rest =>
            if continuation c' then String c (String c' ch) :: rest
            else String c "" :: String c' ch :: rest
        | rest => String c "" :: rest
        end
    end.

  (** Whitespace as seen by [str.split()] and [str.strip()]: the code
      points U+0009..U+000D, U+001C..U+0020, U+0085, U+00A0, U+1680,
      U+2000..U+200A, U+2028, U+2029, U+202F, U+205F and U+3000, given
      by the bytes that encode them. *)
Definition isspace (ch : string) : bool :=
    match map nat_of_ascii (String.list_ascii_of_string ch) with
    | [n] => ((9 <=? n) && (n <=? 13)) || ((28 <=? n) && (n <=? 32))
    | [a; b] => (a =? 194) && ((b =? 133) || (b =? 160))
    | [a; b; c] =>
        ((a =? 225) && (b =? 154) && (c =? 128))
        || ((a =? 226) && (b =? 128)
            && (((128 <=? c) && (c <=? 138))
                || (c =? 168) || (c =? 169) || (c =? 175)))
        || ((a =? 226) && (b =? 129) && (c =? 159))
        || ((a =? 227) && (b =? 128) && (c =? 128))
    | _ => false
    end.

Fixpoint lstrip_chars (cs : list string) : list string :=
    match cs with
    | [] => []
    | ch :: cs' => if isspace ch then lstrip_chars cs' else cs
    end.

Definition lstrip (s : string) : string :=
    String.concat "" (lstrip_chars (chars s)).

Definition rstrip (s : string) : string :=
    String.concat "" (rev (lstrip_chars (rev (chars s)))).

Definition strip (s : string) : string := rstrip (lstrip s).

  (** [sep.join(parts)] *)
Fixpoint join (sep : string) (parts : list string) : string :=
    match parts with
    | [] => ""
    | [p] => p
    | p :: rest => p +:+ sep +:+ join sep rest
    end.

  (** [s.split()]: maximal runs of non-whitespace characters. *)
Fixpoint split_aux (cur : string) (cs : list string) : list string :=
    match cs with
    | [] => if String.eqb cur "" then [] else [cur]
    | ch :: cs' =>
        if isspace ch
        then (if String.eqb cur "" then split_aux "" cs'
              else cur :: split_aux "" cs')
        else split_aux (cur +:+ ch) cs'
    end.

Definition split (s : string) : list string := split_aux "" (chars s).

  (** Truthiness of a string: [if s:] *)
Definition truthy (s : string) : bool := negb (String.eqb s "").

End PyStr.

(** ** Insertion-ordered dictionaries ([dict] with [int] keys) *)

Module Dict.
Section Dict.
Context {V : Type}.

Fixpoint get (k : nat) (d : list (nat * V)) : option V :=
      match d with
      | [] => None
      | (k', v) :: d' => if Nat.eqb k k' then Some v else get k d'
      end.

Definition mem (k : nat) (d : list (nat * V)) : bool :=
      match get k d with Some _ => true | None => false end.

    (** [d[k].method(...)]: in-place mutation of the stored object. *)
Definition alter (f : V → V) (k : nat) (d : list (nat * V)) : list (nat * V) :=
      map (λ kv, if Nat.eqb k kv.1 then (kv.1, f kv.2) else kv) d.

    (** [d[k] = v]: overwrite in place, or append a new key. *)
Definition set (k : nat) (v : V) (d : list (nat * V)) : list (nat * V) :=
      if mem k d then alter (λ _, v) k d else d ++ [(k, v)].

Definition keys (d : list (nat * V)) : list nat := map fst d.
Definition values (d : list (nat * V)) : list V := map snd d.
End Dict.
End Dict.

(** ** Graph model *)

Record CFGNode := mkNode {
  node_id : nat;
  label : string;
  node_type : string;
  condition : option string;
  successors : list (nat * string);
  predecessors : gset nat
}.

(** [CFGNode.__init__] *)
Definition CFGNode_init (id : nat) (lbl ty : string) (cond : option string) : CFGNode :=
  mkNode id lbl ty cond [] ∅.

Definition add_successor (to : nat) (edge_label : string) (n : CFGNode) : CFGNode :=
  mkNode (node_id n) (label n) (node_type n) (condition n)
         (successors n ++ [(to, edge_label)]) (predecessors n).

Definition add_predecessor (from : nat) (n : CFGNode) : CFGNode :=
  mkNode (node_id n) (label n) (node_type n) (condition n)
         (successors n) ({[from]} ∪ predecessors n).

Definition set_successors (l : list (nat * string)) (n : CFGNode) : CFGNode :=
  mkNode (node_id n) (label n) (node_type n) (condition n) l (predecessors n).

(** [shapes.get(node_type, "box")] *)
Definition get_shape (n : CFGNode) : string :=
  let ty := node_type n in
  if String.eqb ty "start" then "ellipse"
  else if String.eqb ty "end" then "ellipse"
  else if String.eqb ty "process" then "box"
  else if String.eqb ty "decision" then "diamond"
  else if String.eqb ty "input" then "parallelogram"
  else if String.eqb ty "output" then "parallelogram"
  else if String.eqb ty "call" then "box"
  else "box".

(** [colors.get(node_type, "lightgray")] *)
Definition get_color (n : CFGNode) : string :=
  let ty := node_type n in
  if String.eqb ty "start" then "lightgreen"
  else if String.eqb ty "end" then "lightcoral"
  else if String.eqb ty "process" then "lightyellow"
  else if String.eqb ty "decision" then "lightblue"
  else if String.eqb ty "input" then "lightcyan"
  else if String.eqb ty "output" then "lightgreen"
  else if String.eqb ty "call" then "plum"
  else "lightgray".

Abbreviation Graph := (list (nat * CFGNode)).

(** ** The statement tree handed to the builder

    One constructor per [ast] class that has a [visit_*] method; every
    other class is [Other], carrying the class name, the outcome of
    [ast.unparse] ([None] when rendering raises) and the child nodes in
    field order, which is what [NodeVisitor.generic_visit] walks. *)

Record call := mkCall { func : string; args : list string }.

(** [ast.unparse] of a call: callee, then the parenthesised arguments. *)
Definition unparse_call (c : call) : string :=
  func c +:+ "(" +:+ PyStr.join ", " (args c) +:+ ")".

Inductive expr_value :=
| CallValue (c : call)
| OtherValue (text : string).

Local Unset Elimination Schemes.

Inductive ast :=
| FunctionDef (name : string) (params : list string) (body : list ast)
| If (test : string) (body orelse : list ast)
| While (test : string) (body orelse : list ast)
| For (target iter : string) (body orelse : list ast)
| Return (value : option string)
| Assign (targets : list string) (value : string)
| AugAssign (target op value : string)
| Expr (value : expr_value)
| Call (c : call)
| Other (type_name : string) (text : option string) (children : list ast).

Local Set Elimination Schemes.

(** ** Induction on statement trees *)

Section AstInd.
Variable P : ast → Prop.
Hypothesis HFunctionDef : ∀ name params body,
    Forall P body → P (FunctionDef name params body).
Hypothesis HIf : ∀ test body orelse,
    Forall P body → Forall P orelse → P (If test body orelse).
Hypothesis HWhile : ∀ test body orelse,
    Forall P body → P (While test body orelse).
Hypothesis HFor : ∀ target iter body orelse,
    Forall P body → P (For target iter body orelse).
Hypothesis HReturn : ∀ value, P (Return value).
Hypothesis HAssign : ∀ targets value, P (Assign targets value).
Hypothesis HAugAssign : ∀ target op value, P (AugAssign target op value).
Hypothesis HExpr : ∀ value, P (Expr value).
Hypothesis HCall : ∀ c, P (Call c).
Hypothesis HOther : ∀ type_name text children,
    Forall P children → P (Other type_name text children).

Fixpoint ast_ind (s : ast) : P s :=
    let all := fix all (l : list ast) : Forall P l :=
      match l with
      | [] => List.Forall_nil P
      | x :: l' => List.Forall_cons P x l' (ast_ind x) (all l')
      end in
    match s with
    | FunctionDef name params body => HFunctionDef name params body (all body)
    | If test body orelse => HIf test body orelse (all body) (all orelse)
    | While test body orelse => HWhile test body orelse (all body)
    | For target iter body orelse => HFor target iter body orelse (all body)
    | Return value => HReturn value
    | Assign targets value => HAssign targets value
    | AugAssign target op value => HAugAssign target op value
    | Expr value => HExpr value
    | Call c => HCall c
    | Other type_name text children => HOther type_name text children (all children)
    end.
End AstInd.

Definition is_Return (s : ast) : bool :=
  match s with Return _ => true | _ => false end.

Definition is_If (s : ast) : bool :=
  match s with If _ _ _ => true | _ => false end.

(** ** The builder *)

Record Builder := mkBuilder {
  nodes : Graph;
  current_node_id : nat;
  entry_node : option nat;
  current_exits : gset nat;
  function_name : option string
}.

(** [FlowchartCFGBuilder.__init__] *)
Definition Builder_init : Builder := mkBuilder [] 0 None ∅ None.

Definition set_nodes (g : Graph) (self : Builder) : Builder :=
  mkBuilder g (current_node_id self) (entry_node self)
            (current_exits self) (function_name self).

Definition set_exits (e : gset nat) (self : Builder) : Builder :=
  mkBuilder (nodes self) (current_node_id self) (entry_node self)
            e (function_name self).

Definition set_entry (e : nat) (self : Builder) : Builder :=
  mkBuilder (nodes self) (current_node_id self) (Some e)
            (current_exits self) (function_name self).

Definition set_function_name (f : string) (self : Builder) : Builder :=
  mkBuilder (nodes self) (current_node_id self) (entry_node self)
            (current_exits self) (Some f).

Definition create_node (lbl ty : string) (cond : option string)
    (self : Builder) : nat * Builder :=
  let id := current_node_id self in
  (id, mkBuilder (Dict.set id (CFGNode_init id lbl ty cond) (nodes self))
                 (S id) (entry_node self) (current_exits self)
                 (function_name self)).

Definition add_edge (from to : nat) (lbl : string) (self : Builder) : Builder :=
  if Dict.mem from (nodes self) && Dict.mem to (nodes self)
  then set_nodes (Dict.alter (add_predecessor from) to
                    (Dict.alter (add_successor to lbl) from (nodes self))) self
  else self.

(** [for exit_node in exits: self.add_edge(exit_node, target)]

    Python iterates the set in an unspecified order, [elements] in a
    fixed one. Each exit receives the edge in its own successor list
    and the predecessors are a set, so the order is not observable
    (see [succs_add_edges_from]). *)
Definition add_edges_from (exits : list nat) (target : nat) (self : Builder) : Builder :=
  fold_left (λ b e, add_edge e target "" b) exits self.

Definition connect_exits_to_node (target : nat) (self : Builder) : Builder :=
  set_exits {[target]}
    (add_edges_from (elements (current_exits self)) target self).

(** The labelling loop of [visit_If]: unlabelled edges only, the first
    one collected as the true edge, the others as false edges. *)
Definition if_label_step (acc : list (nat * string) * list (nat * string))
    (e : nat * string) : list (nat * string) * list (nat * string) :=
  let '(true_edges, false_edges) := acc in
  if PyStr.truthy e.2 then acc
  else if Nat.eqb (length true_edges) 0
       then (true_edges ++ [(e.1, "True")], false_edges)
       else (true_edges, false_edges ++ [(e.1, "False")]).

Definition if_relabel (succs : list (nat * string)) : list (nat * string) :=
  let '(true_edges, false_edges) := fold_left if_label_step succs ([], []) in
  map (λ e : nat * string, (e.1, "True")) true_edges
    ++ map (λ e : nat * string, (e.1, "False")) false_edges.

(** The labelling loop of [visit_While]. *)
Definition while_relabel (decision_node : nat) (succs : list (nat * string))
    : list (nat * string) :=
  map (λ e : nat * string,
         if Nat.eqb e.1 decision_node then (e.1, "True") else (e.1, "False"))
      succs.

Definition relabel (f : list (nat * string) → list (nat * string))
    (decision_node : nat) (self : Builder) : Builder :=
  set_nodes (Dict.alter (λ n, set_successors (f (successors n)) n)
               decision_node (nodes self)) self.

Definition visit_Return (value : option string) (self : Builder) : Builder :=
  let return_text :=
    match value with
    | Some v => "return " +:+ v
    | None => "return"
    end in
  let '(return_node, self) := create_node return_text "output" None self in
  let self := connect_exits_to_node return_node self in
  set_exits ∅ self.

Definition visit_Assign (targets : list string) (value : string)
    (self : Builder) : Builder :=
  let assign_text := PyStr.join " = " targets +:+ " = " +:+ value in
  let '(assign_node, self) := create_node assign_text "process" None self in
  connect_exits_to_node assign_node self.

Definition visit_AugAssign (target op value : string) (self : Builder) : Builder :=
  let assign_text := target +:+ " " +:+ op +:+ "= " +:+ value in
  let '(assign_node, self) := create_node assign_text "process" None self in
  connect_exits_to_node assign_node self.

Definition expr_node_type (call_text : string) : string :=
  if PyStr.contains "print" (PyStr.lower call_text)
     || PyStr.contains "input" (PyStr.lower call_text)
  then (if PyStr.contains "print" (PyStr.lower call_text)
        then "output" else "input")
  else "call".

Definition visit_Expr (value : expr_value) (self : Builder) : Builder :=
  match value with
  | CallValue c =>
      let call_text := unparse_call c in
      let '(call_node, self) :=
        create_node call_text (expr_node_type call_text) None self in
      connect_exits_to_node call_node self
  | OtherValue expr_text =>
      let '(expr_node, self) := create_node expr_text "process" None self in
      connect_exits_to_node expr_node self
  end.

Definition visit_Call (c : call) (self : Builder) : Builder :=
  let call_text := unparse_call c in
  let node_type :=
    if PyStr.contains "input" (PyStr.lower call_text) then "input" else "call" in
  (create_node call_text node_type None self).2.

(** The part of [generic_visit] that precedes the walk over the children. *)
Definition generic_node (type_name : string) (text : option string)
    (self : Builder) : Builder :=
  match text with
  | Some stmt_text =>
      if 0 <? PyStr.len (PyStr.strip stmt_text)
      then let '(process_node, self) := create_node stmt_text "process" None self in
           connect_exits_to_node process_node self
      else self
  | None =>
      let '(process_node, self) :=
        create_node ("# " +:+ type_name) "process" None self in
      connect_exits_to_node process_node self
  end.

(** The recursive visitors take [self.visit] as their first argument;
    the knot is tied in [visit] below. *)

Definition visit_each (visit : ast → Builder → Builder)
    (statements : list ast) (self : Builder) : Builder :=
  fold_left (λ b stmt, visit stmt b) statements self.

Definition visit_FunctionDef (visit : ast → Builder → Builder)
    (name : string) (params : list string) (body : list ast)
    (self : Builder) : Builder :=
  let self := set_function_name name self in
  let '(func_start, self) :=
    create_node ("def " +:+ name +:+ "(" +:+ PyStr.join ", " params +:+ ")")
                "start" None self in
  let self := connect_exits_to_node func_start self in
  let self := visit_each visit body self in
  if existsb is_Return body then self
  else
    let '(return_node, self) := create_node "return None" "output" None self in
    connect_exits_to_node return_node self.

Definition visit_If (visit : ast → Builder → Builder)
    (test : string) (body orelse : list ast) (self : Builder) : Builder :=
  let condition_text := test in
  let '(decision_node, self) :=
    create_node condition_text "decision" (Some condition_text) self in
  let self := connect_exits_to_node decision_node self in
  let saved_exits : gset nat := ∅ in
  let self := set_exits {[decision_node]} self in
  let self := visit_each visit body self in
  let saved_exits := saved_exits ∪ current_exits self in
  let self := set_exits {[decision_node]} self in
  let self :=
    match orelse with
    | [elif] => if is_If elif then visit elif self
                else visit_each visit orelse self
    | _ => visit_each visit orelse self
    end in
  let saved_exits := saved_exits ∪ current_exits self in
  let self := relabel if_relabel decision_node self in
  set_exits saved_exits self.

Definition visit_While (visit : ast → Builder → Builder)
    (test : string) (body : list ast) (self : Builder) : Builder :=
  let condition_text := test in
  let '(decision_node, self) :=
    create_node condition_text "decision" (Some condition_text) self in
  let self := connect_exits_to_node decision_node self in
  let self := set_exits {[decision_node]} self in
  let self := visit_each visit body self in
  let self := add_edges_from (elements (current_exits self)) decision_node self in
  let self := set_exits {[decision_node]} self in
  relabel (while_relabel decision_node) decision_node self.

Definition visit_For (visit : ast → Builder → Builder)
    (target iter : string) (body : list ast) (self : Builder) : Builder :=
  let condition_text := "for " +:+ target +:+ " in " +:+ iter in
  let '(decision_node, self) :=
    create_node condition_text "decision" (Some condition_text) self in
  let self := connect_exits_to_node decision_node self in
  let self := set_exits {[decision_node]} self in
  let self := visit_each visit body self in
  let self := add_edges_from (elements (current_exits self)) decision_node self in
  set_exits {[decision_node]} self.

Definition generic_visit (visit : ast → Builder → Builder)
    (type_name : string) (text : option string) (children : list ast)
    (self : Builder) : Builder :=
  let self := generic_node type_name text self in
  visit_each visit children self.

(** [self.visit(node)]: dispatch on the class of the node. *)
Fixpoint visit (node : ast) (self : Builder) : Builder :=
  match node with
  | FunctionDef name params body => visit_FunctionDef visit name params body self
  | If test body orelse => visit_If visit test body orelse self
  | While test body _ => visit_While visit test body self
  | For target iter body _ => visit_For visit target iter body self
  | Return value => visit_Return value self
  | Assign targets value => visit_Assign targets value self
  | AugAssign target op value => visit_AugAssign target op value self
  | Expr value => visit_Expr value self
  | Call c => visit_Call c self
  | Other type_name text children => generic_visit visit type_name text children self
  end.

Definition visit_statements (statements : list ast) (self : Builder) : Builder :=
  visit_each visit statements self.

Definition visit_Module (body : list ast) (self : Builder) : Builder :=
  let '(entry, self) := create_node "START" "start" None self in
  let self := set_entry entry self in
  let self := set_exits {[entry]} self in
  let self := visit_statements body self in
  let '(end_node, self) := create_node "END" "end" None self in
  connect_exits_to_node end_node self.

(** [create_flowchart_cfg] on a program that parses to [Module(body)]. *)
Definition create_flowchart_cfg (body : list ast) : Graph :=
  nodes (visit_Module body Builder_init).

Definition succs_of (g : Graph) (k : nat) : list (nat * string) :=
  match Dict.get k g with
  | Some n => successors n
  | None => []
  end.

Definition type_of (g : Graph) (k : nat) : option string :=
  node_type <$> Dict.get k g.

Definition label_of (g : Graph) (k : nat) : option string :=
  label <$> Dict.get k g.

(** ** Complexity analyzer *)

Definition node_count (g : Graph) : nat := length g.

(** [sum(len(node.successors) for node in nodes.values())] *)
Definition edge_count (g : Graph) : nat :=
  sum_list_with (λ kv : nat * CFGNode, length (successors kv.2)) g.

Definition calculate_cyclomatic_complexity (g : Graph) : Z :=
  match g with
  | [] => 0
  | _ =>
      let N := Z.of_nat (node_count g) in
      let E := Z.of_nat (edge_count g) in
      let P := 1 in
      let complexity := E - N + 2 * P in
      Z.max complexity 1
  end%Z.

Definition is_decision (n : CFGNode) : bool := String.eqb (node_type n) "decision".

Definition decision_count (g : Graph) : nat :=
  length (filter (λ kv : nat * CFGNode, is_decision kv.2 = true) g).

Definition calculate_complexity_by_decisions (g : Graph) : Z :=
  (Z.of_nat (decision_count g) + 1)%Z.

(** ** Graph exporter

    [graphviz.Digraph] is an external library: the object is modelled
    by the sequence of calls made on it, and its [source] property is a
    parameter of the exporter. *)

Inductive DotStmt :=
| AttrStmt (kw : option string) (attrs : list (string * string))
| NodeStmt (name lbl : string) (attrs : list (string * string))
| EdgeStmt (tail_name head_name : string) (lbl : option string).

Record Digraph := mkDigraph {
  dot_comment : string;
  dot_format : string;
  dot_body : list DotStmt
}.

Definition wrap_step (acc : list string * list string * nat) (word : string)
    : list string * list string * nat :=
  let '(lines, current_line, current_length) := acc in
  if current_length + PyStr.len word + 1 <=? 30
  then (lines, current_line ++ [word], current_length + PyStr.len word + 1)
  else ((if negb (Nat.eqb (length current_line) 0)
         then lines ++ [PyStr.join " " current_line] else lines),
        [word], PyStr.len word).

(** The label formatting of [visualize_flowchart_cfg]. *)
Definition format_label (lbl : string) : string :=
  if 30 <? PyStr.len lbl
  then
    let words := PyStr.split lbl in
    let '(lines, current_line, _) := fold_left wrap_step words ([], [], 0) in
    let lines :=
      if negb (Nat.eqb (length current_line) 0)
      then lines ++ [PyStr.join " " current_line] else lines in
    PyStr.join "\n" lines
  else lbl.

Definition node_stmt (kv : nat * CFGNode) : DotStmt :=
  let '(node_id, node) := kv in
  let shape := get_shape node in
  let color := get_color node in
  NodeStmt (pretty node_id) (format_label (label node))
    [("shape", shape); ("fillcolor", color); ("style", "filled");
     ("width", if String.eqb shape "diamond" then "1.5" else "1.0");
     ("height", if String.eqb shape "diamond" then "1.0" else "0.5")].

Definition edge_stmts (kv : nat * CFGNode) : list DotStmt :=
  let '(node_id, node) := kv in
  map (λ e : nat * string,
         if PyStr.truthy e.2
         then EdgeStmt (pretty node_id) (pretty e.1) (Some e.2)
         else EdgeStmt (pretty node_id) (pretty e.1) None)
      (successors node).

Definition flowchart_digraph (g : Graph) : Digraph :=
  mkDigraph "Control Flow Graph" "png"
    ([AttrStmt None [("rankdir", "TB"); ("splines", "ortho")];
      AttrStmt (Some "node") [("fontname", "Arial"); ("fontsize", "10")];
      AttrStmt (Some "edge") [("fontname", "Arial"); ("fontsize", "9")]]
     ++ map node_stmt g
     ++ concat (map edge_stmts g)).

Section Exporter.
  (** [dot.source], the renderer of the Graphviz library. *)
Variable source : Digraph → string.

Definition visualize_flowchart_cfg (g : Graph) : string :=
    match g with
    | [] => ""
    | _ => source (flowchart_digraph g)
    end.
End Exporter.

(** ** Observations on graphs and builder states *)

(** What the tests below look at: id, label, kind and edges of each node. *)
Definition view (g : Graph) : list (nat * string * string * list (nat * string)) :=
  map (λ kv : nat * CFGNode, (kv.1, label kv.2, node_type kv.2, successors kv.2)) g.

Definition kinds (g : Graph) : list string := map (λ kv : nat * CFGNode, node_type kv.2) g.

Definition targets (n : CFGNode) : list nat := map fst (successors n).

(** Some node of [g] has an edge to [k]. *)
Definition has_incoming (g : Graph) (k : nat) : bool :=
  existsb (λ kv : nat * CFGNode, existsb (Nat.eqb k) (targets kv.2)) g.

Definition is_start (n : CFGNode) : bool := String.eqb (node_type n) "start".

Definition start_count (g : Graph) : nat :=
  length (filter (λ kv : nat * CFGNode, is_start kv.2 = true) g).

(** Every edge of [g], from [u] to [t] say, satisfies [Q u t]. *)
Definition all_edges (Q : nat → nat → bool) (g : Graph) : bool :=
  forallb (λ kv : nat * CFGNode, forallb (Q kv.1) (targets kv.2)) g.

(** Every edge of [g] goes to a node satisfying [Q]. *)
Definition all_targets (Q : nat → bool) (g : Graph) : bool :=
  all_edges (λ _, Q) g.

(** Ids are handed out densely, in creation order. *)
Definition dense (self : Builder) : Prop :=
  Dict.keys (nodes self) = seq 0 (current_node_id self).

(** Dense ids, and no edge towards a node that does not exist yet. *)
Definition sound (self : Builder) : Prop :=
  dense self
  ∧ all_targets (λ t, t <? current_node_id self) (nodes self) = true.

(** Every open exit is a node of the graph. *)
Definition exits_exist (self : Builder) : bool :=
  forallb (λ e, e <? current_node_id self) (elements (current_exits self)).

(** The states the builder goes through. *)
Definition wf (self : Builder) : Prop := sound self ∧ exits_exist self = true.

(** Node [k] exists and no edge reaches it. *)
Definition untouched (k : nat) (self : Builder) : Prop :=
  k < current_node_id self ∧ has_incoming (nodes self) k = false.

(** Node [k] exists and every edge into it comes from [k] or from a
    node created after it. *)
Definition low_free (k : nat) (self : Builder) : Prop :=
  k < current_node_id self
  ∧ all_edges (λ u t, (k <=? u) || negb (Nat.eqb k t)) (nodes self) = true.

(** Every open exit was created at [lo] or later, and exists. *)
Definition exits_within (lo : nat) (self : Builder) : Prop :=
  lo ≤ current_node_id self
  ∧ ∀ e, e ∈ current_exits self → lo ≤ e < current_node_id self.

(** The edges of a chain of [len] straight-line statements numbered from
    [n] on, entered from node [a]: what is appended to the successors of
    node [u]. *)
Definition chain_edge (a n len u : nat) : list (nat * string) :=
  if (0 <? len) && Nat.eqb u a then [(n, "")]
  else if (n <=? u) && (S u <? n + len) then [(S u, "")]
  else [].

(** The closed form of [if_relabel]. *)
Definition unlabelled (e : nat * string) : bool := negb (PyStr.truthy e.2).

(** ** The shape of a traversal, read off the statement tree *)

Definition generic_kinds (text : option string) : list string :=
  match text with
  | Some stmt_text =>
      if 0 <? PyStr.len (PyStr.strip stmt_text) then ["process"] else []
  | None => ["process"]
  end.

(** Kinds of the nodes a visit creates, in creation order. *)
Fixpoint kinds_of (s : ast) : list string :=
  match s with
  | FunctionDef _ _ body =>
      "start" :: flat_map kinds_of body
        ++ (if existsb is_Return body then [] else ["output"])
  | If _ body orelse =>
      "decision" :: flat_map kinds_of body ++ flat_map kinds_of orelse
  | While _ body _ => "decision" :: flat_map kinds_of body
  | For _ _ body _ => "decision" :: flat_map kinds_of body
  | Return _ => ["output"]
  | Assign _ _ => ["process"]
  | AugAssign _ _ _ => ["process"]
  | Expr (CallValue c) => [expr_node_type (unparse_call c)]
  | Expr (OtherValue _) => ["process"]
  | Call c =>
      [if PyStr.contains "input" (PyStr.lower (unparse_call c))
       then "input" else "call"]
  | Other _ text children => generic_kinds text ++ flat_map kinds_of children
  end.

(** Function definitions reached by the traversal (the [else] clause of
    a loop is never walked). *)
Fixpoint function_defs (s : ast) : nat :=
  match s with
  | FunctionDef _ _ body => S (sum_list_with function_defs body)
  | If _ body orelse =>
      sum_list_with function_defs body + sum_list_with function_defs orelse
  | While _ body _ => sum_list_with function_defs body
  | For _ _ body _ => sum_list_with function_defs body
  | Other _ _ children => sum_list_with function_defs children
  | _ => 0
  end.

Definition count_kind (ty : string) (l : list string) : nat :=
  length (filter (λ k, k = ty) l).

(** Nodes created by a visit, decisions counted twice. *)
Definition weight (l : list string) : nat := length l + count_kind "decision" l.

(** From [self] to [self'] the node table was extended by nodes of
    kinds [ks], ids staying dense. *)
Definition grows (self self' : Builder) (ks : list string) : Prop :=
  dense self' ∧ kinds (nodes self') = kinds (nodes self) ++ ks.

(** Edges drawn so far plus exits still open. *)
Definition potential (self : Builder) : nat :=
  edge_count (nodes self) + size (current_exits self).

(** Statements handled by one [create_node] followed by
    [connect_exits_to_node]. *)
Definition is_simple (s : ast) : bool :=
  match s with
  | Assign _ _ | AugAssign _ _ _ | Expr _ => true
  | _ => false
  end.

Definition is_loop (s : ast) : bool :=
  match s with
  | While _ _ _ | For _ _ _ _ => true
  | _ => false
  end.

(** The visit of [s] starts by creating a node of its own. *)
Definition opens_node (s : ast) : bool :=
  match s with
  | Other _ text _ => negb (Nat.eqb (length (generic_kinds text)) 0)
  | _ => true
  end.

(** ** The properties under test, as the specification words them *)

(** A decision has exactly two edges, one "True" and one "False". *)
Definition decision_edges_ok (n : CFGNode) : bool :=
  match successors n with
  | [(_, l1); (_, l2)] =>
      (String.eqb l1 "True" && String.eqb l2 "False")
      || (String.eqb l1 "False" && String.eqb l2 "True")
  | _ => false
  end.

Definition decisions_two_way (g : Graph) : bool :=
  forallb (λ kv : nat * CFGNode, negb (is_decision kv.2) || decision_edges_ok kv.2) g.

(** The self-reference rule for the edges of a loop decision. *)
Definition loop_edges_ok (decision_node : nat) (succs : list (nat * string)) : bool :=
  forallb (λ e : nat * string,
             String.eqb e.2 (if Nat.eqb e.1 decision_node then "True" else "False"))
          succs.

(** No Start-kind node is the target of an edge. *)
Definition starts_have_no_incoming (g : Graph) : bool :=
  forallb (λ kv : nat * CFGNode, negb (is_start kv.2) || negb (has_incoming g kv.1)) g.

(** Classification by the name of the callee. *)
Definition callee_node_type (callee : string) : string :=
  if String.eqb callee "print" then "output"
  else if String.eqb callee "input" then "input"
  else "call".

(** Two graphs with the same ids, labels, kinds and edges, in the same order. *)
Definition same_content (g1 g2 : Graph) : Prop :=
  Forall2 (λ kv1 kv2 : nat * CFGNode,
             kv1.1 = kv2.1 ∧ label kv1.2 = label kv2.2
             ∧ node_type kv1.2 = node_type kv2.2
             ∧ successors kv1.2 = successors kv2.2) g1 g2.

(** ** Sample programs *)

(** [while x > 0: x = x - 1] *)
Definition scenario_C : list ast :=
  [While "x > 0" [Assign ["x"] "x - 1"] []].

(** [if x > 0: y = 1] *)
Definition if_without_else : list ast :=
  [If "x > 0" [Assign ["y"] "1"] []].

(** [if x > 0: y = 1 else: y = 2] *)
Definition scenario_B : list ast :=
  [If "x > 0" [Assign ["y"] "1"] [Assign ["y"] "2"]].

(** [for i in xs: y = i] *)
Definition for_loop : list ast :=
  [For "i" "xs" [Assign ["y"] "i"] []].

(** [def f(): x = 1] *)
Definition one_function : list ast :=
  [FunctionDef "f" [] [Assign ["x"] "1"]].

(** [return] followed by [while c: x = 1] *)
Definition loop_after_return : list ast :=
  [Return None; While "c" [Assign ["x"] "1"] []].

(** [foo('print')] *)
Definition foo_call : call := mkCall "foo" ["'print'"].

(** [return] followed by [x = 1] and [y = 2] *)
Definition dead_code : list ast :=
  [Return None; Assign ["x"] "1"; Assign ["y"] "2"].

(** [x = 1] *)
Definition scenario_A : list ast := [Assign ["x"] "1"].

(** A one-node graph, and the same node with other bookkeeping fields. *)
Definition lone_node : Graph := [(0, CFGNode_init 0 "START" "start" None)].
Definition lone_node' : Graph := [(0, mkNode 7 "START" "start" (Some "c") [] {[3]})].

(** A stand-in for the Graphviz renderer: one line per statement. *)
Definition sample_source (d : Digraph) : string :=
  PyStr.join ";"
    (map (λ st, match st with
                | AttrStmt _ _ => "attr"
                | NodeStmt name lbl _ => name +:+ ":" +:+ lbl
                | EdgeStmt a b _ => a +:+ "->" +:+ b
                end) (dot_body d)).

(** The builder right after [visit_Module] has created START. *)
Definition started : Builder :=
  set_exits {[0]} (set_entry 0 (create_node "START" "start" None Builder_init).2).

(** ** Risk rating and the statistics shown by [main] *)

Definition get_complexity_rating (complexity : Z) : string * string :=
  if (complexity <=? 10)%Z then ("Low Risk", "green")
  else if (complexity <=? 20)%Z then ("Moderate Risk", "orange")
  else if (complexity <=? 50)%Z then ("High Risk", "red")
  else ("Very High Risk", "darkred").

(** [node_types[node.node_type] = node_types.get(node.node_type, 0) + 1]
    over [nodes.values()]; the dictionary is only read with [get]. *)
Definition node_types (g : Graph) : gmap string nat :=
  fold_left (λ (m : gmap string nat) (kv : nat * CFGNode),
               <[node_type kv.2 := default 0 (m !! node_type kv.2) + 1]> m)
            g ∅.

(** [node_types.get(ty, 0)] *)
Definition node_types_get (g : Graph) (ty : string) : nat :=
  default 0 (node_types g !! ty).

(** ** Further observations *)

(** [if]/[while]/[for] statements reached by the traversal. *)
Fixpoint decisions (s : ast) : nat :=
  match s with
  | FunctionDef _ _ body => sum_list_with decisions body
  | If _ body orelse =>
      S (sum_list_with decisions body + sum_list_with decisions orelse)
  | While _ body _ => S (sum_list_with decisions body)
  | For _ _ body _ => S (sum_list_with decisions body)
  | Other _ _ children => sum_list_with decisions children
  | _ => 0
  end.

(** The seven kinds listed in [CFGNode.__init__]. *)
Definition known_kind (ty : string) : bool :=
  existsb (String.eqb ty)
    ["start"; "end"; "process"; "decision"; "input"; "output"; "call"].

Definition preds_of (g : Graph) (k : nat) : gset nat :=
  match Dict.get k g with
  | Some n => predecessors n
  | None => ∅
  end.

(** The fields of a node that are set at creation. *)
Definition info_of (g : Graph) (k : nat)
    : option (nat * string * string * option string) :=
  (λ n, (node_id n, label n, node_type n, condition n)) <$> Dict.get k g.

(** Every edge is recorded in the predecessor set of its target. *)
Definition mirrored (g : Graph) : bool :=
  all_edges (λ u t, bool_decide (u ∈ preds_of g t)) g.

(** Every node stores the key it is filed under. *)
Definition ids_match (g : Graph) : Prop :=
  Forall (λ kv : nat * CFGNode, node_id kv.2 = kv.1) g.

Definition is_end (n : CFGNode) : bool := String.eqb (node_type n) "end".

Definition end_count (g : Graph) : nat :=
  length (filter (λ kv : nat * CFGNode, is_end kv.2 = true) g).

(** The records of an exported description. *)
Definition node_stmt_names (body : list DotStmt) : list string :=
  flat_map (λ st, match st with NodeStmt name _ _ => [name] | _ => [] end) body.

Definition edge_stmt_count (body : list DotStmt) : nat :=
  sum_list_with (λ st, match st with EdgeStmt _ _ _ => 1 | _ => 0 end) body.

(** A wrapped line: one word, or at most 30 characters. *)
Definition line_ok (group : list string) : Prop :=
  group ≠ []
  ∧ (length group = 1 ∨ PyStr.len (PyStr.join " " group) ≤ 30).

(** The labels an edge can carry. *)
Definition labels_ok (g : Graph) : Prop :=
  Forall (λ kv : nat * CFGNode,
            Forall (λ e : nat * string, e.2 ∈ [""; "True"; "False"])
                   (successors kv.2)) g.

(** Node [k] exists, is not an open exit and has no outgoing edge. *)
Definition parked (k : nat) (self : Builder) : Prop :=
  k < current_node_id self
  ∧ (k ∉ current_exits self)
  ∧ succs_of (nodes self) k = [].

(** No edge leaving node [d] carries a label. *)
Definition unlabelled_at (d : nat) (self : Builder) : Prop :=
  Forall (λ e : nat * string, e.2 = "") (succs_of (nodes self) d).

(** Every recorded predecessor still has its edge. *)
Definition preds_have_edges (g : Graph) : Prop :=
  ∀ u t, u ∈ preds_of g t → t ∈ map fst (succs_of g u).

(** * Properties *)

(** ** Sample runs *)

Example scenario_C_nodes :
  view (create_flowchart_cfg scenario_C)
  = [(0, "START", "start", [(1, "")]);
     (1, "x > 0", "decision", [(2, "False"); (3, "")]);
     (2, "x = x - 1", "process", [(1, "")]);
     (3, "END", "end", [])].
Proof. vm_compute. reflexivity. Qed.

Example scenario_B_nodes :
  view (create_flowchart_cfg scenario_B)
  = [(0, "START", "start", [(1, "")]);
     (1, "x > 0", "decision", [(2, "True"); (3, "False")]);
     (2, "y = 1", "process", [(4, "")]);
     (3, "y = 2", "process", [(4, "")]);
     (4, "END", "end", [])].
Proof. vm_compute. reflexivity. Qed.

Example if_without_else_nodes :
  view (create_flowchart_cfg if_without_else)
  = [(0, "START", "start", [(1, "")]);
     (1, "x > 0", "decision", [(2, "True"); (3, "")]);
     (2, "y = 1", "process", [(3, "")]);
     (3, "END", "end", [])].
Proof. vm_compute. reflexivity. Qed.

Example for_loop_nodes :
  view (create_flowchart_cfg for_loop)
  = [(0, "START", "start", [(1, "")]);
     (1, "for i in xs", "decision", [(2, ""); (3, "")]);
     (2, "y = i", "process", [(1, "")]);
     (3, "END", "end", [])].
Proof. vm_compute. reflexivity. Qed.

Example one_function_nodes :
  view (create_flowchart_cfg one_function)
  = [(0, "START", "start", [(1, "")]);
     (1, "def f()", "start", [(2, "")]);
     (2, "x = 1", "process", [(3, "")]);
     (3, "return None", "output", [(4, "")]);
     (4, "END", "end", [])].
Proof. vm_compute. reflexivity. Qed.

Example loop_after_return_nodes :
  view (create_flowchart_cfg loop_after_return)
  = [(0, "START", "start", [(1, "")]);
     (1, "return", "output", []);
     (2, "c", "decision", [(3, "False"); (4, "")]);
     (3, "x = 1", "process", [(2, "")]);
     (4, "END", "end", [])].
Proof. vm_compute. reflexivity. Qed.

Example format_label_long :
  format_label "print(f'{count} is multiple of 5') and more words here"
  = "print(f'{count} is multiple\nof 5') and more words here".
Proof. vm_compute. reflexivity. Qed.

Example pretty_id : pretty 12 = "12".
Proof. vm_compute. reflexivity. Qed.

(** ** Dictionaries *)

Section DictFacts.
Context {V : Type}.
Implicit Types (d : list (nat * V)) (k : nat).

Lemma get_app d1 d2 k :
    Dict.get k (d1 ++ d2)
    = match Dict.get k d1 with Some v => Some v | None => Dict.get k d2 end.
  Proof.
    induction d1 as [|[k' v] d1 IH]; simpl; [done|].
    destruct (Nat.eqb k k'); done.
  Qed.

Lemma get_None_keys d k : Dict.get k d = None ↔ k ∉ Dict.keys d.
  Proof.
    induction d as [|[k' v] d IH]; simpl.
    - split; [intros _; apply not_elem_of_nil | done].
    - rewrite not_elem_of_cons. destruct (Nat.eqb_spec k k') as [->|Hne].
      + split; [done | intros [? _]; done].
      + rewrite IH. tauto.
  Qed.

Lemma mem_keys d k : Dict.mem k d = true ↔ k ∈ Dict.keys d.
  Proof.
    unfold Dict.mem. destruct (Dict.get k d) eqn:E.
    - split; [intros _ | done].
      destruct (decide (k ∈ Dict.keys d)) as [|Hn]; [done|].
      apply get_None_keys in Hn. congruence.
    - apply get_None_keys in E. split; [done | intros; contradiction].
  Qed.

Lemma get_alter (f : V → V) k k' d :
    Dict.get k' (Dict.alter f k d)
    = if Nat.eqb k k' then f <$> Dict.get k' d else Dict.get k' d.
  Proof.
    induction d as [|[k0 v] d IH]; simpl.
    - by destruct (Nat.eqb k k').
    - destruct (Nat.eqb_spec k k0) as [->|Hk]; simpl.
      + destruct (Nat.eqb_spec k' k0) as [->|Hk'].
        * by rewrite Nat.eqb_refl.
        * rewrite IH. done.
      + destruct (Nat.eqb_spec k' k0) as [->|Hk'].
        * destruct (Nat.eqb_spec k k0); [done|]. done.
        * apply IH.
  Qed.

Lemma keys_alter (f : V → V) k d : Dict.keys (Dict.alter f k d) = Dict.keys d.
  Proof.
    unfold Dict.keys, Dict.alter. rewrite map_map. apply map_ext.
    intros [k' v]; simpl. by destruct (Nat.eqb k k').
  Qed.

Lemma mem_alter (f : V → V) k k' d : Dict.mem k' (Dict.alter f k d) = Dict.mem k' d.
  Proof.
    unfold Dict.mem. rewrite get_alter.
    destruct (Nat.eqb k k'), (Dict.get k' d); done.
  Qed.

Lemma length_alter (f : V → V) k d : length (Dict.alter f k d) = length d.
  Proof. unfold Dict.alter. by rewrite length_map. Qed.

Lemma set_fresh k v d : k ∉ Dict.keys d → Dict.set k v d = d ++ [(k, v)].
  Proof.
    intros Hk. unfold Dict.set.
    destruct (Dict.mem k d) eqn:E; [|done].
    apply mem_keys in E. contradiction.
  Qed.

Lemma keys_set k v d :
    Dict.keys (Dict.set k v d)
    = if Dict.mem k d then Dict.keys d else Dict.keys d ++ [k].
  Proof.
    unfold Dict.set. destruct (Dict.mem k d).
    - apply keys_alter.
    - unfold Dict.keys. by rewrite map_app.
  Qed.

Lemma mem_seq d k n : Dict.keys d = seq 0 n → Dict.mem k d = (k <? n).
  Proof.
    intros Hd. destruct (Nat.ltb_spec k n) as [Hlt|Hge].
    - apply mem_keys. rewrite Hd. apply elem_of_seq. lia.
    - destruct (Dict.mem k d) eqn:E; [|done].
      apply mem_keys in E. rewrite Hd in E. apply elem_of_seq in E. lia.
  Qed.
End DictFacts.

(** ** Equations of the visitor *)

Lemma visit_statements_nil self : visit_statements [] self = self.
Proof. done. Qed.

Lemma visit_statements_cons s l self :
  visit_statements (s :: l) self = visit_statements l (visit s self).
Proof. done. Qed.


Lemma visit_FunctionDef_eq name params body self :
  visit (FunctionDef name params body) self
  = let self1 := connect_exits_to_node (current_node_id self)
        (create_node ("def " +:+ name +:+ "(" +:+ PyStr.join ", " params +:+ ")")
           "start" None (set_function_name name self)).2 in
    let self2 := visit_statements body self1 in
    if existsb is_Return body then self2
    else connect_exits_to_node (current_node_id self2)
           (create_node "return None" "output" None self2).2.
Proof. done. Qed.

Lemma visit_If_eq test body orelse self :
  visit (If test body orelse) self
  = let d := current_node_id self in
    let self1 := set_exits {[d]} (connect_exits_to_node d
                   (create_node test "decision" (Some test) self).2) in
    let self2 := visit_statements body self1 in
    let self3 := visit_statements orelse (set_exits {[d]} self2) in
    set_exits (∅ ∪ current_exits self2 ∪ current_exits self3)
      (relabel if_relabel d self3).
Proof.
  change (visit (If test body orelse) self)
    with (visit_If visit test body orelse self).
  unfold visit_If. destruct orelse as [|e [|e' l]]; try done.
  destruct (is_If e); done.
Qed.

Lemma visit_For_eq target iter body orelse self :
  visit (For target iter body orelse) self
  = let d := current_node_id self in
    let text := "for " +:+ target +:+ " in " +:+ iter in
    let self1 := set_exits {[d]} (connect_exits_to_node d
                   (create_node text "decision" (Some text) self).2) in
    let self2 := visit_statements body self1 in
    set_exits {[d]} (add_edges_from (elements (current_exits self2)) d self2).
Proof. done. Qed.

Lemma visit_While_eq test body orelse self :
  visit (While test body orelse) self
  = let d := current_node_id self in
    let self1 := set_exits {[d]} (connect_exits_to_node d
                   (create_node test "decision" (Some test) self).2) in
    let self2 := visit_statements body self1 in
    relabel (while_relabel d) d
      (set_exits {[d]} (add_edges_from (elements (current_exits self2)) d self2)).
Proof. done. Qed.

Lemma visit_Other_eq type_name text children self :
  visit (Other type_name text children) self
  = visit_statements children (generic_node type_name text self).
Proof. done. Qed.

(** A [for] loop is built like a [while] loop whose edges were never
    labelled. *)
Lemma visit_While_as_For target iter body orelse self :
  visit (While ("for " +:+ target +:+ " in " +:+ iter) body orelse) self
  = relabel (while_relabel (current_node_id self)) (current_node_id self)
      (visit (For target iter body orelse) self).
Proof. done. Qed.

(** ** Builder primitives *)

Lemma create_node_id lbl ty c self :
  (create_node lbl ty c self).1 = current_node_id self.
Proof. done. Qed.

Lemma connect_nodes t self :
  nodes (connect_exits_to_node t self)
  = nodes (add_edges_from (elements (current_exits self)) t self).
Proof. done. Qed.

Lemma create_exits lbl ty c self :
  current_exits (create_node lbl ty c self).2 = current_exits self.
Proof. done. Qed.

Lemma create_next lbl ty c self :
  current_node_id (create_node lbl ty c self).2 = S (current_node_id self).
Proof. done. Qed.

Lemma add_edge_id a t l self :
  current_node_id (add_edge a t l self) = current_node_id self.
Proof. unfold add_edge. by destruct (_ && _). Qed.

Lemma add_edge_exits a t l self :
  current_exits (add_edge a t l self) = current_exits self.
Proof. unfold add_edge. by destruct (_ && _). Qed.

Lemma add_edge_keys a t l self :
  Dict.keys (nodes (add_edge a t l self)) = Dict.keys (nodes self).
Proof.
  unfold add_edge. destruct (_ && _); [|done].
  simpl. by rewrite !keys_alter.
Qed.

Lemma add_edge_kinds a t l self :
  kinds (nodes (add_edge a t l self)) = kinds (nodes self).
Proof.
  unfold add_edge. destruct (_ && _); [|done].
  simpl. unfold kinds, Dict.alter. rewrite !map_map. apply map_ext.
  intros [k n]; simpl.
  destruct (Nat.eqb a k); simpl; destruct (Nat.eqb t k); done.
Qed.

Lemma add_edges_from_cons e l t self :
  add_edges_from (e :: l) t self = add_edges_from l t (add_edge e t "" self).
Proof. done. Qed.

Lemma add_edges_from_id l t self :
  current_node_id (add_edges_from l t self) = current_node_id self.
Proof.
  revert self. induction l as [|e l IH]; intros self; [done|].
  by rewrite add_edges_from_cons, IH, add_edge_id.
Qed.

Lemma add_edges_from_exits l t self :
  current_exits (add_edges_from l t self) = current_exits self.
Proof.
  revert self. induction l as [|e l IH]; intros self; [done|].
  by rewrite add_edges_from_cons, IH, add_edge_exits.
Qed.

Lemma add_edges_from_keys l t self :
  Dict.keys (nodes (add_edges_from l t self)) = Dict.keys (nodes self).
Proof.
  revert self. induction l as [|e l IH]; intros self; [done|].
  by rewrite add_edges_from_cons, IH, add_edge_keys.
Qed.

Lemma add_edges_from_kinds l t self :
  kinds (nodes (add_edges_from l t self)) = kinds (nodes self).
Proof.
  revert self. induction l as [|e l IH]; intros self; [done|].
  by rewrite add_edges_from_cons, IH, add_edge_kinds.
Qed.

Lemma relabel_kinds f d self : kinds (nodes (relabel f d self)) = kinds (nodes self).
Proof.
  simpl. unfold kinds, Dict.alter. rewrite map_map. apply map_ext.
  intros [k n]; simpl. by destruct (Nat.eqb d k).
Qed.

(** ** Invariants of the traversal

    A property of the builder that every primitive keeps is kept by
    every visit. Edges are only ever drawn towards a node allocated
    earlier in a state where the property already held. *)

Section Preservation.
Variable J : Builder → Prop.
Hypothesis J_create : ∀ self lbl ty c, J self → J (create_node lbl ty c self).2.
Hypothesis J_edge : ∀ self0 self a l,
    J self0 → J self → J (add_edge a (current_node_id self0) l self).
Hypothesis J_exits : ∀ self F, J self → J (set_exits F self).
Hypothesis J_name : ∀ self f, J self → J (set_function_name f self).
Hypothesis J_relabel_if : ∀ self d, J self → J (relabel if_relabel d self).
Hypothesis J_relabel_while : ∀ self d,
    J self → J (relabel (while_relabel d) d self).

Lemma add_edges_from_preserves self0 exits self :
    J self0 → J self → J (add_edges_from exits (current_node_id self0) self).
  Proof using J_edge.
    intros H0. revert self. induction exits as [|e exits IH]; intros self H; [done|].
    rewrite add_edges_from_cons. apply IH. by apply J_edge.
  Qed.

Lemma create_connect_preserves lbl ty c self :
    J self →
    J (connect_exits_to_node (current_node_id self) (create_node lbl ty c self).2).
  Proof using J_create J_edge J_exits.
    intros H. unfold connect_exits_to_node. apply J_exits.
    apply add_edges_from_preserves; [done|]. by apply J_create.
  Qed.

Lemma visit_statements_preserves l :
    Forall (λ s, ∀ self, J self → J (visit s self)) l →
    ∀ self, J self → J (visit_statements l self).
  Proof.
    induction 1 as [|s l Hs _ IH]; intros self H; [done|].
    rewrite visit_statements_cons. apply IH, Hs, H.
  Qed.

Lemma generic_node_preserves type_name text self :
    J self → J (generic_node type_name text self).
  Proof using J_create J_edge J_exits.
    intros H. unfold generic_node. destruct text as [t|].
    - destruct (0 <? _); [|done]. by apply create_connect_preserves.
    - by apply create_connect_preserves.
  Qed.

Lemma visit_preserves s : ∀ self, J self → J (visit s self).
  Proof using All.
    induction s as [name params body IHb | test body orelse IHb IHo
                   | test body orelse IHb | target iter body orelse IHb
                   | | | | value | | type_name text children IHc] using ast_ind;
      intros self H.
    - rewrite visit_FunctionDef_eq; cbv zeta.
      assert (J (visit_statements body
                   (connect_exits_to_node (current_node_id self)
                      (create_node ("def " +:+ name +:+ "(" +:+ PyStr.join ", " params +:+ ")")
                         "start" None (set_function_name name self)).2))) as H2.
      { apply visit_statements_preserves; [exact IHb|].
        apply (create_connect_preserves _ _ _ (set_function_name name self)).
        by apply J_name. }
      destruct (existsb is_Return body); [done|].
      by apply create_connect_preserves.
    - rewrite visit_If_eq; cbv zeta.
      apply J_exits, J_relabel_if.
      apply visit_statements_preserves; [exact IHo|]. apply J_exits.
      apply visit_statements_preserves; [exact IHb|]. apply J_exits.
      by apply create_connect_preserves.
    - rewrite visit_While_eq; cbv zeta.
      assert (J (connect_exits_to_node (current_node_id self)
                   (create_node test "decision" (Some test) self).2)) as H1
        by by apply create_connect_preserves.
      apply J_relabel_while, J_exits.
      apply add_edges_from_preserves; [done|].
      apply visit_statements_preserves; [exact IHb|]. by apply J_exits.
    - rewrite visit_For_eq; cbv zeta.
      apply J_exits. apply add_edges_from_preserves; [done|].
      apply visit_statements_preserves; [exact IHb|]. apply J_exits.
      by apply create_connect_preserves.
    - simpl. unfold visit_Return. apply J_exits.
      by apply create_connect_preserves.
    - by apply create_connect_preserves.
    - by apply create_connect_preserves.
    - destruct value; by apply create_connect_preserves.
    - by apply J_create.
    - rewrite visit_Other_eq. apply visit_statements_preserves; [exact IHc|].
      by apply generic_node_preserves.
  Qed.
End Preservation.

(** ** Edge targets *)

Lemma has_incoming_all_targets g k :
  has_incoming g k = negb (all_targets (λ t, negb (Nat.eqb k t)) g).
Proof.
  unfold has_incoming, all_targets, all_edges.
  induction g as [|[k' n] g IH]; simpl; [done|].
  rewrite IH, negb_andb. f_equal.
  induction (targets n) as [|t l IHl]; simpl; [done|].
  by rewrite IHl, negb_andb, negb_involutive.
Qed.

Lemma all_edges_app Q g1 g2 :
  all_edges Q (g1 ++ g2) = all_edges Q g1 && all_edges Q g2.
Proof. unfold all_edges. apply forallb_app. Qed.

Lemma all_edges_weaken (Q Q' : nat → nat → bool) g :
  (∀ u t, Q u t = true → Q' u t = true) →
  all_edges Q g = true → all_edges Q' g = true.
Proof.
  intros HQ. unfold all_edges. rewrite !forallb_forall.
  intros H kv Hkv. specialize (H kv Hkv).
  rewrite forallb_forall in H |- *. intros t Ht. by apply HQ, H.
Qed.

Lemma all_edges_alter Q (f : CFGNode → CFGNode) k g :
  (∀ n, forallb (Q k) (targets n) = true → forallb (Q k) (targets (f n)) = true) →
  all_edges Q g = true → all_edges Q (Dict.alter f k g) = true.
Proof.
  intros Hf. unfold all_edges, Dict.alter.
  induction g as [|[k' n] g IH]; simpl; [done|].
  rewrite !andb_true_iff. intros [Hn Hg]. split; [|by apply IH].
  destruct (Nat.eqb_spec k k') as [->|Hne]; simpl; [by apply Hf | done].
Qed.

Lemma all_edges_set Q k v g :
  forallb (Q k) (targets v) = true →
  all_edges Q g = true → all_edges Q (Dict.set k v g) = true.
Proof.
  intros Hv Hg. unfold Dict.set. destruct (Dict.mem k g).
  - by apply all_edges_alter.
  - rewrite all_edges_app, Hg. unfold all_edges. simpl. by rewrite Hv.
Qed.

Lemma all_edges_create Q lbl ty c self :
  all_edges Q (nodes self) = true →
  all_edges Q (nodes (create_node lbl ty c self).2) = true.
Proof. intros H. simpl. by apply all_edges_set. Qed.

Lemma all_edges_add_edge Q a t l self :
  (Dict.mem t (nodes self) = true → Q a t = true) →
  all_edges Q (nodes self) = true →
  all_edges Q (nodes (add_edge a t l self)) = true.
Proof.
  intros Ht H. unfold add_edge.
  destruct (Dict.mem a (nodes self)); simpl; [|done].
  destruct (Dict.mem t (nodes self)) eqn:Hm; simpl; [|done].
  apply all_edges_alter; [done|].
  apply all_edges_alter; [|done].
  intros n Hn. unfold targets; simpl.
  rewrite map_app, forallb_app. fold (targets n). rewrite Hn. simpl.
  by rewrite Ht.
Qed.

Lemma all_targets_weaken (Q Q' : nat → bool) g :
  (∀ t, Q t = true → Q' t = true) →
  all_targets Q g = true → all_targets Q' g = true.
Proof. intros HQ. apply all_edges_weaken. intros _. apply HQ. Qed.

Lemma all_targets_create Q lbl ty c self :
  all_targets Q (nodes self) = true →
  all_targets Q (nodes (create_node lbl ty c self).2) = true.
Proof. apply all_edges_create. Qed.

Lemma all_targets_add_edge Q a t l self :
  (Dict.mem t (nodes self) = true → Q t = true) →
  all_targets Q (nodes self) = true →
  all_targets Q (nodes (add_edge a t l self)) = true.
Proof. apply (all_edges_add_edge (λ _, Q)). Qed.

Lemma if_label_step_labelled acc e :
  unlabelled e ≠ true → if_label_step acc e = acc.
Proof.
  unfold unlabelled, if_label_step. destruct acc as [te fe].
  by destruct (PyStr.truthy e.2).
Qed.

Lemma if_label_step_first fe e :
  unlabelled e = true → if_label_step ([], fe) e = ([(e.1, "True")], fe).
Proof.
  unfold unlabelled, if_label_step. by destruct (PyStr.truthy e.2).
Qed.

Lemma if_label_step_next x te fe e :
  unlabelled e = true →
  if_label_step (x :: te, fe) e = (x :: te, fe ++ [(e.1, "False")]).
Proof.
  unfold unlabelled, if_label_step. by destruct (PyStr.truthy e.2).
Qed.

Lemma if_label_fold_started l x te fe :
  fold_left if_label_step l (x :: te, fe)
  = (x :: te,
     fe ++ map (λ e : nat * string, (e.1, "False"))
             (filter (λ e, unlabelled e = true) l)).
Proof.
  revert fe. induction l as [|e l IH]; intros fe.
  - simpl. by rewrite app_nil_r.
  - rewrite filter_cons. cbn [fold_left].
    destruct (decide (unlabelled e = true)) as [Hu|Hu].
    + rewrite if_label_step_next by done. rewrite IH.
      cbn [map]. by rewrite <- app_assoc.
    + rewrite if_label_step_labelled by done. apply IH.
Qed.

Lemma if_relabel_closed l :
  if_relabel l
  = match filter (λ e, unlabelled e = true) l with
    | [] => []
    | e :: r => (e.1, "True") :: map (λ e : nat * string, (e.1, "False")) r
    end.
Proof.
  unfold if_relabel.
  induction l as [|e l IH]; [done|].
  rewrite filter_cons. cbn [fold_left].
  destruct (decide (unlabelled e = true)) as [Hu|Hu].
  - rewrite if_label_step_first by done.
    rewrite if_label_fold_started. simpl. by rewrite map_map.
  - rewrite if_label_step_labelled by done. apply IH.
Qed.

Lemma if_relabel_targets l :
  map fst (if_relabel l) = map fst (filter (λ e, unlabelled e = true) l).
Proof.
  rewrite if_relabel_closed.
  destruct (filter _ l) as [|e r]; simpl; [done|].
  by rewrite map_map.
Qed.

Lemma while_relabel_targets d l : map fst (while_relabel d l) = map fst l.
Proof.
  unfold while_relabel. rewrite map_map. apply map_ext.
  intros [t lb]; simpl. by destruct (Nat.eqb t d).
Qed.

Lemma forallb_filter_targets Q (l : list (nat * string)) :
  forallb Q (map fst l) = true →
  forallb Q (map fst (filter (λ e, unlabelled e = true) l)) = true.
Proof.
  rewrite !forallb_forall. intros H t Ht. apply H.
  apply in_map_iff in Ht as [e [<- He]]. apply in_map.
  apply list_elem_of_In. apply list_elem_of_In in He.
  by apply list_elem_of_filter in He as [_ ?].
Qed.

Lemma all_edges_relabel_if Q d self :
  all_edges Q (nodes self) = true →
  all_edges Q (nodes (relabel if_relabel d self)) = true.
Proof.
  intros H. simpl. apply all_edges_alter; [|done].
  intros n Hn. unfold targets; simpl. rewrite if_relabel_targets.
  by apply forallb_filter_targets.
Qed.

Lemma all_edges_relabel_while Q d self :
  all_edges Q (nodes self) = true →
  all_edges Q (nodes (relabel (while_relabel d) d self)) = true.
Proof.
  intros H. simpl. apply all_edges_alter; [|done].
  intros n Hn. unfold targets; simpl. by rewrite while_relabel_targets.
Qed.

Lemma all_targets_relabel_if Q d self :
  all_targets Q (nodes self) = true →
  all_targets Q (nodes (relabel if_relabel d self)) = true.
Proof. apply all_edges_relabel_if. Qed.

Lemma all_targets_relabel_while Q d self :
  all_targets Q (nodes self) = true →
  all_targets Q (nodes (relabel (while_relabel d) d self)) = true.
Proof. apply all_edges_relabel_while. Qed.

(** ** Sound builder states *)

Lemma dense_mem self k :
  dense self → Dict.mem k (nodes self) = (k <? current_node_id self).
Proof. intros H. by apply mem_seq. Qed.

Lemma create_node_nodes lbl ty c self :
  dense self →
  nodes (create_node lbl ty c self).2
  = nodes self ++ [(current_node_id self,
                    CFGNode_init (current_node_id self) lbl ty c)].
Proof.
  intros Hd. simpl. apply set_fresh. red in Hd. rewrite Hd, elem_of_seq. lia.
Qed.

Lemma dense_create lbl ty c self : dense self → dense (create_node lbl ty c self).2.
Proof.
  intros Hd. unfold dense. rewrite create_node_nodes by done.
  change (current_node_id (create_node lbl ty c self).2)
    with (S (current_node_id self)).
  unfold dense, Dict.keys in *. rewrite map_app, Hd. by rewrite seq_S.
Qed.

Lemma dense_add_edge a t l self : dense self → dense (add_edge a t l self).
Proof. unfold dense. by rewrite add_edge_keys, add_edge_id. Qed.

Lemma dense_add_edges_from exits t self :
  dense self → dense (add_edges_from exits t self).
Proof. unfold dense. by rewrite add_edges_from_keys, add_edges_from_id. Qed.

Lemma dense_relabel f d self : dense self → dense (relabel f d self).
Proof. unfold dense. simpl. by rewrite keys_alter. Qed.

Lemma dense_connect t self : dense self → dense (connect_exits_to_node t self).
Proof. intros H. unfold connect_exits_to_node. by apply dense_add_edges_from. Qed.

Lemma sound_init : sound Builder_init.
Proof. done. Qed.

Lemma sound_create lbl ty c self : sound self → sound (create_node lbl ty c self).2.
Proof.
  intros [Hd Ht]. split; [by apply dense_create|].
  apply all_targets_create. apply all_targets_weaken with (2 := Ht).
  intros t. simpl. rewrite !Nat.ltb_lt. lia.
Qed.

Lemma sound_add_edge a t l self : sound self → sound (add_edge a t l self).
Proof.
  intros [Hd Ht]. split; [by apply dense_add_edge|].
  rewrite add_edge_id. apply all_targets_add_edge; [|done].
  by rewrite dense_mem.
Qed.

Lemma sound_relabel_if d self : sound self → sound (relabel if_relabel d self).
Proof.
  intros [Hd Ht]. split; [by apply dense_relabel|].
  by apply all_targets_relabel_if.
Qed.

Lemma sound_relabel_while d self : sound self → sound (relabel (while_relabel d) d self).
Proof.
  intros [Hd Ht]. split; [by apply dense_relabel|].
  by apply all_targets_relabel_while.
Qed.

Lemma sound_visit s self : sound self → sound (visit s self).
Proof.
  apply visit_preserves; clear.
  - intros; by apply sound_create.
  - intros; by apply sound_add_edge.
  - by intros ? ? [??].
  - by intros ? ? [??].
  - intros; by apply sound_relabel_if.
  - intros; by apply sound_relabel_while.
Qed.

Lemma sound_visit_statements l self : sound self → sound (visit_statements l self).
Proof.
  apply visit_statements_preserves, Forall_forall. intros s _ ?. apply sound_visit.
Qed.

Lemma sound_connect lbl ty c self :
  sound self →
  sound (connect_exits_to_node (current_node_id self) (create_node lbl ty c self).2).
Proof.
  apply create_connect_preserves.
  - intros; by apply sound_create.
  - intros; by apply sound_add_edge.
  - by intros ? ? [??].
Qed.

Lemma sound_started : sound started.
Proof. split; reflexivity. Qed.

(** Ids only grow. *)
Lemma visit_id_mono s self : current_node_id self ≤ current_node_id (visit s self).
Proof.
  apply (visit_preserves (λ b, current_node_id self ≤ current_node_id b)); clear; simpl; intros.
  - lia.
  - by rewrite add_edge_id.
  - done.
  - done.
  - done.
  - done.
  - done.
Qed.

Lemma visit_statements_id_mono l self :
  current_node_id self ≤ current_node_id (visit_statements l self).
Proof.
  revert self. induction l as [|s l IH]; intros self; [done|].
  rewrite visit_statements_cons. etrans; [apply (visit_id_mono s)|apply IH].
Qed.

(** ** Nodes that exist are never targeted by later statements *)

Lemma untouched_alt k self :
  untouched k self
  ↔ k < current_node_id self
    ∧ all_targets (λ t, negb (Nat.eqb k t)) (nodes self) = true.
Proof.
  unfold untouched. rewrite has_incoming_all_targets.
  by rewrite negb_false_iff.
Qed.

Lemma untouched_create k lbl ty c self :
  untouched k self → untouched k (create_node lbl ty c self).2.
Proof.
  rewrite !untouched_alt. intros [Hk Ht]. split; [simpl; lia|].
  by apply all_targets_create.
Qed.

Lemma untouched_add_edge k a t l self :
  k ≠ t → untouched k self → untouched k (add_edge a t l self).
Proof.
  rewrite !untouched_alt. intros Hne [Hk Ht]. split; [by rewrite add_edge_id|].
  apply all_targets_add_edge; [|done].
  intros _. apply negb_true_iff, Nat.eqb_neq. done.
Qed.

Lemma untouched_add_edges_from k exits t self :
  k ≠ t → untouched k self → untouched k (add_edges_from exits t self).
Proof.
  intros Hne. revert self. induction exits as [|e exits IH]; intros self H; [done|].
  rewrite add_edges_from_cons. by apply IH, untouched_add_edge.
Qed.

Lemma untouched_relabel_if k d self :
  untouched k self → untouched k (relabel if_relabel d self).
Proof.
  rewrite !untouched_alt. intros [Hk Ht]. split; [done|].
  by apply all_targets_relabel_if.
Qed.

Lemma untouched_relabel_while k d self :
  untouched k self → untouched k (relabel (while_relabel d) d self).
Proof.
  rewrite !untouched_alt. intros [Hk Ht]. split; [done|].
  by apply all_targets_relabel_while.
Qed.

Lemma untouched_visit k s self : untouched k self → untouched k (visit s self).
Proof.
  apply visit_preserves; clear.
  - intros; by apply untouched_create.
  - intros self0 self a l [H0 _] H. apply untouched_add_edge; [lia|done].
  - done.
  - done.
  - intros; by apply untouched_relabel_if.
  - intros; by apply untouched_relabel_while.
Qed.

Lemma untouched_visit_statements k l self :
  untouched k self → untouched k (visit_statements l self).
Proof.
  apply visit_statements_preserves, Forall_forall. intros s _ ?.
  apply untouched_visit.
Qed.

(** ** The node table is append-only *)

Lemma grows_refl self : dense self → grows self self [].
Proof. intros H. split; [done|]. by rewrite app_nil_r. Qed.

Lemma grows_trans a b c k1 k2 :
  grows a b k1 → grows b c k2 → grows a c (k1 ++ k2).
Proof. intros [_ H1] [Hd H2]. split; [done|]. by rewrite H2, H1, app_assoc. Qed.

Lemma grows_cons a b c k ks :
  grows a b [k] → grows b c ks → grows a c (k :: ks).
Proof. apply (grows_trans a b c [k] ks). Qed.

Lemma grows_exits a b ks F : grows a b ks → grows a (set_exits F b) ks.
Proof. done. Qed.

Lemma grows_from_exits a c ks F : grows (set_exits F a) c ks → grows a c ks.
Proof. done. Qed.

Lemma grows_relabel a b ks f d : grows a b ks → grows a (relabel f d b) ks.
Proof.
  intros [Hd Hk]. split; [by apply dense_relabel|]. by rewrite relabel_kinds.
Qed.

Lemma grows_add_edges_from a b ks exits t :
  grows a b ks → grows a (add_edges_from exits t b) ks.
Proof.
  intros [Hd Hk]. split; [by apply dense_add_edges_from|].
  by rewrite add_edges_from_kinds.
Qed.

Lemma grows_create lbl ty c self :
  dense self → grows self (create_node lbl ty c self).2 [ty].
Proof.
  intros Hd. split; [by apply dense_create|].
  rewrite create_node_nodes by done. unfold kinds. by rewrite map_app.
Qed.

Lemma grows_create_connect lbl ty c self :
  dense self →
  grows self (connect_exits_to_node (current_node_id self)
                (create_node lbl ty c self).2) [ty].
Proof.
  intros Hd. unfold connect_exits_to_node.
  by apply grows_exits, grows_add_edges_from, grows_create.
Qed.

Lemma grows_generic_node type_name text self :
  dense self → grows self (generic_node type_name text self) (generic_kinds text).
Proof.
  intros Hd. unfold generic_node, generic_kinds. destruct text as [t|].
  - destruct (0 <? _); [by apply grows_create_connect | by apply grows_refl].
  - by apply grows_create_connect.
Qed.

Lemma grows_visit_statements l :
  Forall (λ s, ∀ self, dense self → grows self (visit s self) (kinds_of s)) l →
  ∀ self, dense self →
    grows self (visit_statements l self) (flat_map kinds_of l).
Proof.
  induction 1 as [|s l Hs _ IH]; intros self Hd; [by apply grows_refl|].
  rewrite visit_statements_cons. simpl.
  pose proof (Hs self Hd) as H1.
  eapply grows_trans; [exact H1|]. apply IH, H1.
Qed.

Lemma grows_visit s : ∀ self, dense self → grows self (visit s self) (kinds_of s).
Proof.
  induction s as [name params body IHb | test body orelse IHb IHo
                 | test body orelse IHb | target iter body orelse IHb
                 | | | | value | | type_name text children IHc] using ast_ind;
    intros self Hd.
  - rewrite visit_FunctionDef_eq; cbv zeta. simpl kinds_of.
    pose proof (grows_create_connect
                  ("def " +:+ name +:+ "(" +:+ PyStr.join ", " params +:+ ")")
                  "start" None (set_function_name name self) Hd) as H1.
    pose proof (grows_visit_statements body IHb _ (proj1 H1)) as H2.
    pose proof (grows_trans _ _ _ _ _ H1 H2) as H3.
    destruct (existsb is_Return body).
    + rewrite app_nil_r. exact H3.
    + apply (grows_trans (set_function_name name self) _ _
                 ("start" :: flat_map kinds_of body) ["output"] H3).
      apply grows_create_connect, H3.
  - rewrite visit_If_eq; cbv zeta. simpl kinds_of.
    pose proof (grows_create_connect test "decision" (Some test) self Hd) as H1.
    apply grows_exits, grows_relabel.
    eapply grows_cons; [exact H1|].
    pose proof (grows_visit_statements body IHb
                  (set_exits {[current_node_id self]}
                     (connect_exits_to_node (current_node_id self)
                        (create_node test "decision" (Some test) self).2))
                  (proj1 H1)) as H2.
    eapply grows_trans; [exact H2|].
    apply (grows_visit_statements orelse IHo (set_exits _ _)), H2.
  - rewrite visit_While_eq; cbv zeta. simpl kinds_of.
    pose proof (grows_create_connect test "decision" (Some test) self Hd) as H1.
    apply grows_relabel, grows_exits, grows_add_edges_from.
    eapply grows_cons; [exact H1|].
    apply (grows_from_exits _ _ _ {[current_node_id self]}).
    apply (grows_visit_statements body IHb), H1.
  - rewrite visit_For_eq; cbv zeta. simpl kinds_of.
    pose proof (grows_create_connect ("for " +:+ target +:+ " in " +:+ iter)
                  "decision" (Some ("for " +:+ target +:+ " in " +:+ iter))
                  self Hd) as H1.
    apply grows_exits, grows_add_edges_from.
    eapply grows_cons; [exact H1|].
    apply (grows_from_exits _ _ _ {[current_node_id self]}).
    apply (grows_visit_statements body IHb), H1.
  - simpl. unfold visit_Return. by apply grows_exits, grows_create_connect.
  - by apply grows_create_connect.
  - by apply grows_create_connect.
  - destruct value; by apply grows_create_connect.
  - by apply grows_create.
  - rewrite visit_Other_eq. simpl kinds_of.
    pose proof (grows_generic_node type_name text self Hd) as H1.
    eapply grows_trans; [exact H1|].
    apply (grows_visit_statements children IHc), H1.
Qed.

Lemma grows_statements l self :
  dense self → grows self (visit_statements l self) (flat_map kinds_of l).
Proof.
  apply grows_visit_statements, Forall_forall. intros s _. apply grows_visit.
Qed.

Lemma dense_visit_statements l self : dense self → dense (visit_statements l self).
Proof. intros H. by apply grows_statements. Qed.

Lemma visit_Module_eq body :
  visit_Module body Builder_init
  = connect_exits_to_node (current_node_id (visit_statements body started))
      (create_node "END" "end" None (visit_statements body started)).2.
Proof. done. Qed.

(** The node table of a completed build. *)
Lemma create_flowchart_cfg_kinds body :
  kinds (create_flowchart_cfg body)
  = "start" :: flat_map kinds_of body ++ ["end"].
Proof.
  unfold create_flowchart_cfg. rewrite visit_Module_eq.
  pose proof (grows_statements body started (proj1 sound_started)) as H1.
  pose proof (grows_create_connect "END" "end" None _ (proj1 H1)) as [_ H2].
  rewrite H2. destruct H1 as [_ ->]. done.
Qed.

(** ** Counting edges *)

Lemma edge_count_app g1 g2 : edge_count (g1 ++ g2) = edge_count g1 + edge_count g2.
Proof. apply sum_list_with_app. Qed.

Lemma edge_count_alter_le (f : CFGNode → CFGNode) k g :
  (∀ n, length (successors (f n)) ≤ length (successors n)) →
  edge_count (Dict.alter f k g) ≤ edge_count g.
Proof.
  intros Hf. induction g as [|[k' n] g IH]; simpl; [done|].
  fold (edge_count (Dict.alter f k g)). fold (edge_count g).
  destruct (Nat.eqb k k'); simpl; [specialize (Hf n)|]; lia.
Qed.

Lemma edge_count_alter_same (f : CFGNode → CFGNode) k g :
  (∀ n, length (successors (f n)) = length (successors n)) →
  edge_count (Dict.alter f k g) = edge_count g.
Proof.
  intros Hf. induction g as [|[k' n] g IH]; simpl; [done|].
  fold (edge_count (Dict.alter f k g)). fold (edge_count g).
  destruct (Nat.eqb k k'); simpl; [rewrite Hf|]; lia.
Qed.

Lemma alter_absent {V} (f : V → V) k (d : list (nat * V)) :
  k ∉ Dict.keys d → Dict.alter f k d = d.
Proof.
  induction d as [|[k' v] d IH]; simpl; [done|].
  rewrite not_elem_of_cons. intros [Hne Hd].
  destruct (Nat.eqb_spec k k'); [done|]. f_equal. by apply IH.
Qed.

Lemma edge_count_alter_add t l k g :
  NoDup (Dict.keys g) → Dict.mem k g = true →
  edge_count (Dict.alter (add_successor t l) k g) = S (edge_count g).
Proof.
  induction g as [|[k' n] g IH]; simpl; [done|].
  rewrite NoDup_cons. intros [Hk' Hnd] Hm.
  fold (edge_count (Dict.alter (add_successor t l) k g)). fold (edge_count g).
  unfold Dict.mem in Hm. simpl in Hm.
  destruct (Nat.eqb_spec k k') as [->|Hne]; simpl.
  - fold (@Dict.alter CFGNode) in *. rewrite alter_absent by done.
    rewrite length_app. simpl. lia.
  - rewrite IH; [lia|done|done].
Qed.

Lemma dense_NoDup self : dense self → NoDup (Dict.keys (nodes self)).
Proof. intros ->. apply NoDup_seq. Qed.

Lemma edge_count_add_edge a t l self :
  dense self →
  edge_count (nodes (add_edge a t l self))
  = edge_count (nodes self)
    + (if Dict.mem a (nodes self) && Dict.mem t (nodes self) then 1 else 0).
Proof.
  intros Hd. unfold add_edge. destruct (_ && _) eqn:E; [|simpl; lia].
  apply andb_true_iff in E as [Ha _]. simpl.
  rewrite edge_count_alter_same by done.
  rewrite edge_count_alter_add; [lia|by apply dense_NoDup|done].
Qed.

Lemma edge_count_add_edges_from exits t self :
  dense self →
  edge_count (nodes (add_edges_from exits t self))
  ≤ edge_count (nodes self) + length exits.
Proof.
  revert self. induction exits as [|e exits IH]; intros self Hd; simpl; [lia|].
  fold (add_edges_from exits t (add_edge e t "" self)).
  etrans; [apply IH, dense_add_edge, Hd|].
  rewrite edge_count_add_edge by done. destruct (_ && _); lia.
Qed.

Lemma edge_count_create lbl ty c self :
  dense self →
  edge_count (nodes (create_node lbl ty c self).2) = edge_count (nodes self).
Proof.
  intros Hd. rewrite create_node_nodes by done.
  rewrite edge_count_app. simpl. lia.
Qed.

Lemma edge_count_relabel_if d self :
  edge_count (nodes (relabel if_relabel d self)) ≤ edge_count (nodes self).
Proof.
  simpl. apply edge_count_alter_le. intros n. simpl.
  rewrite <- (length_map fst (if_relabel _)), if_relabel_targets, length_map.
  apply length_filter.
Qed.

Lemma edge_count_relabel_while d self :
  edge_count (nodes (relabel (while_relabel d) d self)) = edge_count (nodes self).
Proof.
  simpl. apply edge_count_alter_same. intros n. simpl.
  unfold while_relabel. by rewrite length_map.
Qed.

Lemma weight_app l1 l2 : weight (l1 ++ l2) = weight l1 + weight l2.
Proof.
  unfold weight, count_kind. rewrite filter_app, !length_app. lia.
Qed.

Lemma weight_decision l : weight ("decision" :: l) = 2 + weight l.
Proof. unfold weight, count_kind. rewrite filter_cons_True by done. simpl. lia. Qed.

Lemma weight_cons k l : 1 + weight l ≤ weight (k :: l).
Proof.
  unfold weight, count_kind. rewrite filter_cons.
  destruct (decide (k = "decision")); simpl; lia.
Qed.

Lemma potential_create_connect lbl ty c self :
  dense self →
  potential (connect_exits_to_node (current_node_id self)
               (create_node lbl ty c self).2)
  ≤ potential self + 1.
Proof.
  intros Hd. unfold potential, connect_exits_to_node. simpl current_exits.
  rewrite size_singleton.
  pose proof (edge_count_add_edges_from
                (elements (current_exits self)) (current_node_id self)
                (create_node lbl ty c self).2 (dense_create _ _ _ _ Hd)) as H.
  rewrite edge_count_create in H by done.
  simpl nodes in *. unfold size, set_size. simpl. lia.
Qed.

Lemma potential_statements l :
  Forall (λ s, ∀ self, dense self →
            potential (visit s self) ≤ potential self + weight (kinds_of s)) l →
  ∀ self, dense self →
    potential (visit_statements l self)
    ≤ potential self + weight (flat_map kinds_of l).
Proof.
  induction 1 as [|s l Hs _ IH]; intros self Hd; [simpl; lia|].
  rewrite visit_statements_cons. simpl. rewrite weight_app.
  pose proof (Hs self Hd). pose proof (grows_visit s self Hd) as [Hd' _].
  specialize (IH _ Hd'). lia.
Qed.

Lemma potential_set_exits F self :
  potential (set_exits F self) = edge_count (nodes self) + size F.
Proof. done. Qed.

Lemma potential_reset d self :
  potential (set_exits {[d]} self) + size (current_exits self) = potential self + 1.
Proof. rewrite potential_set_exits, size_singleton. unfold potential. lia. Qed.

Lemma potential_exits_empty self : potential (set_exits ∅ self) ≤ potential self.
Proof. rewrite potential_set_exits, size_empty. unfold potential. lia. Qed.

Lemma size_union_le (X Y : gset nat) : size (X ∪ Y) ≤ size X + size Y.
Proof.
  rewrite size_union_alt.
  assert (Y ∖ X ⊆ Y) as HY.
  { intros x Hx. by apply elem_of_difference in Hx as [? _]. }
  apply subseteq_size in HY. lia.
Qed.

Lemma potential_If_merge d self2 self3 :
  potential (set_exits (∅ ∪ current_exits self2 ∪ current_exits self3)
               (relabel if_relabel d self3))
  ≤ potential self3 + size (current_exits self2).
Proof.
  rewrite potential_set_exits, (left_id_L ∅ (∪)).
  pose proof (edge_count_relabel_if d self3).
  pose proof (size_union_le (current_exits self2) (current_exits self3)).
  unfold potential. lia.
Qed.

Lemma potential_loop_close d self :
  dense self →
  potential (set_exits {[d]}
               (add_edges_from (elements (current_exits self)) d self))
  ≤ potential self + 1.
Proof.
  intros Hd. rewrite potential_set_exits, size_singleton.
  pose proof (edge_count_add_edges_from (elements (current_exits self)) d self Hd) as H.
  unfold potential, size, set_size in *. simpl. lia.
Qed.

Lemma potential_relabel_while d self :
  potential (relabel (while_relabel d) d self) = potential self.
Proof. unfold potential. by rewrite edge_count_relabel_while. Qed.

Lemma potential_generic_node type_name text self :
  dense self →
  potential (generic_node type_name text self)
  ≤ potential self + weight (generic_kinds text).
Proof.
  intros Hd. unfold generic_node, generic_kinds. destruct text as [t|].
  - destruct (0 <? _); [by apply potential_create_connect | simpl; lia].
  - by apply potential_create_connect.
Qed.

(** Every visit draws at most as many edges, and leaves at most as many
    exits open, as the nodes it creates pay for: one per node, two per
    decision. *)
Lemma potential_visit s :
  ∀ self, dense self →
    potential (visit s self) ≤ potential self + weight (kinds_of s).
Proof.
  induction s as [name params body IHb | test body orelse IHb IHo
                 | test body orelse IHb | target iter body orelse IHb
                 | | | | value | | type_name text children IHc] using ast_ind;
    intros self Hd.
  - rewrite visit_FunctionDef_eq; cbv zeta. simpl kinds_of.
    pose proof (potential_create_connect
                  ("def " +:+ name +:+ "(" +:+ PyStr.join ", " params +:+ ")")
                  "start" None (set_function_name name self) Hd) as H1.
    pose proof (dense_connect (current_node_id self) _
                  (dense_create ("def " +:+ name +:+ "(" +:+ PyStr.join ", " params +:+ ")")
                     "start" None (set_function_name name self) Hd)) as Hd1.
    pose proof (potential_statements body IHb _ Hd1) as H2.
    pose proof (dense_visit_statements body _ Hd1) as Hd2.
    change (potential (set_function_name name self)) with (potential self) in H1.
    change (current_node_id (set_function_name name self))
      with (current_node_id self) in H1.
    pose proof (weight_cons "start"
                  (flat_map kinds_of body
                     ++ (if existsb is_Return body then [] else ["output"]))) as Hw.
    rewrite weight_app in Hw.
    destruct (existsb is_Return body).
    + simpl in Hw. lia.
    + pose proof (potential_create_connect "return None" "output" None _ Hd2) as H3.
      pose proof (weight_cons "output" []) as Hw'.
      change (weight []) with 0 in Hw'. lia.
  - rewrite visit_If_eq; cbv zeta. simpl kinds_of.
    rewrite weight_decision, weight_app.
    pose proof (potential_create_connect test "decision" (Some test) self Hd) as H1.
    pose proof (dense_connect (current_node_id self) _
                  (dense_create test "decision" (Some test) self Hd)) as Hd1.
    pose proof (potential_statements body IHb
                  (set_exits {[current_node_id self]}
                     (connect_exits_to_node (current_node_id self)
                        (create_node test "decision" (Some test) self).2)) Hd1) as H2.
    pose proof (dense_visit_statements body
                  (set_exits {[current_node_id self]}
                     (connect_exits_to_node (current_node_id self)
                        (create_node test "decision" (Some test) self).2)) Hd1) as Hd2.
    change (potential (set_exits {[current_node_id self]}
                     (connect_exits_to_node (current_node_id self)
                        (create_node test "decision" (Some test) self).2)))
      with (potential (connect_exits_to_node (current_node_id self)
                        (create_node test "decision" (Some test) self).2)) in H2.
    revert H2 Hd2.
    generalize (visit_statements body
                  (set_exits {[current_node_id self]}
                     (connect_exits_to_node (current_node_id self)
                        (create_node test "decision" (Some test) self).2))).
    intros self2 H2 Hd2.
    pose proof (potential_statements orelse IHo
                  (set_exits {[current_node_id self]} self2) Hd2) as H3.
    pose proof (potential_reset (current_node_id self) self2) as H4.
    pose proof (potential_If_merge (current_node_id self) self2
                  (visit_statements orelse
                     (set_exits {[current_node_id self]} self2))) as H5.
    lia.
  - rewrite visit_While_eq; cbv zeta. simpl kinds_of.
    rewrite weight_decision, potential_relabel_while.
    pose proof (potential_create_connect test "decision" (Some test) self Hd) as H1.
    pose proof (dense_connect (current_node_id self) _
                  (dense_create test "decision" (Some test) self Hd)) as Hd1.
    pose proof (potential_statements body IHb
                  (set_exits {[current_node_id self]}
                     (connect_exits_to_node (current_node_id self)
                        (create_node test "decision" (Some test) self).2)) Hd1) as H2.
    pose proof (dense_visit_statements body
                  (set_exits {[current_node_id self]}
                     (connect_exits_to_node (current_node_id self)
                        (create_node test "decision" (Some test) self).2)) Hd1) as Hd2.
    pose proof (potential_loop_close (current_node_id self) _ Hd2) as H3.
    change (potential (set_exits {[current_node_id self]}
                     (connect_exits_to_node (current_node_id self)
                        (create_node test "decision" (Some test) self).2)))
      with (potential (connect_exits_to_node (current_node_id self)
                        (create_node test "decision" (Some test) self).2)) in H2.
    lia.
  - rewrite visit_For_eq; cbv zeta. simpl kinds_of.
    rewrite weight_decision.
    pose proof (potential_create_connect ("for " +:+ target +:+ " in " +:+ iter)
                  "decision" (Some ("for " +:+ target +:+ " in " +:+ iter))
                  self Hd) as H1.
    pose proof (dense_connect (current_node_id self) _
                  (dense_create ("for " +:+ target +:+ " in " +:+ iter)
                     "decision" (Some ("for " +:+ target +:+ " in " +:+ iter))
                     self Hd)) as Hd1.
    pose proof (potential_statements body IHb
                  (set_exits {[current_node_id self]}
                     (connect_exits_to_node (current_node_id self)
                        (create_node ("for " +:+ target +:+ " in " +:+ iter)
                           "decision"
                           (Some ("for " +:+ target +:+ " in " +:+ iter))
                           self).2)) Hd1) as H2.
    pose proof (dense_visit_statements body
                  (set_exits {[current_node_id self]}
                     (connect_exits_to_node (current_node_id self)
                        (create_node ("for " +:+ target +:+ " in " +:+ iter)
                           "decision"
                           (Some ("for " +:+ target +:+ " in " +:+ iter))
                           self).2)) Hd1) as Hd2.
    pose proof (potential_loop_close (current_node_id self) _ Hd2) as H3.
    change (potential (set_exits {[current_node_id self]}
                     (connect_exits_to_node (current_node_id self)
                        (create_node ("for " +:+ target +:+ " in " +:+ iter)
                           "decision"
                           (Some ("for " +:+ target +:+ " in " +:+ iter))
                           self).2)))
      with (potential (connect_exits_to_node (current_node_id self)
                        (create_node ("for " +:+ target +:+ " in " +:+ iter)
                           "decision"
                           (Some ("for " +:+ target +:+ " in " +:+ iter))
                           self).2)) in H2.
    lia.
  - simpl visit. unfold visit_Return.
    etrans; [apply potential_exits_empty|].
    etrans; [by apply potential_create_connect|]. done.
  - etrans; [by apply (potential_create_connect _ "process")|]. done.
  - etrans; [by apply (potential_create_connect _ "process")|]. done.
  - pose proof (weight_cons (hd "" (kinds_of (Expr value))) []) as Hw.
    change (weight []) with 0 in Hw.
    destruct value; (etrans; [by apply potential_create_connect|]); simpl in *; lia.
  - simpl visit. unfold visit_Call, potential. simpl current_exits.
    rewrite edge_count_create by done.
    pose proof (weight_cons (hd "" (kinds_of (Call c))) []) as Hw.
    change (weight []) with 0 in Hw. simpl in *. lia.
  - rewrite visit_Other_eq. simpl kinds_of. rewrite weight_app.
    pose proof (potential_generic_node type_name text self Hd) as H1.
    pose proof (grows_generic_node type_name text self Hd) as [Hd1 _].
    pose proof (potential_statements children IHc _ Hd1) as H2. lia.
Qed.

Lemma potential_visit_statements l self :
  dense self →
  potential (visit_statements l self) ≤ potential self + weight (flat_map kinds_of l).
Proof.
  apply potential_statements, Forall_forall. intros s _. apply potential_visit.
Qed.

(** ** Open exits are nodes of the graph *)

Lemma exits_exist_spec self :
  exits_exist self = true
  ↔ ∀ e, e ∈ current_exits self → e < current_node_id self.
Proof.
  unfold exits_exist. rewrite forallb_forall. split.
  - intros H e He. apply Nat.ltb_lt, H, list_elem_of_In, elem_of_elements, He.
  - intros H e He. apply Nat.ltb_lt, H, elem_of_elements, list_elem_of_In, He.
Qed.

Lemma connect_id t self :
  current_node_id (connect_exits_to_node t self) = current_node_id self.
Proof. unfold connect_exits_to_node. simpl. apply add_edges_from_id. Qed.

Lemma connect_exits t self : current_exits (connect_exits_to_node t self) = {[t]}.
Proof. done. Qed.

Lemma exits_exist_within self : exits_exist self = true ↔ exits_within 0 self.
Proof.
  rewrite exits_exist_spec. unfold exits_within. split.
  - intros H. split; [lia|]. intros e He. specialize (H e He). lia.
  - intros [_ H] e He. by apply H.
Qed.

Section ExitsWithin.
Variable lo : nat.

Lemma exits_within_connect lbl ty c self :
    lo ≤ current_node_id self →
    exits_within lo (connect_exits_to_node (current_node_id self)
                       (create_node lbl ty c self).2).
  Proof.
    intros Hlo. split; rewrite connect_id, create_next; [lia|].
    intros e He. rewrite connect_exits in He.
    apply elem_of_singleton in He as ->. lia.
  Qed.

Lemma exits_within_one d self :
    lo ≤ d → d < current_node_id self → exits_within lo (set_exits {[d]} self).
  Proof.
    intros H1 H2. split; [simpl; lia|]. intros e He.
    change (e ∈ ({[d]} : gset nat)) in He.
    apply elem_of_singleton in He as ->. simpl. lia.
  Qed.

Lemma exits_within_statements l :
    Forall (λ s, ∀ self, exits_within lo self → exits_within lo (visit s self)) l →
    ∀ self, exits_within lo self → exits_within lo (visit_statements l self).
  Proof.
    induction 1 as [|s l Hs _ IH]; intros self H; [done|].
    rewrite visit_statements_cons. apply IH, Hs, H.
  Qed.

Lemma exits_within_visit s :
    ∀ self, exits_within lo self → exits_within lo (visit s self).
  Proof.
    induction s as [name params body IHb | test body orelse IHb IHo
                   | test body orelse IHb | target iter body orelse IHb
                   | | | | value | | type_name text children IHc] using ast_ind;
      intros self H; pose proof H as [Hlo Hin].
    - rewrite visit_FunctionDef_eq; cbv zeta.
      assert (exits_within lo
                (visit_statements body
                   (connect_exits_to_node (current_node_id self)
                      (create_node
                         ("def " +:+ name +:+ "(" +:+ PyStr.join ", " params +:+ ")")
                         "start" None (set_function_name name self)).2))) as H2.
      { apply exits_within_statements; [exact IHb|].
        by apply (exits_within_connect _ _ _ (set_function_name name self)). }
      destruct (existsb is_Return body); [done|].
      apply exits_within_connect. exact (proj1 H2).
    - rewrite visit_If_eq; cbv zeta.
      set (self1 := set_exits {[current_node_id self]}
                      (connect_exits_to_node (current_node_id self)
                         (create_node test "decision" (Some test) self).2)).
      assert (exits_within lo self1) as H1 by by apply exits_within_connect.
      assert (current_node_id self1 = S (current_node_id self)) as Hn1
        by (unfold self1; simpl; by rewrite add_edges_from_id).
      pose proof (exits_within_statements body IHb self1 H1) as H2.
      pose proof (visit_statements_id_mono body self1) as Hm2.
      revert H2 Hm2. generalize (visit_statements body self1). intros self2 H2 Hm2.
      assert (exits_within lo (set_exits {[current_node_id self]} self2)) as H2'
        by (apply exits_within_one; lia).
      pose proof (exits_within_statements orelse IHo _ H2') as H3.
      pose proof (visit_statements_id_mono orelse
                    (set_exits {[current_node_id self]} self2)) as Hm3.
      revert H3 Hm3.
      generalize (visit_statements orelse (set_exits {[current_node_id self]} self2)).
      intros self3 H3 Hm3. simpl in Hm3.
      destruct H2 as [_ H2], H3 as [Hlo3 H3].
      split; [done|]. intros e He. simpl in He |- *.
      rewrite !elem_of_union in He. destruct He as [[He|He]|He].
      + by apply elem_of_empty in He.
      + specialize (H2 e He). lia.
      + by apply H3.
    - rewrite visit_While_eq; cbv zeta.
      apply (exits_within_one _ (relabel _ _ (add_edges_from _ _ _))); [done|].
      simpl. rewrite add_edges_from_id.
      eapply Nat.lt_le_trans; [|apply visit_statements_id_mono].
      simpl. rewrite add_edges_from_id. simpl. lia.
    - rewrite visit_For_eq; cbv zeta.
      apply exits_within_one; [done|]. rewrite add_edges_from_id.
      eapply Nat.lt_le_trans; [|apply visit_statements_id_mono].
      simpl. rewrite add_edges_from_id. simpl. lia.
    - simpl visit. unfold visit_Return. split.
      + simpl. rewrite add_edges_from_id. simpl. lia.
      + intros e He. by apply elem_of_empty in He.
    - by apply exits_within_connect.
    - by apply exits_within_connect.
    - destruct value; by apply exits_within_connect.
    - split; [simpl; lia|]. intros e He. simpl in *. specialize (Hin e He). lia.
    - rewrite visit_Other_eq. apply exits_within_statements; [exact IHc|].
      unfold generic_node. destruct text as [t|]; [|by apply exits_within_connect].
      destruct (0 <? _); [by apply exits_within_connect | done].
  Qed.
End ExitsWithin.

Lemma exits_exist_visit s self :
  exits_exist self = true → exits_exist (visit s self) = true.
Proof. rewrite !exits_exist_within. apply exits_within_visit. Qed.

Lemma exits_within_visit_statements lo l self :
  exits_within lo self → exits_within lo (visit_statements l self).
Proof.
  apply exits_within_statements, Forall_forall. intros s _.
  apply exits_within_visit.
Qed.

(** ** Well-formed builder states *)

Lemma wf_started : wf started.
Proof. split; [apply sound_started | reflexivity]. Qed.

Lemma wf_visit s self : wf self → wf (visit s self).
Proof. intros [H1 H2]. split; [by apply sound_visit | by apply exits_exist_visit]. Qed.

Lemma wf_visit_statements l self : wf self → wf (visit_statements l self).
Proof.
  revert self. induction l as [|s l IH]; intros self H; [done|].
  rewrite visit_statements_cons. by apply IH, wf_visit.
Qed.

(** ** What one [create_node] / [connect_exits_to_node] pair does *)

Lemma get_alter_proj {A} (p : CFGNode → A) (f : CFGNode → CFGNode) a k g :
  (∀ n, p (f n) = p n) → p <$> Dict.get k (Dict.alter f a g) = p <$> Dict.get k g.
Proof.
  intros Hp. rewrite get_alter. destruct (Nat.eqb a k); [|done].
  destruct (Dict.get k g); simpl; [by rewrite Hp | done].
Qed.

Lemma proj_add_edge {A} (p : CFGNode → A) a t l self k :
  (∀ x n, p (add_successor t x n) = p n) →
  (∀ x n, p (add_predecessor x n) = p n) →
  p <$> Dict.get k (nodes (add_edge a t l self)) = p <$> Dict.get k (nodes self).
Proof.
  intros H1 H2. unfold add_edge. destruct (_ && _); [|done]. simpl.
  rewrite !get_alter_proj; done.
Qed.

Lemma proj_add_edges_from {A} (p : CFGNode → A) exits t self k :
  (∀ x n, p (add_successor t x n) = p n) →
  (∀ x n, p (add_predecessor x n) = p n) →
  p <$> Dict.get k (nodes (add_edges_from exits t self))
  = p <$> Dict.get k (nodes self).
Proof.
  intros H1 H2. revert self. induction exits as [|e exits IH]; intros self; [done|].
  rewrite add_edges_from_cons, IH. by apply proj_add_edge.
Qed.

Lemma get_created lbl ty c self :
  dense self →
  Dict.get (current_node_id self) (nodes (create_node lbl ty c self).2)
  = Some (CFGNode_init (current_node_id self) lbl ty c).
Proof.
  intros Hd. rewrite create_node_nodes by done. rewrite get_app.
  assert (Dict.get (current_node_id self) (nodes self) = None) as ->.
  { apply get_None_keys. red in Hd. rewrite Hd, elem_of_seq. lia. }
  simpl. by rewrite Nat.eqb_refl.
Qed.

Lemma label_create_connect lbl ty c self :
  dense self →
  label_of (nodes (connect_exits_to_node (current_node_id self)
                     (create_node lbl ty c self).2)) (current_node_id self)
  = Some lbl.
Proof.
  intros Hd. unfold label_of. rewrite connect_nodes.
  rewrite proj_add_edges_from by done. by rewrite get_created.
Qed.

Lemma type_create_connect lbl ty c self :
  dense self →
  type_of (nodes (connect_exits_to_node (current_node_id self)
                    (create_node lbl ty c self).2)) (current_node_id self)
  = Some ty.
Proof.
  intros Hd. unfold type_of. rewrite connect_nodes.
  rewrite proj_add_edges_from by done. by rewrite get_created.
Qed.

Lemma keys_create_connect lbl ty c self :
  dense self →
  Dict.keys (nodes (connect_exits_to_node (current_node_id self)
                      (create_node lbl ty c self).2))
  = Dict.keys (nodes self) ++ [current_node_id self].
Proof.
  intros Hd. rewrite connect_nodes.
  rewrite add_edges_from_keys, create_node_nodes by done.
  unfold Dict.keys. by rewrite map_app.
Qed.

Lemma mem_add_edge k a t l self :
  Dict.mem k (nodes (add_edge a t l self)) = Dict.mem k (nodes self).
Proof.
  unfold add_edge. destruct (_ && _); [|done]. simpl. by rewrite !mem_alter.
Qed.

Lemma succs_alter_pred x t g u :
  succs_of (Dict.alter (add_predecessor x) t g) u = succs_of g u.
Proof.
  unfold succs_of.
  pose proof (get_alter_proj successors (add_predecessor x) t u g) as H.
  destruct (Dict.get u (Dict.alter _ t g)), (Dict.get u g); simpl in H;
    try (by injection (H ltac:(done))); by specialize (H ltac:(done)).
Qed.

Lemma succs_add_edge a t l self u :
  succs_of (nodes (add_edge a t l self)) u
  = succs_of (nodes self) u
    ++ (if Nat.eqb a u && Dict.mem a (nodes self) && Dict.mem t (nodes self)
        then [(t, l)] else []).
Proof.
  unfold add_edge.
  destruct (Dict.mem a (nodes self)) eqn:Ha; simpl;
    [|by rewrite andb_false_r, app_nil_r].
  destruct (Dict.mem t (nodes self)) eqn:Ht; simpl;
    [|by rewrite andb_false_r, app_nil_r].
  rewrite succs_alter_pred. unfold succs_of. rewrite get_alter.
  destruct (Nat.eqb_spec a u) as [->|Hne]; simpl; [|by rewrite app_nil_r].
  unfold Dict.mem in Ha. by destruct (Dict.get u (nodes self)).
Qed.

Lemma succs_add_edges_from exits t self u :
  NoDup exits →
  succs_of (nodes (add_edges_from exits t self)) u
  = succs_of (nodes self) u
    ++ (if bool_decide (u ∈ exits) && Dict.mem u (nodes self)
           && Dict.mem t (nodes self)
        then [(t, "")] else []).
Proof.
  intros Hnd. revert self.
  induction Hnd as [|e exits He Hnd IH]; intros self.
  - simpl. by rewrite app_nil_r.
  - rewrite add_edges_from_cons, IH, succs_add_edge, !mem_add_edge.
    rewrite <- app_assoc. f_equal.
    destruct (Nat.eqb_spec e u) as [->|Hne].
    + rewrite (bool_decide_eq_false_2 (u ∈ exits)) by done.
      rewrite (bool_decide_eq_true_2 (u ∈ u :: exits)) by apply list_elem_of_here.
      simpl. by rewrite app_nil_r.
    + simpl. f_equal.
      destruct (decide (u ∈ exits)) as [Hin|Hin].
      * rewrite !bool_decide_eq_true_2; [done| |done].
        by apply list_elem_of_further.
      * rewrite !bool_decide_eq_false_2; [done| |done].
        rewrite elem_of_cons. intros [?|?]; congruence.
Qed.

Lemma succs_create lbl ty c self u :
  dense self →
  succs_of (nodes (create_node lbl ty c self).2) u = succs_of (nodes self) u.
Proof.
  intros Hd. rewrite create_node_nodes by done. unfold succs_of.
  rewrite get_app. destruct (Dict.get u (nodes self)); [done|].
  simpl. by destruct (Nat.eqb u (current_node_id self)).
Qed.

(** The new node gets one unlabelled edge from every open exit, and
    nothing else changes. *)
Lemma succs_create_connect lbl ty c self u :
  wf self →
  succs_of (nodes (connect_exits_to_node (current_node_id self)
                     (create_node lbl ty c self).2)) u
  = succs_of (nodes self) u
    ++ (if bool_decide (u ∈ current_exits self)
        then [(current_node_id self, "")] else []).
Proof.
  intros [[Hd _] He]. rewrite connect_nodes.
  rewrite succs_add_edges_from by apply NoDup_elements.
  rewrite succs_create by done. f_equal.
  rewrite !(dense_mem _ _ (dense_create lbl ty c self Hd)).
  rewrite create_exits, create_next.
  destruct (decide (u ∈ current_exits self)) as [Hin|Hin].
  - rewrite !bool_decide_eq_true_2; [|done|by apply elem_of_elements].
    rewrite exits_exist_spec in He. specialize (He u Hin).
    assert ((u <? S (current_node_id self)) = true) as Hu
      by (apply Nat.ltb_lt; lia).
    assert ((current_node_id self <? S (current_node_id self)) = true) as Hn
      by (apply Nat.ltb_lt; lia).
    by rewrite Hu, Hn.
  - rewrite !bool_decide_eq_false_2; [done|done|by rewrite elem_of_elements].
Qed.

(** ** Complexity *)

Lemma decision_count_kinds g : decision_count g = count_kind "decision" (kinds g).
Proof.
  unfold decision_count, count_kind, kinds.
  induction g as [|[k n] g IH]; [done|].
  rewrite map_cons, !filter_cons. cbn [snd].
  destruct (decide (is_decision n = true)) as [H1|H1],
           (decide (node_type n = "decision")) as [H2|H2]; simpl.
  - by rewrite IH.
  - by apply String.eqb_eq in H1.
  - by apply String.eqb_eq in H2.
  - done.
Qed.

Lemma node_count_kinds g : node_count g = length (kinds g).
Proof. unfold node_count, kinds. by rewrite length_map. Qed.

(** In a completed graph the McCabe number never exceeds the number of
    decisions plus one. *)
Lemma edge_count_completed body :
  edge_count (create_flowchart_cfg body) + 1
  ≤ node_count (create_flowchart_cfg body)
    + decision_count (create_flowchart_cfg body).
Proof.
  rewrite node_count_kinds, decision_count_kinds, create_flowchart_cfg_kinds.
  unfold create_flowchart_cfg. rewrite visit_Module_eq.
  pose proof (potential_visit_statements body started (proj1 sound_started)) as H1.
  pose proof (dense_visit_statements body started (proj1 sound_started)) as Hd.
  pose proof (potential_create_connect "END" "end" None _ Hd) as H2.
  unfold potential at 1 in H2. rewrite connect_exits, size_singleton in H2.
  change (potential started) with 1 in H1.
  unfold weight in H1. unfold count_kind in *.
  rewrite filter_cons_False by done. rewrite filter_app, !length_app.
  simpl length. rewrite length_app. simpl length. lia.
Qed.

Lemma cyclomatic_of_nonempty g :
  g ≠ [] →
  calculate_cyclomatic_complexity g
  = Z.max (Z.of_nat (edge_count g) - Z.of_nat (node_count g) + 2) 1.
Proof. by destruct g. Qed.

(** C5 (as worded, refuted): on the empty graph the function returns 0,
    which is below the claimed minimum of 1. *)
Lemma cyclomatic_empty_graph :
  calculate_cyclomatic_complexity [] = 0%Z
  ∧ ¬ (1 ≤ calculate_cyclomatic_complexity [])%Z.
Proof. split; [reflexivity | simpl; lia]. Qed.

(** C5 (amended): for every non-empty graph the cyclomatic complexity is
    [max(1, E - N + 2)], hence at least 1. *)
Theorem cyclomatic_nonempty_graph (g : Graph) (H : g ≠ []) :
  calculate_cyclomatic_complexity g
  = Z.max 1 (Z.of_nat (edge_count g) - Z.of_nat (node_count g) + 2)
  ∧ (1 ≤ calculate_cyclomatic_complexity g)%Z.
Proof.
  rewrite cyclomatic_of_nonempty by done. split; lia.
Qed.

Lemma cyclomatic_nonempty_graph_witness :
  lone_node ≠ []
  ∧ calculate_cyclomatic_complexity lone_node
    = Z.max 1 (Z.of_nat (edge_count lone_node) - Z.of_nat (node_count lone_node) + 2)
  ∧ (1 ≤ calculate_cyclomatic_complexity lone_node)%Z.
Proof.
  split; [discriminate|].
  apply (cyclomatic_nonempty_graph lone_node). discriminate.
Defined.

(** C6: a completed graph without Decision nodes has cyclomatic
    complexity 1 and decision complexity 1. *)
Theorem no_decision_complexity_one (body : list ast) :
  decision_count (create_flowchart_cfg body) = 0 →
  calculate_cyclomatic_complexity (create_flowchart_cfg body) = 1%Z
  ∧ calculate_complexity_by_decisions (create_flowchart_cfg body) = 1%Z.
Proof.
  intros H0. pose proof (edge_count_completed body) as HE.
  unfold calculate_complexity_by_decisions. rewrite H0 in *.
  split; [|done].
  assert (create_flowchart_cfg body ≠ []) as Hne.
  { intros Heq. pose proof (create_flowchart_cfg_kinds body) as Hk.
    by rewrite Heq in Hk. }
  rewrite cyclomatic_of_nonempty by done. lia.
Qed.

Lemma no_decision_complexity_one_witness :
  decision_count (create_flowchart_cfg scenario_A) = 0
  ∧ calculate_cyclomatic_complexity (create_flowchart_cfg scenario_A) = 1%Z
  ∧ calculate_complexity_by_decisions (create_flowchart_cfg scenario_A) = 1%Z.
Proof.
  split; [reflexivity|].
  apply (no_decision_complexity_one scenario_A). reflexivity.
Defined.

(** ** Decision edges *)

(** C1 (the code falls short): an [if] without [else] leaves the
    decision with one "True" edge and one unlabelled edge; the decisions
    of [while] and [for] loops are not two-way labelled either. Only a
    conditional with both branches gets "True" and "False". *)
Theorem decision_edges_not_two_way :
  succs_of (create_flowchart_cfg if_without_else) 1 = [(2, "True"); (3, "")]
  ∧ decisions_two_way (create_flowchart_cfg if_without_else) = false
  ∧ decisions_two_way (create_flowchart_cfg scenario_C) = false
  ∧ decisions_two_way (create_flowchart_cfg for_loop) = false
  ∧ decisions_two_way (create_flowchart_cfg scenario_B) = true.
Proof. repeat split; vm_compute; reflexivity. Qed.

(** C2 (the code falls short): [visit_For] renders the label as
    "for <binding> in <iterable>" and builds the same nodes and edges as
    [visit_While], but never labels the decision's edges: once the body
    is traversed and the back-edge added, the edge into the body is
    unlabelled, where the rule of the while loop writes "False". *)
Theorem for_loop_edges_unlabelled :
  label_of (nodes (visit_statements for_loop started)) 1 = Some "for i in xs"
  ∧ succs_of (nodes (visit_statements for_loop started)) 1 = [(2, "")]
  ∧ loop_edges_ok 1 (succs_of (nodes (visit_statements for_loop started)) 1) = false
  ∧ succs_of (nodes (visit_statements
                       [While "for i in xs" [Assign ["y"] "i"] []] started)) 1
    = [(2, "False")]
  ∧ succs_of (create_flowchart_cfg for_loop) 1 = [(2, ""); (3, "")].
Proof. repeat split; vm_compute; reflexivity. Qed.

(** C3 (the code falls short): for [while x > 0: x = x - 1] the graph
    has the expected nodes, edges and complexity 2, but the decision's
    edge into the body is labelled "False" and its edge to END carries
    no label. *)
Theorem scenario_C_graph :
  view (create_flowchart_cfg scenario_C)
  = [(0, "START", "start", [(1, "")]);
     (1, "x > 0", "decision", [(2, "False"); (3, "")]);
     (2, "x = x - 1", "process", [(1, "")]);
     (3, "END", "end", [])]
  ∧ calculate_cyclomatic_complexity (create_flowchart_cfg scenario_C) = 2%Z.
Proof. split; vm_compute; reflexivity. Qed.

(** ** Exporter *)

Lemma node_stmt_same kv1 kv2 :
  kv1.1 = kv2.1 → label kv1.2 = label kv2.2 → node_type kv1.2 = node_type kv2.2 →
  node_stmt kv1 = node_stmt kv2.
Proof.
  destruct kv1 as [k1 n1], kv2 as [k2 n2]; simpl. intros -> Hl Ht.
  unfold node_stmt, get_shape, get_color. by rewrite Hl, Ht.
Qed.

Lemma edge_stmts_same kv1 kv2 :
  kv1.1 = kv2.1 → successors kv1.2 = successors kv2.2 →
  edge_stmts kv1 = edge_stmts kv2.
Proof.
  destruct kv1 as [k1 n1], kv2 as [k2 n2]; simpl. intros -> Hs.
  unfold edge_stmts. by rewrite Hs.
Qed.

Lemma node_stmts_same g1 g2 :
  same_content g1 g2 → map node_stmt g1 = map node_stmt g2.
Proof.
  induction 1 as [|kv1 kv2 g1 g2 (Hk & Hl & Ht & Hs) _ IH]; [done|].
  simpl. by rewrite (node_stmt_same kv1 kv2), IH.
Qed.

Lemma all_edge_stmts_same g1 g2 :
  same_content g1 g2 → concat (map edge_stmts g1) = concat (map edge_stmts g2).
Proof.
  induction 1 as [|kv1 kv2 g1 g2 (Hk & Hl & Ht & Hs) _ IH]; [done|].
  simpl. by rewrite (edge_stmts_same kv1 kv2), IH.
Qed.

Lemma flowchart_digraph_same g1 g2 :
  same_content g1 g2 → flowchart_digraph g1 = flowchart_digraph g2.
Proof.
  intros H. unfold flowchart_digraph.
  by rewrite (node_stmts_same g1 g2), (all_edge_stmts_same g1 g2).
Qed.

(** C9: the exporter is deterministic. Two graphs with the same ids,
    labels, kinds and edges, in the same order, are exported to the same
    description, whatever the renderer. *)
Theorem visualize_deterministic (source : Digraph → string) (g1 g2 : Graph) :
  same_content g1 g2 →
  visualize_flowchart_cfg source g1 = visualize_flowchart_cfg source g2.
Proof.
  intros H. pose proof (flowchart_digraph_same g1 g2 H) as Hd.
  destruct H as [|kv1 kv2 g1 g2 _ _]; [done|].
  unfold visualize_flowchart_cfg. by rewrite Hd.
Qed.

Lemma visualize_deterministic_witness :
  same_content lone_node lone_node'
  ∧ visualize_flowchart_cfg sample_source lone_node
    = visualize_flowchart_cfg sample_source lone_node'.
Proof.
  assert (same_content lone_node lone_node') as H.
  { constructor; [repeat split | constructor]. }
  split; [exact H|].
  apply (visualize_deterministic sample_source lone_node lone_node' H).
Defined.

Example visualize_sample :
  visualize_flowchart_cfg sample_source (create_flowchart_cfg scenario_A)
  = "attr;attr;attr;0:START;1:x = 1;2:END;0->1;1->2".
Proof. vm_compute. reflexivity. Qed.

(** ** Expression statements *)

Lemma expr_node_type_cascade call_text :
  expr_node_type call_text
  = if PyStr.contains "print" (PyStr.lower call_text) then "output"
    else if PyStr.contains "input" (PyStr.lower call_text) then "input"
    else "call".
Proof.
  unfold expr_node_type.
  by destruct (PyStr.contains "print" _), (PyStr.contains "input" _).
Qed.

(** A call to [print] itself is an Output node. *)
Lemma print_call_is_output arguments :
  expr_node_type (unparse_call (mkCall "print" arguments)) = "output".
Proof. reflexivity. Qed.

(** C7 (as worded, refuted): [foo('print')] has the callee [foo], which
    is neither [print] nor [input], and still becomes an Output node. *)
Lemma foo_call_is_output :
  unparse_call foo_call = "foo('print')"
  ∧ type_of (nodes (visit (Expr (CallValue foo_call)) started)) 1 = Some "output"
  ∧ type_of (nodes (visit (Expr (CallValue foo_call)) started)) 1
    ≠ Some (callee_node_type (func foo_call)).
Proof. repeat split; vm_compute; congruence. Qed.

(** C7 (amended): an expression statement that is a call creates exactly
    one node, labelled with the rendered call, and connects every open
    exit to it. The kind is read off the lower-cased rendered call text:
    Output if it contains "print", else Input if it contains "input",
    else Call. *)
Theorem expr_call_node (c : call) (self : Builder) :
  wf self →
  Dict.keys (nodes (visit (Expr (CallValue c)) self))
  = Dict.keys (nodes self) ++ [current_node_id self]
  ∧ current_node_id (visit (Expr (CallValue c)) self) = S (current_node_id self)
  ∧ label_of (nodes (visit (Expr (CallValue c)) self)) (current_node_id self)
    = Some (unparse_call c)
  ∧ type_of (nodes (visit (Expr (CallValue c)) self)) (current_node_id self)
    = Some (if PyStr.contains "print" (PyStr.lower (unparse_call c)) then "output"
            else if PyStr.contains "input" (PyStr.lower (unparse_call c)) then "input"
            else "call")
  ∧ current_exits (visit (Expr (CallValue c)) self) = {[current_node_id self]}
  ∧ ∀ u, succs_of (nodes (visit (Expr (CallValue c)) self)) u
         = succs_of (nodes self) u
           ++ (if bool_decide (u ∈ current_exits self)
               then [(current_node_id self, "")] else []).
Proof.
  intros Hwf. pose proof Hwf as [[Hd _] _].
  change (visit (Expr (CallValue c)) self)
    with (connect_exits_to_node (current_node_id self)
            (create_node (unparse_call c) (expr_node_type (unparse_call c))
               None self).2).
  split; [by apply keys_create_connect|].
  split; [by rewrite connect_id|].
  split; [by apply label_create_connect|].
  split; [rewrite <- expr_node_type_cascade; by apply type_create_connect|].
  split; [done|].
  intros u. by apply succs_create_connect.
Qed.

Lemma expr_call_node_witness :
  wf started
  ∧ Dict.keys (nodes (visit (Expr (CallValue foo_call)) started)) = [0; 1]
  ∧ current_node_id (visit (Expr (CallValue foo_call)) started) = 2
  ∧ label_of (nodes (visit (Expr (CallValue foo_call)) started)) 1
    = Some "foo('print')"
  ∧ type_of (nodes (visit (Expr (CallValue foo_call)) started)) 1 = Some "output"
  ∧ current_exits (visit (Expr (CallValue foo_call)) started) = {[1]}
  ∧ ∀ u, succs_of (nodes (visit (Expr (CallValue foo_call)) started)) u
         = succs_of (nodes started) u
           ++ (if bool_decide (u ∈ current_exits started) then [(1, "")] else []).
Proof.
  assert (wf started) as H by (repeat split; reflexivity).
  split; [exact H|].
  exact (expr_call_node foo_call started H).
Defined.

(** ** Start nodes *)

Lemma start_count_kinds g : start_count g = count_kind "start" (kinds g).
Proof.
  unfold start_count, count_kind, kinds.
  induction g as [|[k n] g IH]; [done|].
  rewrite map_cons, !filter_cons. cbn [snd].
  destruct (decide (is_start n = true)) as [H1|H1],
           (decide (node_type n = "start")) as [H2|H2]; simpl.
  - by rewrite IH.
  - by apply String.eqb_eq in H1.
  - by apply String.eqb_eq in H2.
  - done.
Qed.

Lemma count_kind_app ty l1 l2 :
  count_kind ty (l1 ++ l2) = count_kind ty l1 + count_kind ty l2.
Proof. unfold count_kind. by rewrite filter_app, length_app. Qed.

Lemma count_kind_flat_map ty (f : ast → list string) (g : ast → nat) l :
  Forall (λ s, count_kind ty (f s) = g s) l →
  count_kind ty (flat_map f l) = sum_list_with g l.
Proof.
  induction 1 as [|s l Hs _ IH]; [done|].
  simpl. by rewrite count_kind_app, Hs, IH.
Qed.

Lemma expr_node_type_cases call_text :
  expr_node_type call_text = "output" ∨ expr_node_type call_text = "input"
  ∨ expr_node_type call_text = "call".
Proof.
  rewrite expr_node_type_cascade.
  destruct (PyStr.contains "print" (PyStr.lower call_text)),
           (PyStr.contains "input" (PyStr.lower call_text)); auto.
Qed.

(** Start nodes are created by function definitions only. *)
Lemma count_start_kinds_of s : count_kind "start" (kinds_of s) = function_defs s.
Proof.
  induction s as [name params body IHb | test body orelse IHb IHo
                 | test body orelse IHb | target iter body orelse IHb
                 | | | | value | c | type_name text children IHc] using ast_ind;
    simpl kinds_of; simpl function_defs.
  - change ("start" :: ?l) with (["start"] ++ l). rewrite !count_kind_app.
    rewrite (count_kind_flat_map _ _ function_defs) by done.
    by destruct (existsb is_Return body).
  - change ("decision" :: ?l) with (["decision"] ++ l). rewrite !count_kind_app.
    by rewrite !(count_kind_flat_map _ _ function_defs).
  - change ("decision" :: ?l) with (["decision"] ++ l). rewrite !count_kind_app.
    by rewrite !(count_kind_flat_map _ _ function_defs).
  - change ("decision" :: ?l) with (["decision"] ++ l). rewrite !count_kind_app.
    by rewrite !(count_kind_flat_map _ _ function_defs).
  - done.
  - done.
  - done.
  - destruct value as [c|t]; [|done].
    by destruct (expr_node_type_cases (unparse_call c)) as [->|[->| ->]].
  - by destruct (PyStr.contains "input" (PyStr.lower (unparse_call c))).
  - rewrite count_kind_app, (count_kind_flat_map _ _ function_defs) by done.
    unfold generic_kinds. destruct text as [t|]; [|done].
    by destruct (0 <? _).
Qed.

Lemma untouched_create_connect k lbl ty c self :
  untouched k self →
  untouched k (connect_exits_to_node (current_node_id self)
                 (create_node lbl ty c self).2).
Proof.
  apply create_connect_preserves.
  - intros; by apply untouched_create.
  - intros self0 self' a l [H0 _] H. apply untouched_add_edge; [lia|done].
  - done.
Qed.

Lemma head_of_dense (g : Graph) ty ks n :
  Dict.keys g = seq 0 n → kinds g = ty :: ks → type_of g 0 = Some ty.
Proof.
  destruct g as [|[k0 n0] g]; [done|]. destruct n as [|n]; [done|].
  unfold Dict.keys, kinds, type_of. simpl. intros Hk Ht.
  injection Hk as Hk0 _. injection Ht as Ht0 _. subst k0 ty. done.
Qed.

Lemma create_flowchart_cfg_dense body :
  Dict.keys (create_flowchart_cfg body)
  = seq 0 (node_count (create_flowchart_cfg body)).
Proof.
  unfold create_flowchart_cfg. rewrite visit_Module_eq.
  pose proof (dense_visit_statements body started (proj1 sound_started)) as Hd.
  pose proof (dense_connect (current_node_id (visit_statements body started)) _
                (dense_create "END" "end" None _ Hd)) as Hd'.
  red in Hd'. rewrite Hd'. f_equal.
  unfold node_count. rewrite <- (length_map fst).
  fold (Dict.keys (nodes (connect_exits_to_node
          (current_node_id (visit_statements body started))
          (create_node "END" "end" None (visit_statements body started)).2))).
  by rewrite Hd', length_seq.
Qed.

(** C4 (as worded, refuted): the synthetic entry of a function is a
    Start-kind node, and it is the target of an edge from the node that
    precedes the definition. *)
Lemma function_start_has_incoming :
  type_of (create_flowchart_cfg one_function) 1 = Some "start"
  ∧ has_incoming (create_flowchart_cfg one_function) 1 = true
  ∧ starts_have_no_incoming (create_flowchart_cfg one_function) = false.
Proof. repeat split; vm_compute; reflexivity. Qed.

(** C4 (amended): a completed graph has one Start-kind node for the
    program plus one per function definition the traversal reaches; the
    program's Start node is node 0 and no edge leads to it. *)
Theorem start_nodes_of_build (body : list ast) :
  start_count (create_flowchart_cfg body) = 1 + sum_list_with function_defs body
  ∧ type_of (create_flowchart_cfg body) 0 = Some "start"
  ∧ has_incoming (create_flowchart_cfg body) 0 = false.
Proof.
  split; [|split].
  - rewrite start_count_kinds, create_flowchart_cfg_kinds.
    change ("start" :: ?l) with (["start"] ++ l). rewrite !count_kind_app.
    rewrite (count_kind_flat_map _ _ function_defs).
    + change (count_kind "start" ["start"]) with 1.
      change (count_kind "start" ["end"]) with 0. lia.
    + apply Forall_forall. intros s _. apply count_start_kinds_of.
  - eapply head_of_dense; [apply create_flowchart_cfg_dense|].
    apply create_flowchart_cfg_kinds.
  - unfold create_flowchart_cfg. rewrite visit_Module_eq.
    apply untouched_create_connect, untouched_visit_statements.
    split; [simpl; lia | reflexivity].
Qed.

Example start_nodes_one_function :
  start_count (create_flowchart_cfg one_function) = 2.
Proof. reflexivity. Qed.

(** ** After a Return *)

Lemma untouched_fresh lbl ty c self :
  sound self → untouched (current_node_id self) (create_node lbl ty c self).2.
Proof.
  intros [Hd Ht]. apply untouched_alt. split; [rewrite create_next; lia|].
  apply all_targets_create. apply all_targets_weaken with (2 := Ht).
  intros t Hlt. apply Nat.ltb_lt in Hlt. apply negb_true_iff, Nat.eqb_neq. lia.
Qed.

Lemma connect_nothing t self :
  current_exits self = ∅ → nodes (connect_exits_to_node t self) = nodes self.
Proof. intros H. by rewrite connect_nodes, H, elements_empty. Qed.

Lemma untouched_first lbl ty c self :
  sound self → current_exits self = ∅ →
  untouched (current_node_id self)
    (connect_exits_to_node (current_node_id self) (create_node lbl ty c self).2).
Proof.
  intros Hs He. unfold untouched.
  rewrite connect_id, connect_nothing by (by rewrite create_exits).
  by apply untouched_fresh.
Qed.

Lemma opens_node_kinds nxt : opens_node nxt = true → kinds_of nxt ≠ [].
Proof.
  destruct nxt as [| | | | | | |[]| |ty text ch]; try done.
  simpl. by destruct (generic_kinds text).
Qed.

(** The statement after a terminated path: its first node is created
    with nothing to connect, and nothing reaches it afterwards, unless
    it is the decision of a loop. *)
Lemma untouched_next_statement nxt self :
  sound self → current_exits self = ∅ →
  is_loop nxt = false → opens_node nxt = true →
  untouched (current_node_id self) (visit nxt self).
Proof.
  intros Hs He Hl Ho.
  destruct nxt as [name params body | test body orelse | | | value
                  | | |value| c | ty text children]; try discriminate.
  - rewrite visit_FunctionDef_eq; cbv zeta.
    assert (untouched (current_node_id self)
              (visit_statements body
                 (connect_exits_to_node (current_node_id self)
                    (create_node
                       ("def " +:+ name +:+ "(" +:+ PyStr.join ", " params +:+ ")")
                       "start" None (set_function_name name self)).2))) as H2.
    { apply untouched_visit_statements.
      by apply (untouched_first _ _ _ (set_function_name name self)). }
    destruct (existsb is_Return body); [done|].
    by apply untouched_create_connect.
  - rewrite visit_If_eq; cbv zeta.
    apply (untouched_relabel_if _ _ (set_exits _ _)).
    apply untouched_visit_statements.
    apply (untouched_visit_statements _ body (set_exits _ _)).
    by apply untouched_first.
  - simpl visit. unfold visit_Return. by apply (untouched_first _ "output").
  - by apply (untouched_first _ "process").
  - by apply (untouched_first _ "process").
  - destruct value; by apply untouched_first.
  - by apply untouched_fresh.
  - rewrite visit_Other_eq. apply untouched_visit_statements.
    unfold generic_node. simpl in Ho. unfold generic_kinds in Ho.
    destruct text as [t|]; [|by apply untouched_first].
    destruct (0 <? _); [by apply untouched_first | done].
Qed.

Lemma untouched_low_free k self : untouched k self → low_free k self.
Proof.
  rewrite untouched_alt. intros [Hk Ht]. split; [done|].
  apply all_edges_weaken with (2 := Ht). intros u t ->. apply orb_true_r.
Qed.

Lemma low_free_add_edge k a t l self :
  k ≠ t ∨ k ≤ a → low_free k self → low_free k (add_edge a t l self).
Proof.
  intros Hat [Hk He]. split; [by rewrite add_edge_id|].
  apply all_edges_add_edge; [|done]. intros _.
  apply orb_true_iff. destruct Hat as [Hne|Hle].
  - right. by apply negb_true_iff, Nat.eqb_neq.
  - left. by apply Nat.leb_le.
Qed.

Lemma low_free_add_edges_from k exits t self :
  Forall (λ e, k ≤ e) exits →
  low_free k self → low_free k (add_edges_from exits t self).
Proof.
  intros Hall. revert self.
  induction Hall as [|e exits He _ IH]; intros self H; [done|].
  rewrite add_edges_from_cons. apply IH, low_free_add_edge; auto.
Qed.

Lemma low_free_visit k s self : low_free k self → low_free k (visit s self).
Proof.
  apply visit_preserves; clear.
  - intros self lbl ty c [Hk He]. split; [rewrite create_next; lia|].
    by apply all_edges_create.
  - intros self0 self a l [H0 _] H. apply low_free_add_edge; [left; lia | done].
  - done.
  - done.
  - intros self d [Hk He]. split; [done|]. by apply all_edges_relabel_if.
  - intros self d [Hk He]. split; [done|]. by apply all_edges_relabel_while.
Qed.

Lemma low_free_visit_statements k l self :
  low_free k self → low_free k (visit_statements l self).
Proof.
  apply visit_statements_preserves, Forall_forall. intros s _ ?.
  apply low_free_visit.
Qed.

Lemma exits_within_elements lo self :
  exits_within lo self → Forall (λ e, lo ≤ e) (elements (current_exits self)).
Proof.
  intros [_ H]. apply Forall_forall. intros e He.
  apply elem_of_elements in He. specialize (H e He). lia.
Qed.

(** The back-edges of a loop opened on a terminated path come from its
    own body. *)
Lemma low_free_loop_close d body self1 :
  untouched d self1 → exits_within d self1 →
  low_free d
    (add_edges_from (elements (current_exits (visit_statements body self1)))
       d (visit_statements body self1)).
Proof.
  intros Hu Hw. apply low_free_add_edges_from.
  - by apply exits_within_elements, exits_within_visit_statements.
  - by apply untouched_low_free, untouched_visit_statements.
Qed.

Lemma low_free_next_statement nxt self :
  sound self → current_exits self = ∅ → opens_node nxt = true →
  low_free (current_node_id self) (visit nxt self).
Proof.
  intros Hs He Ho. destruct (is_loop nxt) eqn:Hl;
    [|by apply untouched_low_free, untouched_next_statement].
  destruct nxt as [| |test body orelse|target iter body orelse| | | | | |];
    try discriminate.
  - rewrite visit_While_eq; cbv zeta.
    pose proof (untouched_first test "decision" (Some test) self Hs He) as Hu.
    pose proof (exits_within_connect (current_node_id self) test "decision"
                  (Some test) self (Nat.le_refl _)) as Hw.
    pose proof (low_free_loop_close (current_node_id self) body
                  (set_exits {[current_node_id self]}
                     (connect_exits_to_node (current_node_id self)
                        (create_node test "decision" (Some test) self).2))
                  Hu Hw) as [Hk Hedges].
    split; [exact Hk|]. by apply all_edges_relabel_while.
  - rewrite visit_For_eq; cbv zeta.
    pose proof (untouched_first ("for " +:+ target +:+ " in " +:+ iter) "decision"
                  (Some ("for " +:+ target +:+ " in " +:+ iter)) self Hs He) as Hu.
    pose proof (exits_within_connect (current_node_id self)
                  ("for " +:+ target +:+ " in " +:+ iter) "decision"
                  (Some ("for " +:+ target +:+ " in " +:+ iter)) self
                  (Nat.le_refl _)) as Hw.
    exact (low_free_loop_close (current_node_id self) body
             (set_exits {[current_node_id self]}
                (connect_exits_to_node (current_node_id self)
                   (create_node ("for " +:+ target +:+ " in " +:+ iter)
                      "decision"
                      (Some ("for " +:+ target +:+ " in " +:+ iter))
                      self).2))
             Hu Hw).
Qed.

Lemma next_is_count self : dense self → current_node_id self = length (nodes self).
Proof.
  intros Hd. rewrite <- (length_map fst (nodes self)).
  fold (Dict.keys (nodes self)). red in Hd. by rewrite Hd, length_seq.
Qed.

Lemma visit_next s self :
  dense self →
  current_node_id (visit s self) = current_node_id self + length (kinds_of s).
Proof.
  intros Hd. destruct (grows_visit s self Hd) as [Hd' Hk].
  rewrite (next_is_count _ Hd'), (next_is_count _ Hd).
  rewrite <- !(length_map (λ kv : nat * CFGNode, node_type kv.2)).
  fold (kinds (nodes (visit s self))). fold (kinds (nodes self)).
  by rewrite Hk, length_app.
Qed.

Lemma visit_Return_eq value self :
  visit (Return value) self
  = set_exits ∅
      (connect_exits_to_node (current_node_id self)
         (create_node (match value with
                       | Some v => "return " +:+ v
                       | None => "return"
                       end) "output" None self).2).
Proof. done. Qed.

(** C8 (as worded, refuted): when the statement after a [return] is a
    loop, the decision node created for it does receive an incoming
    edge, the back-edge from the loop body. *)
Lemma loop_after_return_has_incoming :
  type_of (create_flowchart_cfg loop_after_return) 1 = Some "output"
  ∧ type_of (create_flowchart_cfg loop_after_return) 2 = Some "decision"
  ∧ succs_of (create_flowchart_cfg loop_after_return) 3 = [(2, "")]
  ∧ has_incoming (create_flowchart_cfg loop_after_return) 2 = true.
Proof. repeat split; vm_compute; reflexivity. Qed.

(** C8 (amended): [visit_Return] creates one Output node labelled
    "return <expr>" or "return", draws an edge to it from every open
    exit and leaves no exit open. The node created for the next
    statement of the sequence then receives no edge from the Return node
    or from any node created before it, now or later; it has no incoming
    edge at all unless that statement is a loop, whose decision receives
    the back-edges from its own body. *)
Theorem return_cuts_flow (value : option string) (nxt : ast) (rest : list ast)
    (self : Builder) :
  wf self → opens_node nxt = true →
  Dict.keys (nodes (visit (Return value) self))
  = Dict.keys (nodes self) ++ [current_node_id self]
  ∧ type_of (nodes (visit (Return value) self)) (current_node_id self)
    = Some "output"
  ∧ label_of (nodes (visit (Return value) self)) (current_node_id self)
    = Some (match value with Some v => "return " +:+ v | None => "return" end)
  ∧ (∀ u, succs_of (nodes (visit (Return value) self)) u
          = succs_of (nodes self) u
            ++ (if bool_decide (u ∈ current_exits self)
                then [(current_node_id self, "")] else []))
  ∧ current_exits (visit (Return value) self) = ∅
  ∧ Dict.mem (S (current_node_id self))
      (nodes (visit_statements (Return value :: nxt :: rest) self)) = true
  ∧ low_free (S (current_node_id self))
      (visit_statements (Return value :: nxt :: rest) self)
  ∧ (is_loop nxt = false →
     has_incoming (nodes (visit_statements (Return value :: nxt :: rest) self))
       (S (current_node_id self)) = false).
Proof.
  intros Hwf Ho. pose proof Hwf as [[Hd Ht] He].
  pose proof (wf_visit (Return value) self Hwf) as [Hs1 _].
  assert (current_node_id (visit (Return value) self) = S (current_node_id self))
    as Hn1 by (rewrite visit_Return_eq; simpl; by rewrite add_edges_from_id).
  assert (current_exits (visit (Return value) self) = ∅) as He1 by done.
  rewrite !visit_statements_cons.
  split; [rewrite visit_Return_eq; by apply keys_create_connect|].
  split; [rewrite visit_Return_eq; by apply type_create_connect|].
  split; [rewrite visit_Return_eq; by apply label_create_connect|].
  split; [intros u; rewrite visit_Return_eq; by apply succs_create_connect|].
  split; [done|].
  pose proof (low_free_next_statement nxt _ Hs1 He1 Ho) as Hlow.
  rewrite Hn1 in Hlow.
  apply (low_free_visit_statements _ rest) in Hlow.
  split; [|split; [exact Hlow|]].
  - destruct Hlow as [Hk _].
    pose proof (dense_visit_statements rest _
                  (proj1 (sound_visit nxt _ Hs1))) as Hd'.
    rewrite (dense_mem _ _ Hd'). by apply Nat.ltb_lt.
  - intros Hl.
    pose proof (untouched_next_statement nxt _ Hs1 He1 Hl Ho) as Hu.
    rewrite Hn1 in Hu.
    by apply (untouched_visit_statements _ rest) in Hu as [_ ?].
Qed.

Lemma return_cuts_flow_witness :
  wf started ∧ opens_node (Assign ["x"] "1") = true
  ∧ Dict.keys (nodes (visit (Return None) started)) = [0; 1]
  ∧ type_of (nodes (visit (Return None) started)) 1 = Some "output"
  ∧ label_of (nodes (visit (Return None) started)) 1 = Some "return"
  ∧ (∀ u, succs_of (nodes (visit (Return None) started)) u
          = succs_of (nodes started) u
            ++ (if bool_decide (u ∈ current_exits started) then [(1, "")] else []))
  ∧ current_exits (visit (Return None) started) = ∅
  ∧ Dict.mem 2 (nodes (visit_statements
                         [Return None; Assign ["x"] "1"] started)) = true
  ∧ low_free 2 (visit_statements [Return None; Assign ["x"] "1"] started)
  ∧ (is_loop (Assign ["x"] "1") = false →
     has_incoming
       (nodes (visit_statements [Return None; Assign ["x"] "1"] started)) 2
     = false).
Proof.
  assert (wf started) as H by (repeat split; reflexivity).
  split; [exact H|]. split; [reflexivity|].
  exact (return_cuts_flow None (Assign ["x"] "1") [] started H eq_refl).
Defined.

(** ** Dead code after a Return *)

Lemma simple_visit s self :
  is_simple s = true →
  ∃ lbl ty, visit s self
            = connect_exits_to_node (current_node_id self)
                (create_node lbl ty None self).2.
Proof.
  destruct s as [| | | | | targets value | target op value | [c|t] | |];
    try discriminate; intros _; simpl; eauto.
Qed.



Lemma wf_create_connect lbl ty c self :
  wf self →
  wf (connect_exits_to_node (current_node_id self) (create_node lbl ty c self).2).
Proof.
  intros [Hs _]. split; [by apply sound_connect|].
  apply exits_exist_within, exits_within_connect. lia.
Qed.

Lemma edge_count_connect_one a lbl ty c self :
  wf self → current_exits self = {[a]} →
  edge_count (nodes (connect_exits_to_node (current_node_id self)
                       (create_node lbl ty c self).2))
  = S (edge_count (nodes self)).
Proof.
  intros [[Hd _] He] Ha.
  rewrite connect_nodes, create_exits, Ha, elements_singleton.
  change (add_edges_from [a] ?t ?b) with (add_edge a t "" b).
  rewrite edge_count_add_edge by by apply dense_create.
  rewrite !(dense_mem _ _ (dense_create lbl ty c self Hd)), create_next.
  rewrite edge_count_create by done.
  rewrite exits_exist_spec in He. specialize (He a). rewrite Ha in He.
  specialize (He (proj2 (elem_of_singleton a a) eq_refl)).
  assert ((a <? S (current_node_id self)) = true) as ->
    by (apply Nat.ltb_lt; lia).
  assert ((current_node_id self <? S (current_node_id self)) = true) as ->
    by (apply Nat.ltb_lt; lia).
  simpl. lia.
Qed.

Ltac nat_tests :=
  repeat match goal with
         | |- context [?x <? ?y] => destruct (Nat.ltb_spec x y)
         | |- context [?x <=? ?y] => destruct (Nat.leb_spec x y)
         | |- context [Nat.eqb ?x ?y] => destruct (Nat.eqb_spec x y)
         end;
  cbn [andb orb negb app]; try done; try (exfalso; lia).

Lemma chain_edge_step a n len u :
  a < n →
  (if bool_decide (u ∈ ({[a]} : gset nat)) then [(n, "")] else [])
    ++ chain_edge n (S n) len u
  = chain_edge a n (S len) u.
Proof.
  intros Han. unfold chain_edge.
  destruct (decide (u = a)) as [->|Hne].
  - rewrite bool_decide_eq_true_2 by by apply elem_of_singleton.
    nat_tests.
  - rewrite bool_decide_eq_false_2 by by rewrite elem_of_singleton.
    nat_tests. by subst.
Qed.

(** A run of straight-line statements entered from node [a]: one node
    each, linked in a chain. *)
Lemma chain_of_simple ss :
  forallb is_simple ss = true →
  ∀ self a, wf self → current_exits self = {[a]} →
    wf (visit_statements ss self)
    ∧ current_node_id (visit_statements ss self)
      = current_node_id self + length ss
    ∧ current_exits (visit_statements ss self)
      = {[ match ss with [] => a | _ => current_node_id self + length ss - 1 end ]}
    ∧ edge_count (nodes (visit_statements ss self))
      = edge_count (nodes self) + length ss
    ∧ ∀ u, succs_of (nodes (visit_statements ss self)) u
           = succs_of (nodes self) u
             ++ chain_edge a (current_node_id self) (length ss) u.
Proof.
  induction ss as [|s ss IH]; intros Hss self a Hwf Ha.
  - rewrite visit_statements_nil. simpl length.
    split; [done|]. split; [lia|]. split; [done|]. split; [lia|].
    intros u. unfold chain_edge. nat_tests; by rewrite app_nil_r.
  - simpl in Hss. apply andb_true_iff in Hss as [Hs Hss].
    rewrite visit_statements_cons.
    destruct (simple_visit s self Hs) as (lbl & ty & ->).
    pose proof (wf_create_connect lbl ty None self Hwf) as Hwf1.
    pose proof (edge_count_connect_one a lbl ty None self Hwf Ha) as HE1.
    pose proof (succs_create_connect lbl ty None self) as Hs1.
    assert (a < current_node_id self) as Han.
    { destruct Hwf as [_ He]. rewrite exits_exist_spec in He. apply He.
      rewrite Ha. by apply elem_of_singleton. }
    specialize (IH Hss _ (current_node_id self) Hwf1 (connect_exits _ _)).
    rewrite connect_id, create_next in IH.
    destruct IH as (IH1 & IH2 & IH3 & IH4 & IH5).
    split; [done|]. split; [rewrite IH2; simpl; lia|].
    split.
    { rewrite IH3. f_equal. destruct ss; simpl; lia. }
    split; [rewrite IH4, HE1; simpl; lia|].
    intros u. rewrite IH5, Hs1 by done. rewrite Ha, <- app_assoc.
    f_equal. by apply chain_edge_step.
Qed.

Lemma succs_absent self u :
  dense self → current_node_id self ≤ u → succs_of (nodes self) u = [].
Proof.
  intros Hd Hu. unfold succs_of.
  assert (Dict.get u (nodes self) = None) as ->; [|done].
  apply get_None_keys. red in Hd. rewrite Hd, elem_of_seq. lia.
Qed.







Example dead_code_nodes :
  view (create_flowchart_cfg dead_code)
  = [(0, "START", "start", [(1, "")]);
     (1, "return", "output", []);
     (2, "x = 1", "process", [(3, "")]);
     (3, "y = 2", "process", [(4, "")]);
     (4, "END", "end", [])].
Proof. vm_compute. reflexivity. Qed.

(** * Further properties of the code *)

(** ** Complexity and rating *)

(** X1: for every program the McCabe number of the completed graph is
    at least 1 and at most the number of Decision nodes plus one. *)
Theorem cyclomatic_le_decisions (body : list ast) :
  (1 ≤ calculate_cyclomatic_complexity (create_flowchart_cfg body)
   ≤ calculate_complexity_by_decisions (create_flowchart_cfg body))%Z.
Proof.
  pose proof (edge_count_completed body) as HE.
  assert (create_flowchart_cfg body ≠ []) as Hne.
  { intros Heq. pose proof (create_flowchart_cfg_kinds body) as Hk.
    by rewrite Heq in Hk. }
  rewrite cyclomatic_of_nonempty by done.
  unfold calculate_complexity_by_decisions. lia.
Qed.

Lemma count_decision_kinds_of s : count_kind "decision" (kinds_of s) = decisions s.
Proof.
  induction s as [name params body IHb | test body orelse IHb IHo
                 | test body orelse IHb | target iter body orelse IHb
                 | | | | value | c | type_name text children IHc] using ast_ind;
    simpl kinds_of; simpl decisions.
  - change ("start" :: ?l) with (["start"] ++ l). rewrite !count_kind_app.
    rewrite (count_kind_flat_map _ _ decisions) by done.
    change (count_kind "decision" ["start"]) with 0.
    destruct (existsb is_Return body).
    + change (count_kind "decision" []) with 0. lia.
    + change (count_kind "decision" ["output"]) with 0. lia.
  - change ("decision" :: ?l) with (["decision"] ++ l). rewrite !count_kind_app.
    rewrite !(count_kind_flat_map _ _ decisions) by done.
    change (count_kind "decision" ["decision"]) with 1. lia.
  - change ("decision" :: ?l) with (["decision"] ++ l). rewrite !count_kind_app.
    rewrite !(count_kind_flat_map _ _ decisions) by done.
    change (count_kind "decision" ["decision"]) with 1. lia.
  - change ("decision" :: ?l) with (["decision"] ++ l). rewrite !count_kind_app.
    rewrite !(count_kind_flat_map _ _ decisions) by done.
    change (count_kind "decision" ["decision"]) with 1. lia.
  - done.
  - done.
  - done.
  - destruct value as [c|t]; [|done].
    by destruct (expr_node_type_cases (unparse_call c)) as [->|[->| ->]].
  - by destruct (PyStr.contains "input" (PyStr.lower (unparse_call c))).
  - rewrite count_kind_app, (count_kind_flat_map _ _ decisions) by done.
    unfold generic_kinds. destruct text as [t|]; [|done].
    by destruct (0 <? _).
Qed.

Lemma decision_count_of_build body :
  decision_count (create_flowchart_cfg body) = sum_list_with decisions body.
Proof.
  rewrite decision_count_kinds, create_flowchart_cfg_kinds.
  change ("start" :: ?l) with (["start"] ++ l). rewrite !count_kind_app.
  rewrite (count_kind_flat_map _ _ decisions).
  - change (count_kind "decision" ["start"]) with 0.
    change (count_kind "decision" ["end"]) with 0. lia.
  - apply Forall_forall. intros s _. apply count_decision_kinds_of.
Qed.

(** X2: the decision complexity of a completed graph is one more than
    the number of [if], [while] and [for] statements the traversal
    reaches. *)
Theorem decision_complexity_counts_constructs (body : list ast) :
  calculate_complexity_by_decisions (create_flowchart_cfg body)
  = (Z.of_nat (sum_list_with decisions body) + 1)%Z.
Proof.
  unfold calculate_complexity_by_decisions. by rewrite decision_count_of_build.
Qed.

(** X3: a program in which the traversal reaches at most nine [if],
    [while] and [for] statements is rated Low Risk. *)
Theorem few_decisions_low_risk (body : list ast) :
  sum_list_with decisions body ≤ 9 →
  get_complexity_rating
    (calculate_cyclomatic_complexity (create_flowchart_cfg body))
  = ("Low Risk", "green").
Proof.
  intros H9. pose proof (edge_count_completed body) as HE.
  rewrite decision_count_of_build in HE.
  assert (create_flowchart_cfg body ≠ []) as Hne.
  { intros Heq. pose proof (create_flowchart_cfg_kinds body) as Hk.
    by rewrite Heq in Hk. }
  rewrite cyclomatic_of_nonempty by done.
  unfold get_complexity_rating.
  destruct (Z.leb_spec
              (Z.max (Z.of_nat (edge_count (create_flowchart_cfg body))
                      - Z.of_nat (node_count (create_flowchart_cfg body)) + 2) 1)
              10) as [_|Hgt]; [done|lia].
Qed.

Lemma few_decisions_low_risk_witness :
  sum_list_with decisions scenario_B ≤ 9
  ∧ get_complexity_rating
      (calculate_cyclomatic_complexity (create_flowchart_cfg scenario_B))
    = ("Low Risk", "green").
Proof.
  assert (sum_list_with decisions scenario_B ≤ 9) as H by (simpl; lia).
  split; [exact H|]. exact (few_decisions_low_risk scenario_B H).
Defined.

(** ** Shape of a completed graph *)

Lemma get_Some_elem {V} (d : list (nat * V)) k v :
  Dict.get k d = Some v → (k, v) ∈ d.
Proof.
  induction d as [|[k' v'] d IH]; simpl; [done|].
  destruct (Nat.eqb_spec k k') as [->|Hne].
  - intros [= ->]. apply list_elem_of_here.
  - intros H. apply list_elem_of_further, IH, H.
Qed.

Lemma all_edges_spec Q g u t l :
  all_edges Q g = true → (t, l) ∈ succs_of g u → Q u t = true.
Proof.
  unfold all_edges, succs_of. rewrite forallb_forall. intros H Hin.
  destruct (Dict.get u g) as [n|] eqn:Hg; [|by apply elem_of_nil in Hin].
  apply get_Some_elem, list_elem_of_In in Hg. specialize (H _ Hg). simpl in H.
  rewrite forallb_forall in H. apply H. unfold targets.
  apply list_elem_of_In. apply (list_elem_of_fmap_2 fst) in Hin. exact Hin.
Qed.

Lemma final_state_sound body :
  sound (connect_exits_to_node (current_node_id (visit_statements body started))
           (create_node "END" "end" None (visit_statements body started)).2).
Proof. apply sound_connect, sound_visit_statements, sound_started. Qed.

(** X4: in a completed graph every edge leads to a node of the graph. *)
Theorem edge_targets_exist (body : list ast) (u t : nat) (l : string) :
  (t, l) ∈ succs_of (create_flowchart_cfg body) u →
  Dict.mem t (create_flowchart_cfg body) = true.
Proof.
  unfold create_flowchart_cfg. rewrite visit_Module_eq. intros Hin.
  destruct (final_state_sound body) as [Hd Ht].
  rewrite (dense_mem _ _ Hd).
  exact (all_edges_spec _ _ u t l Ht Hin).
Qed.

Lemma edge_targets_exist_witness :
  (2, "True") ∈ succs_of (create_flowchart_cfg scenario_B) 1
  ∧ Dict.mem 2 (create_flowchart_cfg scenario_B) = true.
Proof.
  assert ((2, "True") ∈ succs_of (create_flowchart_cfg scenario_B) 1) as H
    by (vm_compute; apply list_elem_of_here).
  split; [exact H|]. exact (edge_targets_exist scenario_B 1 2 "True" H).
Defined.

Lemma ids_match_alter (f : CFGNode → CFGNode) k g :
  (∀ n, node_id (f n) = node_id n) → ids_match g → ids_match (Dict.alter f k g).
Proof.
  intros Hf. unfold ids_match, Dict.alter. rewrite !Forall_forall.
  intros H kv Hin. apply list_elem_of_fmap in Hin as ([k' n] & -> & Hin).
  specialize (H _ Hin). simpl in *.
  destruct (Nat.eqb k k'); simpl; [by rewrite Hf | done].
Qed.

Lemma ids_match_create lbl ty c self :
  ids_match (nodes self) → ids_match (nodes (create_node lbl ty c self).2).
Proof.
  intros H. simpl. unfold Dict.set. destruct (Dict.mem _ _).
  - unfold ids_match, Dict.alter in *. rewrite !Forall_forall in *.
    intros kv Hin. apply list_elem_of_fmap in Hin as ([k' n] & -> & Hin).
    specialize (H _ Hin). simpl in *.
    destruct (Nat.eqb_spec (current_node_id self) k') as [->|]; simpl; done.
  - apply Forall_app. split; [done|]. by apply Forall_singleton.
Qed.

Lemma ids_match_visit s self :
  ids_match (nodes self) → ids_match (nodes (visit s self)).
Proof.
  apply (visit_preserves (λ b, ids_match (nodes b))); clear.
  - intros. by apply ids_match_create.
  - intros self0 self a l _ H. unfold add_edge. destruct (_ && _); [|done].
    simpl. by do 2 (apply ids_match_alter; [done|]).
  - done.
  - done.
  - intros self d H. simpl. by apply ids_match_alter.
  - intros self d H. simpl. by apply ids_match_alter.
Qed.

(** X5: the ids of a completed graph are 0, 1, ..., N-1 in insertion
    order, and every node stores the id it is filed under. *)
Theorem ids_dense_and_consistent (body : list ast) :
  Dict.keys (create_flowchart_cfg body)
  = seq 0 (node_count (create_flowchart_cfg body))
  ∧ ids_match (create_flowchart_cfg body).
Proof.
  split; [apply create_flowchart_cfg_dense|].
  unfold create_flowchart_cfg. rewrite visit_Module_eq.
  apply (create_connect_preserves (λ b, ids_match (nodes b))).
  - intros. by apply ids_match_create.
  - intros self0 self a l _ H. unfold add_edge. destruct (_ && _); [|done].
    simpl. by do 2 (apply ids_match_alter; [done|]).
  - done.
  - apply visit_statements_preserves.
    + apply Forall_forall. intros s _ b. apply ids_match_visit.
    + unfold started, ids_match. simpl. by apply Forall_singleton.
Qed.

(** The kinds a statement can create. *)
Lemma kinds_of_builder s :
  Forall (λ k, k ∈ ["start"; "decision"; "output"; "process"; "input"; "call"])
         (kinds_of s).
Proof.
  assert (∀ l : list ast,
            Forall (λ s, Forall (λ k, k ∈ ["start"; "decision"; "output";
                                            "process"; "input"; "call"])
                           (kinds_of s)) l →
            Forall (λ k, k ∈ ["start"; "decision"; "output"; "process";
                               "input"; "call"]) (flat_map kinds_of l)) as Hflat.
  { induction 1 as [|x l Hx _ IH]; simpl; [done|]. by apply Forall_app. }
  induction s as [name params body IHb | test body orelse IHb IHo
                 | test body orelse IHb | target iter body orelse IHb
                 | | | | value | c | type_name text children IHc] using ast_ind;
    simpl kinds_of.
  - apply Forall_cons. split; [set_solver|]. apply Forall_app. split; [auto|].
    destruct (existsb is_Return body); [done|].
    apply Forall_singleton. set_solver.
  - apply Forall_cons. split; [set_solver|]. apply Forall_app. auto.
  - apply Forall_cons. split; [set_solver|]. auto.
  - apply Forall_cons. split; [set_solver|]. auto.
  - apply Forall_singleton. set_solver.
  - apply Forall_singleton. set_solver.
  - apply Forall_singleton. set_solver.
  - destruct value as [c|t]; apply Forall_singleton; [|set_solver].
    destruct (expr_node_type_cases (unparse_call c)) as [->|[->| ->]]; set_solver.
  - apply Forall_singleton.
    destruct (PyStr.contains "input" (PyStr.lower (unparse_call c))); set_solver.
  - apply Forall_app. split; [|auto].
    unfold generic_kinds. destruct text as [t|].
    + destruct (0 <? _); [apply Forall_singleton; set_solver | done].
    + apply Forall_singleton. set_solver.
Qed.

Lemma kinds_of_build_known body :
  Forall (λ k, known_kind k = true) (kinds (create_flowchart_cfg body)).
Proof.
  rewrite create_flowchart_cfg_kinds.
  apply Forall_cons. split; [done|]. apply Forall_app. split; [|by apply Forall_singleton].
  apply Forall_forall. intros k Hk.
  apply list_elem_of_In, in_flat_map in Hk as (s & _ & Hk).
  apply list_elem_of_In in Hk.
  pose proof (kinds_of_builder s) as H. rewrite Forall_forall in H.
  specialize (H k Hk). repeat (apply elem_of_cons in H as [->|H]; [done|]).
  by apply elem_of_nil in H.
Qed.

(** X6: every node of a completed graph has one of the seven kinds of
    the lookup tables, so the exporter never falls back to the default
    colour. *)
Theorem node_kinds_known (body : list ast) (k : nat) (n : CFGNode) :
  Dict.get k (create_flowchart_cfg body) = Some n →
  known_kind (node_type n) = true ∧ get_color n ≠ "lightgray".
Proof.
  intros Hg. apply get_Some_elem in Hg.
  pose proof (kinds_of_build_known body) as H. rewrite Forall_forall in H.
  assert (known_kind (node_type n) = true) as Hk.
  { apply H. unfold kinds.
    apply (list_elem_of_fmap_2 (λ kv : nat * CFGNode, node_type kv.2)) in Hg.
    exact Hg. }
  split; [exact Hk|].
  unfold known_kind in Hk. simpl in Hk. unfold get_color.
  repeat (destruct (String.eqb (node_type n) _); [done|]). done.
Qed.

Lemma node_kinds_known_witness :
  Dict.get 0 (create_flowchart_cfg scenario_A)
  = Some (mkNode 0 "START" "start" None [(1, "")] ∅)
  ∧ known_kind "start" = true
  ∧ get_color (mkNode 0 "START" "start" None [(1, "")] ∅) ≠ "lightgray".
Proof.
  assert (Dict.get 0 (create_flowchart_cfg scenario_A)
          = Some (mkNode 0 "START" "start" None [(1, "")] ∅)) as H
    by reflexivity.
  split; [exact H|]. exact (node_kinds_known scenario_A 0 _ H).
Defined.

(** ** Predecessor sets *)

Lemma preds_alter_succ (f : CFGNode → CFGNode) a g k :
  (∀ n, predecessors (f n) = predecessors n) →
  preds_of (Dict.alter f a g) k = preds_of g k.
Proof.
  intros Hf. unfold preds_of.
  pose proof (get_alter_proj predecessors f a k g Hf) as H.
  destruct (Dict.get k (Dict.alter f a g)), (Dict.get k g); simpl in H;
    by simplify_eq.
Qed.

Lemma preds_add_edge a t l self k :
  preds_of (nodes (add_edge a t l self)) k
  = (if Nat.eqb t k && Dict.mem a (nodes self) && Dict.mem t (nodes self)
     then {[a]} else ∅) ∪ preds_of (nodes self) k.
Proof.
  unfold add_edge.
  destruct (Dict.mem a (nodes self)) eqn:Ha;
    [|rewrite andb_false_r; cbn [andb]; by rewrite (left_id_L ∅ (∪))].
  destruct (Dict.mem t (nodes self)) eqn:Ht;
    [|rewrite !andb_false_r; cbn [andb]; by rewrite (left_id_L ∅ (∪))].
  rewrite !andb_true_r. cbn [andb]. simpl nodes.
  pose proof (preds_alter_succ (add_successor t l) a (nodes self) k
                (λ _, eq_refl)) as Hp.
  unfold preds_of in *. rewrite get_alter.
  destruct (Nat.eqb_spec t k) as [->|Hne].
  - destruct (Dict.get k (Dict.alter (add_successor k l) a (nodes self))) eqn:E1;
      destruct (Dict.get k (nodes self)) eqn:E2; simpl in *.
    + by rewrite Hp.
    + by rewrite Hp.
    + rewrite get_alter, E2 in E1. by destruct (Nat.eqb a k).
    + unfold Dict.mem in Ht. by rewrite E2 in Ht.
  - by rewrite Hp, (left_id_L ∅ (∪)).
Qed.

Lemma all_edges_add_edge_guarded Q a t l self :
  (Dict.mem a (nodes self) = true → Dict.mem t (nodes self) = true →
   Q a t = true) →
  all_edges Q (nodes self) = true →
  all_edges Q (nodes (add_edge a t l self)) = true.
Proof.
  intros Hat H. unfold add_edge.
  destruct (Dict.mem a (nodes self)) eqn:Ha; simpl; [|done].
  destruct (Dict.mem t (nodes self)) eqn:Hm; simpl; [|done].
  apply all_edges_alter; [done|].
  apply all_edges_alter; [|done].
  intros n Hn. unfold targets; simpl.
  rewrite map_app, forallb_app. fold (targets n). rewrite Hn. simpl.
  by rewrite Hat.
Qed.

Lemma mirrored_add_edge a t l self :
  mirrored (nodes self) = true → mirrored (nodes (add_edge a t l self)) = true.
Proof.
  intros H. unfold mirrored. apply all_edges_add_edge_guarded.
  - intros Ha Ht. apply bool_decide_eq_true.
    rewrite preds_add_edge, Nat.eqb_refl, Ha, Ht. simpl. set_solver.
  - apply all_edges_weaken with (2 := H). intros u t'.
    rewrite !bool_decide_eq_true, preds_add_edge. set_solver.
Qed.

Lemma mirrored_relabel f d self :
  (∀ Q l, forallb Q (map fst l) = true → forallb Q (map fst (f l)) = true) →
  mirrored (nodes self) = true → mirrored (nodes (relabel f d self)) = true.
Proof.
  intros Hf H. unfold mirrored. simpl nodes.
  apply all_edges_alter; [intros n Hn; by apply Hf|].
  apply all_edges_weaken with (2 := H). intros u t.
  by rewrite (preds_alter_succ _ d (nodes self) t).
Qed.

Lemma preds_create lbl ty c self k :
  dense self →
  preds_of (nodes (create_node lbl ty c self).2) k = preds_of (nodes self) k.
Proof.
  intros Hd. rewrite create_node_nodes by done. unfold preds_of.
  rewrite get_app. destruct (Dict.get k (nodes self)); [done|].
  simpl. by destruct (Nat.eqb k (current_node_id self)).
Qed.

Lemma mirrored_create lbl ty c self :
  dense self →
  mirrored (nodes self) = true →
  mirrored (nodes (create_node lbl ty c self).2) = true.
Proof.
  intros Hd H. unfold mirrored. apply all_edges_create.
  apply all_edges_weaken with (2 := H). intros u t.
  by rewrite preds_create.
Qed.

Lemma mirrored_visit s self :
  dense self ∧ mirrored (nodes self) = true →
  dense (visit s self) ∧ mirrored (nodes (visit s self)) = true.
Proof.
  apply (visit_preserves (λ b, dense b ∧ mirrored (nodes b) = true)); clear.
  - intros self lbl ty c [Hd H]. split; [by apply dense_create|].
    by apply mirrored_create.
  - intros self0 self a l _ [Hd H]. split; [by apply dense_add_edge|].
    by apply mirrored_add_edge.
  - done.
  - done.
  - intros self d [Hd H]. split; [by apply dense_relabel|].
    apply mirrored_relabel; [|done]. intros Q l Hl.
    rewrite if_relabel_targets. by apply forallb_filter_targets.
  - intros self d [Hd H]. split; [by apply dense_relabel|].
    apply mirrored_relabel; [|done]. intros Q l Hl.
    by rewrite while_relabel_targets.
Qed.

(** X7: in a completed graph the source of every edge is recorded in the
    predecessor set of the edge's target. *)
Theorem edges_recorded_as_predecessors (body : list ast) (u t : nat) (l : string) :
  (t, l) ∈ succs_of (create_flowchart_cfg body) u →
  u ∈ preds_of (create_flowchart_cfg body) t.
Proof.
  intros Hin.
  assert (mirrored (create_flowchart_cfg body) = true) as Hm.
  { unfold create_flowchart_cfg. rewrite visit_Module_eq.
    refine (proj2 (create_connect_preserves
                     (λ b, dense b ∧ mirrored (nodes b) = true)
                     _ _ _ "END" "end" None _ _)).
    - intros self lbl ty c [Hd H]. split; [by apply dense_create|].
      by apply mirrored_create.
    - intros self0 self a l' _ [Hd H]. split; [by apply dense_add_edge|].
      by apply mirrored_add_edge.
    - done.
    - apply visit_statements_preserves.
      + apply Forall_forall. intros s _ b. apply mirrored_visit.
      + split; reflexivity. }
  pose proof (all_edges_spec _ _ u t l Hm Hin) as H.
  by apply bool_decide_eq_true in H.
Qed.

Lemma edges_recorded_as_predecessors_witness :
  (2, "True") ∈ succs_of (create_flowchart_cfg scenario_B) 1
  ∧ 1 ∈ preds_of (create_flowchart_cfg scenario_B) 2.
Proof.
  assert ((2, "True") ∈ succs_of (create_flowchart_cfg scenario_B) 1) as H
    by (vm_compute; apply list_elem_of_here).
  split; [exact H|].
  exact (edges_recorded_as_predecessors scenario_B 1 2 "True" H).
Defined.

(** ** The End node *)

Lemma end_count_kinds g : end_count g = count_kind "end" (kinds g).
Proof.
  unfold end_count, count_kind, kinds.
  induction g as [|[k n] g IH]; [done|].
  rewrite map_cons, !filter_cons. cbn [snd].
  destruct (decide (is_end n = true)) as [H1|H1],
           (decide (node_type n = "end")) as [H2|H2]; simpl.
  - by rewrite IH.
  - by apply String.eqb_eq in H1.
  - by apply String.eqb_eq in H2.
  - done.
Qed.

Lemma count_end_kinds_of l : count_kind "end" (flat_map kinds_of l) = 0.
Proof.
  unfold count_kind.
  destruct (filter (λ k, k = "end") (flat_map kinds_of l)) as [|k r] eqn:E; [done|].
  assert (k ∈ filter (λ k, k = "end") (flat_map kinds_of l)) as Hk
    by (rewrite E; apply list_elem_of_here).
  apply list_elem_of_filter in Hk as [-> Hk].
  apply list_elem_of_In, in_flat_map in Hk as (s & _ & Hk).
  apply list_elem_of_In in Hk.
  pose proof (kinds_of_builder s) as H. rewrite Forall_forall in H.
  specialize (H _ Hk). repeat (apply elem_of_cons in H as [?|H]; [done|]).
  by apply elem_of_nil in H.
Qed.

Lemma node_count_of_build body :
  node_count (create_flowchart_cfg body)
  = S (current_node_id (visit_statements body started)).
Proof.
  unfold create_flowchart_cfg. rewrite visit_Module_eq. unfold node_count.
  pose proof (dense_visit_statements body started (proj1 sound_started)) as Hd.
  rewrite <- (next_is_count _ (dense_connect _ _ (dense_create "END" "end" None _ Hd))).
  by rewrite connect_id.
Qed.

(** X8: a completed graph has exactly one End node. It is the last
    node, it is labelled END and it has no outgoing edge. *)
Theorem end_node_of_build (body : list ast) :
  end_count (create_flowchart_cfg body) = 1
  ∧ type_of (create_flowchart_cfg body)
      (node_count (create_flowchart_cfg body) - 1) = Some "end"
  ∧ label_of (create_flowchart_cfg body)
      (node_count (create_flowchart_cfg body) - 1) = Some "END"
  ∧ succs_of (create_flowchart_cfg body)
      (node_count (create_flowchart_cfg body) - 1) = [].
Proof.
  split.
  { rewrite end_count_kinds, create_flowchart_cfg_kinds.
    change ("start" :: ?l) with (["start"] ++ l).
    by rewrite !count_kind_app, count_end_kinds_of. }
  rewrite node_count_of_build. simpl. rewrite Nat.sub_0_r.
  unfold create_flowchart_cfg. rewrite visit_Module_eq.
  pose proof (wf_visit_statements body started wf_started) as Hwf.
  pose proof Hwf as [[Hd _] He].
  split; [by apply type_create_connect|].
  split; [by apply label_create_connect|].
  rewrite succs_create_connect by done.
  rewrite succs_absent by (done || lia).
  rewrite bool_decide_eq_false_2; [done|].
  intros Hin. rewrite exits_exist_spec in He. specialize (He _ Hin). lia.
Qed.

(** ** Nodes are immutable *)

Lemma info_create lbl ty c self k :
  dense self → k < current_node_id self →
  info_of (nodes (create_node lbl ty c self).2) k = info_of (nodes self) k.
Proof.
  intros Hd Hk. rewrite create_node_nodes by done. unfold info_of.
  rewrite get_app.
  pose proof (dense_mem self k Hd) as Hm. unfold Dict.mem in Hm.
  destruct (Dict.get k (nodes self)); [done|].
  symmetry in Hm. apply Nat.ltb_ge in Hm. lia.
Qed.

Lemma info_visit s k self :
  dense self → k < current_node_id self →
  dense (visit s self) ∧ k < current_node_id (visit s self)
  ∧ info_of (nodes (visit s self)) k = info_of (nodes self) k.
Proof.
  intros Hd Hk.
  apply (visit_preserves
           (λ b, dense b ∧ k < current_node_id b
                 ∧ info_of (nodes b) k = info_of (nodes self) k)); [..|done].
  - intros b lbl ty c (Hb & Hkb & Hi).
    split; [by apply dense_create|]. split; [rewrite create_next; lia|].
    by rewrite info_create.
  - intros b0 b a l _ (Hb & Hkb & Hi).
    split; [by apply dense_add_edge|]. split; [by rewrite add_edge_id|].
    rewrite <- Hi. unfold info_of. by apply proj_add_edge.
  - done.
  - done.
  - intros b d (Hb & Hkb & Hi). split; [by apply dense_relabel|].
    split; [done|]. rewrite <- Hi. unfold info_of. simpl nodes.
    by apply get_alter_proj.
  - intros b d (Hb & Hkb & Hi). split; [by apply dense_relabel|].
    split; [done|]. rewrite <- Hi. unfold info_of. simpl nodes.
    by apply get_alter_proj.
Qed.

(** X9: visiting a statement never changes the id, label, kind or
    condition of a node that already exists. *)
Theorem existing_nodes_keep_their_fields (s : ast) (self : Builder) (k : nat) :
  dense self → k < current_node_id self →
  info_of (nodes (visit s self)) k = info_of (nodes self) k.
Proof. intros Hd Hk. by apply info_visit. Qed.

Lemma existing_nodes_keep_their_fields_witness :
  dense started ∧ 0 < current_node_id started
  ∧ info_of (nodes (visit (If "x > 0" [Assign ["y"] "1"] []) started)) 0
    = info_of (nodes started) 0.
Proof.
  assert (dense started) as H1 by reflexivity.
  assert (0 < current_node_id started) as H2 by (simpl; lia).
  split; [exact H1|]. split; [exact H2|].
  exact (existing_nodes_keep_their_fields _ started 0 H1 H2).
Defined.

(** ** Records of the exported description *)

Lemma node_stmt_names_app b1 b2 :
  node_stmt_names (b1 ++ b2) = node_stmt_names b1 ++ node_stmt_names b2.
Proof. unfold node_stmt_names. apply flat_map_app. Qed.

Lemma edge_stmt_count_app b1 b2 :
  edge_stmt_count (b1 ++ b2) = edge_stmt_count b1 + edge_stmt_count b2.
Proof. unfold edge_stmt_count. apply sum_list_with_app. Qed.

Lemma node_stmt_names_nodes g :
  node_stmt_names (map node_stmt g) = map (λ kv : nat * CFGNode, pretty kv.1) g.
Proof. induction g as [|[k n] g IH]; simpl; [done|]. by rewrite IH. Qed.

Lemma node_stmt_names_edges g : node_stmt_names (concat (map edge_stmts g)) = [].
Proof.
  induction g as [|[k n] g IH]; simpl; [done|].
  rewrite node_stmt_names_app, IH, app_nil_r. unfold edge_stmts.
  induction (successors n) as [|e l IHl]; simpl; [done|].
  by destruct (PyStr.truthy e.2).
Qed.

Lemma edge_stmt_count_nodes g : edge_stmt_count (map node_stmt g) = 0.
Proof. induction g as [|[k n] g IH]; simpl; [done|]. exact IH. Qed.

Lemma edge_stmt_count_edges g :
  edge_stmt_count (concat (map edge_stmts g)) = edge_count g.
Proof.
  induction g as [|[k n] g IH]; simpl; [done|].
  rewrite edge_stmt_count_app, IH. fold (edge_count g). f_equal.
  unfold edge_stmts.
  induction (successors n) as [|e l IHl]; simpl; [done|].
  fold (edge_stmt_count
          (map (λ e0 : nat * string,
                  if PyStr.truthy e0.2
                  then EdgeStmt (pretty k) (pretty e0.1) (Some e0.2)
                  else EdgeStmt (pretty k) (pretty e0.1) None) l)).
  rewrite IHl. by destruct (PyStr.truthy e.2).
Qed.

Lemma digraph_node_names g :
  node_stmt_names (dot_body (flowchart_digraph g))
  = map (λ kv : nat * CFGNode, pretty kv.1) g.
Proof.
  unfold flowchart_digraph. cbn [dot_body].
  rewrite !node_stmt_names_app, node_stmt_names_nodes, node_stmt_names_edges.
  cbn [node_stmt_names flat_map app]. by rewrite app_nil_r.
Qed.

Lemma digraph_edge_count g :
  edge_stmt_count (dot_body (flowchart_digraph g)) = edge_count g.
Proof.
  unfold flowchart_digraph. cbn [dot_body].
  rewrite !edge_stmt_count_app, edge_stmt_count_nodes, edge_stmt_count_edges.
  cbn. lia.
Qed.

(** X10: the description built for a graph holds one node record per
    node, named by the node's id in dictionary order, and one edge
    record per edge. *)
Theorem export_counts (g : Graph) :
  node_stmt_names (dot_body (flowchart_digraph g))
  = map (λ kv : nat * CFGNode, pretty kv.1) g
  ∧ length (node_stmt_names (dot_body (flowchart_digraph g))) = node_count g
  ∧ edge_stmt_count (dot_body (flowchart_digraph g)) = edge_count g.
Proof.
  split; [apply digraph_node_names|].
  split; [rewrite digraph_node_names; apply length_map|].
  apply digraph_edge_count.
Qed.

(** X11: for a completed graph the node records are named 0, 1, ...,
    N-1 in ascending order, and no two records share a name. *)
Theorem export_node_names_ascending (body : list ast) :
  node_stmt_names (dot_body (flowchart_digraph (create_flowchart_cfg body)))
  = map pretty (seq 0 (node_count (create_flowchart_cfg body)))
  ∧ NoDup (node_stmt_names
             (dot_body (flowchart_digraph (create_flowchart_cfg body)))).
Proof.
  assert (node_stmt_names
            (dot_body (flowchart_digraph (create_flowchart_cfg body)))
          = map pretty (seq 0 (node_count (create_flowchart_cfg body)))) as H.
  { rewrite digraph_node_names, <- create_flowchart_cfg_dense.
    unfold Dict.keys. by rewrite map_map. }
  split; [exact H|]. rewrite H.
  apply (NoDup_fmap_2 pretty), NoDup_seq.
Qed.

(** ** Label wrapping *)

Lemma len_app (a b : string) :
  PyStr.len (a +:+ b) = PyStr.len a + PyStr.len b.
Proof.
  induction a as [|c a IH]; [done|].
  change (PyStr.len (String c (a +:+ b))
          = PyStr.len (String c a) + PyStr.len b).
  cbn [PyStr.len]. destruct (PyStr.continuation c); lia.
Qed.

Lemma string_app_assoc (a b c : string) : (a +:+ b) +:+ c = a +:+ b +:+ c.
Proof.
  induction a as [|x a IH]; [done|].
  change (String x ((a +:+ b) +:+ c) = String x (a +:+ b +:+ c)).
  by rewrite IH.
Qed.

Lemma join_snoc sep l w :
  l ≠ [] → PyStr.join sep (l ++ [w]) = PyStr.join sep l +:+ sep +:+ w.
Proof.
  induction l as [|x l IH]; [done|]. intros _.
  destruct l as [|y l]; [done|].
  change (PyStr.join sep ((x :: y :: l) ++ [w]))
    with (x +:+ sep +:+ PyStr.join sep ((y :: l) ++ [w])).
  rewrite IH by done.
  change (PyStr.join sep (x :: y :: l)) with (x +:+ sep +:+ PyStr.join sep (y :: l)).
  by rewrite !string_app_assoc.
Qed.

Lemma join_snoc_length l w :
  PyStr.len (PyStr.join " " (l ++ [w]))
  ≤ PyStr.len (PyStr.join " " l) + PyStr.len w + 1.
Proof.
  destruct l as [|x l]; [simpl; lia|].
  rewrite join_snoc by done. rewrite !len_app. simpl. lia.
Qed.

(** What the wrapping loop maintains: the finished lines are groups of
    words, each acceptable, and the words seen so far are those of the
    finished lines followed by the current line. *)
Lemma wrap_fold words :
  ∀ lines current_line current_length groups seen,
    lines = map (PyStr.join " ") groups →
    concat groups ++ current_line = seen →
    Forall line_ok groups →
    PyStr.len (PyStr.join " " current_line) ≤ current_length →
    (length current_line ≤ 1 ∨ current_length ≤ 30) →
    ∃ groups' current_line' current_length',
      fold_left wrap_step words (lines, current_line, current_length)
      = (map (PyStr.join " ") groups', current_line', current_length')
      ∧ concat groups' ++ current_line' = seen ++ words
      ∧ Forall line_ok groups'
      ∧ (length current_line' ≤ 1
         ∨ PyStr.len (PyStr.join " " current_line') ≤ 30).
Proof.
  induction words as [|w words IH];
    intros lines cur len groups seen Hl Hc Hok Hlen Hcur.
  - exists groups, cur, len. rewrite app_nil_r. subst lines.
    repeat split; try done. destruct Hcur; [by left | right; lia].
  - cbn [fold_left]. unfold wrap_step at 2.
    destruct (Nat.leb_spec (len + PyStr.len w + 1) 30) as [Hfit|Hover].
    + destruct (IH lines (cur ++ [w]) (len + PyStr.len w + 1) groups
                  (seen ++ [w])) as (g' & c' & n' & H1 & H2 & H3 & H4);
        try done.
      * by rewrite app_assoc, Hc.
      * pose proof (join_snoc_length cur w). lia.
      * right. lia.
      * exists g', c', n'. rewrite <- app_assoc in H2. done.
    + assert (cur ≠ [] → line_ok cur) as Hcur_ok.
      { intros Hne. split; [done|]. destruct Hcur as [H1|H30].
        - left. destruct cur as [|x [|y cur]]; simpl in *; try done; lia.
        - right. lia. }
      destruct cur as [|x cur].
      * simpl. rewrite app_nil_r in Hc.
        destruct (IH lines [w] (PyStr.len w) groups (seen ++ [w]))
          as (g' & c' & n' & H1 & H2 & H3 & H4); try done.
        -- by rewrite Hc.
        -- by left.
        -- exists g', c', n'. rewrite <- app_assoc in H2. done.
      * cbn [length Nat.eqb negb].
        destruct (IH (lines ++ [PyStr.join " " (x :: cur)]) [w]
                    (PyStr.len w) (groups ++ [x :: cur]) (seen ++ [w]))
          as (g' & c' & n' & H1 & H2 & H3 & H4); try done.
        -- subst lines. by rewrite map_app.
        -- rewrite concat_app. simpl. rewrite app_nil_r. by rewrite Hc.
        -- apply Forall_app. split; [done|]. apply Forall_singleton.
           by apply Hcur_ok.
        -- by left.
        -- exists g', c', n'. rewrite <- app_assoc in H2. done.
Qed.

(** X12: a label of more than 30 characters (code points, as [len]
    counts them) is wrapped without losing, reordering or splitting a
    word: the result is the words of the label, as [str.split()] gives
    them, grouped into lines joined by a literal backslash-n, and every
    line holds a single word or at most 30 characters. *)
Theorem format_label_wraps_words (lbl : string) :
  30 < PyStr.len lbl →
  ∃ groups,
    format_label lbl = PyStr.join "\n" (map (PyStr.join " ") groups)
    ∧ concat groups = PyStr.split lbl
    ∧ Forall line_ok groups.
Proof.
  intros Hlong. unfold format_label.
  apply Nat.ltb_lt in Hlong. rewrite Hlong.
  destruct (wrap_fold (PyStr.split lbl) [] [] 0 [] [])
    as (g & c & n & H1 & H2 & H3 & H4);
    try done; try (simpl; lia); try (left; simpl; lia).
  rewrite H1. simpl in H2. destruct c as [|x c].
  - exists g. rewrite app_nil_r in H2. done.
  - exists (g ++ [x :: c]). cbn [length Nat.eqb negb].
    rewrite map_app. split; [done|]. split.
    + rewrite concat_app. simpl. by rewrite app_nil_r.
    + apply Forall_app. split; [done|]. apply Forall_singleton.
      split; [done|]. destruct H4 as [H4|H4]; [left|by right].
      destruct c; simpl in *; [done|lia].
Qed.

Lemma format_label_wraps_words_witness :
  30 < PyStr.len "print(f'{count} is multiple of 5') and more words here"
  ∧ ∃ groups,
      format_label "print(f'{count} is multiple of 5') and more words here"
      = PyStr.join "\n" (map (PyStr.join " ") groups)
      ∧ concat groups
        = PyStr.split "print(f'{count} is multiple of 5') and more words here"
      ∧ Forall line_ok groups.
Proof.
  assert (30 < PyStr.len
                 "print(f'{count} is multiple of 5') and more words here") as H
    by (vm_compute; lia).
  split; [exact H|]. exact (format_label_wraps_words _ H).
Defined.

(** Lengths are counted in characters, not in bytes: a label of 30
    characters that takes 51 bytes is left as it is, and one character
    more has it wrapped; a no-break space (U+00A0, bytes 194 160)
    separates words as a blank does. *)
Example format_label_counts_characters :
  PyStr.len "ééééééééééééééééééééé abcdefgh" = 30
  ∧ String.length "ééééééééééééééééééééé abcdefgh" = 51
  ∧ format_label "ééééééééééééééééééééé abcdefgh"
    = "ééééééééééééééééééééé abcdefgh"
  ∧ format_label "ééééééééééééééééééééé abcdefghi"
    = "ééééééééééééééééééééé\nabcdefghi"
  ∧ PyStr.split ("a" +:+ String (ascii_of_nat 194) (String (ascii_of_nat 160) "b")
                 +:+ " c")
    = ["a"; "b"; "c"].
Proof. vm_compute. done. Qed.

(** ** [add_edge] and the order of the exits *)

Lemma info_add_edge a t l self k :
  info_of (nodes (add_edge a t l self)) k = info_of (nodes self) k.
Proof. unfold info_of. by apply proj_add_edge. Qed.

(** X13: [add_edge] draws the edge only when both endpoints are nodes of
    the graph. It then appends [(to, label)] to the successors of the
    source and records the source among the predecessors of the target;
    it never creates a node, and it changes no other successor list, no
    other predecessor set and no label, kind or condition. *)
Theorem add_edge_spec (a t : nat) (l : string) (self : Builder) :
  Dict.keys (nodes (add_edge a t l self)) = Dict.keys (nodes self)
  ∧ current_node_id (add_edge a t l self) = current_node_id self
  ∧ current_exits (add_edge a t l self) = current_exits self
  ∧ (∀ u, succs_of (nodes (add_edge a t l self)) u
          = succs_of (nodes self) u
            ++ (if Nat.eqb a u && Dict.mem a (nodes self)
                   && Dict.mem t (nodes self)
                then [(t, l)] else []))
  ∧ (∀ k, preds_of (nodes (add_edge a t l self)) k
          = (if Nat.eqb t k && Dict.mem a (nodes self)
                && Dict.mem t (nodes self)
             then {[a]} else ∅) ∪ preds_of (nodes self) k)
  ∧ (∀ k, info_of (nodes (add_edge a t l self)) k = info_of (nodes self) k).
Proof.
  split; [apply add_edge_keys|]. split; [apply add_edge_id|].
  split; [apply add_edge_exits|]. split; [intros u; apply succs_add_edge|].
  split; [intros k; apply preds_add_edge | intros k; apply info_add_edge].
Qed.

Lemma alter_comm {V} (f g : V → V) k1 k2 (d : list (nat * V)) :
  (k1 = k2 → ∀ v, f (g v) = g (f v)) →
  Dict.alter f k1 (Dict.alter g k2 d) = Dict.alter g k2 (Dict.alter f k1 d).
Proof.
  intros Hc. unfold Dict.alter. rewrite !map_map. apply map_ext.
  intros [k v]. simpl.
  destruct (Nat.eqb_spec k2 k) as [->|H2], (Nat.eqb_spec k1 k) as [->|H1];
    simpl; rewrite ?Nat.eqb_refl; try done.
  - by rewrite Hc.
  - by destruct (Nat.eqb_spec k1 k).
  - by destruct (Nat.eqb_spec k2 k).
  - destruct (Nat.eqb_spec k1 k); [done|]. by destruct (Nat.eqb_spec k2 k).
Qed.

Lemma add_predecessor_comm a b n :
  add_predecessor a (add_predecessor b n) = add_predecessor b (add_predecessor a n).
Proof.
  unfold add_predecessor. simpl. f_equal.
  apply set_eq. intros x. rewrite !elem_of_union, !elem_of_singleton. tauto.
Qed.

Lemma add_edge_swap a b t l self :
  add_edge a t l (add_edge b t l self) = add_edge b t l (add_edge a t l self).
Proof.
  destruct (decide (a = b)) as [->|Hab]; [done|].
  unfold add_edge at 1 3. rewrite !mem_add_edge. unfold add_edge.
  destruct (Dict.mem a (nodes self)) eqn:Ha, (Dict.mem b (nodes self)) eqn:Hb,
    (Dict.mem t (nodes self)) eqn:Ht; simpl; try done.
  unfold set_nodes. simpl. f_equal.
  rewrite (alter_comm (add_successor t l) (add_predecessor b) a t) by done.
  rewrite (alter_comm (add_predecessor a) (add_predecessor b) t t)
    by (intros _ v; apply add_predecessor_comm).
  rewrite (alter_comm (add_successor t l) (add_successor t l) a b) by done.
  rewrite (alter_comm (add_predecessor a) (add_successor t l) t b) by done.
  done.
Qed.

Lemma add_edges_from_perm exits1 exits2 t :
  exits1 ≡ₚ exits2 →
  ∀ self, add_edges_from exits1 t self = add_edges_from exits2 t self.
Proof.
  induction 1 as [|x l1 l2 _ IH|x y l|l1 l2 l3 _ IH1 _ IH2]; intros self.
  - done.
  - by rewrite !add_edges_from_cons, IH.
  - rewrite !add_edges_from_cons. by rewrite add_edge_swap.
  - by rewrite IH1, IH2.
Qed.

(** X14: the result of [connect_exits_to_node] does not depend on the
    order in which the set of open exits is iterated. *)
Theorem connect_exits_order_irrelevant (order : list nat) (target : nat)
    (self : Builder) :
  order ≡ₚ elements (current_exits self) →
  set_exits {[target]} (add_edges_from order target self)
  = connect_exits_to_node target self.
Proof.
  intros Hp. unfold connect_exits_to_node.
  by rewrite (add_edges_from_perm _ _ target Hp).
Qed.

Lemma connect_exits_order_irrelevant_witness :
  [3; 2] ≡ₚ elements (current_exits (visit_statements scenario_B started))
  ∧ set_exits {[1]}
      (add_edges_from [3; 2] 1 (visit_statements scenario_B started))
    = connect_exits_to_node 1 (visit_statements scenario_B started).
Proof.
  assert ([3; 2] ≡ₚ elements (current_exits (visit_statements scenario_B started)))
    as H by (change (elements _) with [2; 3]; apply perm_swap).
  split; [exact H|].
  exact (connect_exits_order_irrelevant [3; 2] 1 _ H).
Defined.

(** ** Exact edge counts *)

Lemma edge_count_add_edges_from_exact exits t self :
  dense self → Dict.mem t (nodes self) = true →
  Forall (λ e, Dict.mem e (nodes self) = true) exits →
  edge_count (nodes (add_edges_from exits t self))
  = edge_count (nodes self) + length exits.
Proof.
  intros Hd Ht Hall. revert self Hd Ht Hall.
  induction exits as [|e exits IH]; intros self Hd Ht Hall; [simpl; lia|].
  apply Forall_cons in Hall as [He Hall].
  rewrite add_edges_from_cons, IH.
  - rewrite edge_count_add_edge, He, Ht by done. simpl. lia.
  - by apply dense_add_edge.
  - by rewrite mem_add_edge.
  - apply Forall_impl with (1 := Hall). intros x Hx. by rewrite mem_add_edge.
Qed.

Lemma edge_count_connect_exact lbl ty c self :
  wf self →
  edge_count (nodes (connect_exits_to_node (current_node_id self)
                       (create_node lbl ty c self).2))
  = edge_count (nodes self) + size (current_exits self).
Proof.
  intros [[Hd _] He]. rewrite connect_nodes, create_exits.
  pose proof (dense_create lbl ty c self Hd) as Hd'.
  rewrite edge_count_add_edges_from_exact; [|done| |].
  - by rewrite edge_count_create.
  - rewrite (dense_mem _ _ Hd'), create_next. apply Nat.ltb_lt. lia.
  - apply Forall_forall. intros e Hin. apply elem_of_elements in Hin.
    rewrite exits_exist_spec in He. specialize (He e Hin).
    rewrite (dense_mem _ _ Hd'), create_next. apply Nat.ltb_lt. lia.
Qed.

Lemma edge_count_alter_at (f : CFGNode → CFGNode) k g :
  NoDup (Dict.keys g) →
  (∀ n, Dict.get k g = Some n →
        length (successors (f n)) = length (successors n)) →
  edge_count (Dict.alter f k g) = edge_count g.
Proof.
  induction g as [|[k' n] g IH]; [done|]. simpl.
  rewrite NoDup_cons. intros [Hk' Hnd] Hf.
  fold (edge_count (Dict.alter f k g)). fold (edge_count g).
  destruct (Nat.eqb_spec k k') as [->|Hne]; simpl.
  - fold (@Dict.alter CFGNode) in *. rewrite alter_absent by done.
    by rewrite (Hf n).
  - rewrite IH; [done|done|]. intros m Hm. by apply Hf.
Qed.

Lemma succs_relabel f d self u :
  succs_of (nodes (relabel f d self)) u
  = if Nat.eqb d u && Dict.mem u (nodes self)
    then f (succs_of (nodes self) u) else succs_of (nodes self) u.
Proof.
  unfold succs_of, Dict.mem. simpl nodes. rewrite get_alter.
  destruct (Nat.eqb d u); simpl; [|done].
  by destruct (Dict.get u (nodes self)).
Qed.

Lemma edge_count_relabel_at f d self :
  dense self →
  length (f (succs_of (nodes self) d)) = length (succs_of (nodes self) d) →
  edge_count (nodes (relabel f d self)) = edge_count (nodes self).
Proof.
  intros Hd Hlen. simpl nodes.
  apply edge_count_alter_at; [by apply dense_NoDup|].
  intros n Hn. unfold succs_of in Hlen. by rewrite Hn in Hlen.
Qed.

Lemma succs_started u : succs_of (nodes started) u = [].
Proof. unfold succs_of. simpl. by destruct (Nat.eqb u 0). Qed.

(** ** Straight-line programs *)

(** X15: a program made of assignments, augmented assignments and
    expression statements only becomes a chain START, statement 1, ...,
    statement n, END: n + 2 nodes, n + 1 unlabelled edges from each node
    to the next, and cyclomatic complexity 1. *)
Theorem straight_line_program (body : list ast) :
  forallb is_simple body = true →
  node_count (create_flowchart_cfg body) = length body + 2
  ∧ edge_count (create_flowchart_cfg body) = length body + 1
  ∧ (∀ i, i ≤ length body →
       succs_of (create_flowchart_cfg body) i = [(S i, "")])
  ∧ succs_of (create_flowchart_cfg body) (S (length body)) = []
  ∧ calculate_cyclomatic_complexity (create_flowchart_cfg body) = 1%Z.
Proof.
  intros Hs.
  destruct (chain_of_simple body Hs started 0 wf_started eq_refl)
    as (Hwf & Hn & Hx & HE & Hsucc).
  change (current_node_id started) with 1 in *.
  change (edge_count (nodes started)) with 0 in HE.
  assert (current_exits (visit_statements body started) = {[length body]})
    as Hx'.
  { rewrite Hx. f_equal. destruct body; simpl; lia. }
  assert (node_count (create_flowchart_cfg body) = length body + 2) as HN
    by (rewrite node_count_of_build, Hn; lia).
  assert (edge_count (create_flowchart_cfg body) = length body + 1) as HEc.
  { unfold create_flowchart_cfg. rewrite visit_Module_eq.
    rewrite edge_count_connect_exact by done.
    rewrite Hx', size_singleton, HE. lia. }
  assert (∀ u, succs_of (create_flowchart_cfg body) u
               = chain_edge 0 1 (length body) u
                 ++ (if bool_decide (u ∈ ({[length body]} : gset nat))
                     then [(S (length body), "")] else [])) as Hall.
  { intros u. unfold create_flowchart_cfg. rewrite visit_Module_eq.
    rewrite succs_create_connect by done.
    by rewrite Hsucc, succs_started, Hx', Hn. }
  split; [exact HN|]. split; [exact HEc|]. split; [|split].
  - intros i Hi. rewrite Hall. unfold chain_edge.
    destruct (decide (i = length body)) as [->|Hne].
    + rewrite bool_decide_eq_true_2 by by apply elem_of_singleton.
      nat_tests.
    + rewrite bool_decide_eq_false_2 by by rewrite elem_of_singleton.
      nat_tests; by subst.
  - rewrite Hall. unfold chain_edge.
    rewrite bool_decide_eq_false_2 by (rewrite elem_of_singleton; lia).
    nat_tests.
  - rewrite cyclomatic_of_nonempty; [rewrite HN, HEc; lia|].
    intros E. rewrite E in HN. simpl in HN. lia.
Qed.

Lemma straight_line_program_witness :
  forallb is_simple scenario_A = true
  ∧ node_count (create_flowchart_cfg scenario_A) = 3
  ∧ edge_count (create_flowchart_cfg scenario_A) = 2
  ∧ (∀ i, i ≤ 1 → succs_of (create_flowchart_cfg scenario_A) i = [(S i, "")])
  ∧ succs_of (create_flowchart_cfg scenario_A) 2 = []
  ∧ calculate_cyclomatic_complexity (create_flowchart_cfg scenario_A) = 1%Z.
Proof.
  split; [reflexivity|]. exact (straight_line_program scenario_A eq_refl).
Defined.

(** ** A conditional with straight-line branches *)

Lemma chain_edge_entry a n len : 0 < len → chain_edge a n len a = [(n, "")].
Proof. intros H. unfold chain_edge. nat_tests. Qed.

Lemma chain_edge_outside a n len u :
  u ≠ a → u < n → chain_edge a n len u = [].
Proof. intros H1 H2. unfold chain_edge. nat_tests. Qed.

Lemma wf_set_exits_one d self :
  wf self → d < current_node_id self → wf (set_exits {[d]} self).
Proof.
  intros [Hs _] Hd. split; [exact Hs|].
  apply exits_exist_within, exits_within_one; [lia|done].
Qed.

Lemma info_create_connect_new lbl ty c self :
  dense self →
  info_of (nodes (connect_exits_to_node (current_node_id self)
                    (create_node lbl ty c self).2)) (current_node_id self)
  = Some (current_node_id self, lbl, ty, c).
Proof.
  intros Hd. unfold info_of. rewrite connect_nodes.
  rewrite proj_add_edges_from by done. by rewrite get_created.
Qed.

Lemma info_create_connect_old lbl ty c self k :
  dense self → k < current_node_id self →
  info_of (nodes (connect_exits_to_node (current_node_id self)
                    (create_node lbl ty c self).2)) k
  = info_of (nodes self) k.
Proof.
  intros Hd Hk. rewrite <- (info_create lbl ty c self k Hd Hk).
  unfold info_of. rewrite connect_nodes. by apply proj_add_edges_from.
Qed.

Lemma info_visit_statements l k self :
  dense self → k < current_node_id self →
  info_of (nodes (visit_statements l self)) k = info_of (nodes self) k.
Proof.
  revert self. induction l as [|s l IH]; intros self Hd Hk; [done|].
  rewrite visit_statements_cons.
  destruct (info_visit s k self Hd Hk) as (Hd' & Hk' & Hi).
  by rewrite IH.
Qed.

Lemma info_relabel f d self k :
  info_of (nodes (relabel f d self)) k = info_of (nodes self) k.
Proof. unfold info_of. simpl nodes. by apply get_alter_proj. Qed.

Lemma succs_fresh_decision lbl ty c self :
  wf self →
  succs_of (nodes (connect_exits_to_node (current_node_id self)
                     (create_node lbl ty c self).2)) (current_node_id self)
  = [].
Proof.
  intros Hwf. pose proof Hwf as [[Hd _] He].
  rewrite succs_create_connect by done.
  rewrite succs_absent by (done || lia).
  rewrite bool_decide_eq_false_2; [done|].
  intros Hin. rewrite exits_exist_spec in He. specialize (He _ Hin). lia.
Qed.

(** The state after [visit_If] when both branches are non-empty runs of
    straight-line statements. *)
Lemma if_else_state test body orelse self :
  wf self →
  forallb is_simple body = true → forallb is_simple orelse = true →
  body ≠ [] → orelse ≠ [] →
  wf (visit (If test body orelse) self)
  ∧ current_node_id (visit (If test body orelse) self)
    = S (current_node_id self) + length body + length orelse
  ∧ current_exits (visit (If test body orelse) self)
    = {[current_node_id self + length body]}
      ∪ {[current_node_id self + length body + length orelse]}
  ∧ edge_count (nodes (visit (If test body orelse) self))
    = edge_count (nodes self) + size (current_exits self)
      + length body + length orelse
  ∧ succs_of (nodes (visit (If test body orelse) self)) (current_node_id self)
    = [(S (current_node_id self), "True");
       (S (current_node_id self) + length body, "False")]
  ∧ info_of (nodes (visit (If test body orelse) self)) (current_node_id self)
    = Some (current_node_id self, test, "decision", Some test).
Proof.
  intros Hwf Hb Ho Hbne Hone. rewrite visit_If_eq; cbv zeta.
  pose proof (wf_create_connect test "decision" (Some test) self Hwf) as Hwf1.
  pose proof (edge_count_connect_exact test "decision" (Some test) self Hwf) as HE1.
  pose proof (succs_fresh_decision test "decision" (Some test) self Hwf) as Hs1.
  pose proof (info_create_connect_new test "decision" (Some test) self
                (proj1 (proj1 Hwf))) as Hi1.
  change (set_exits {[current_node_id self]}
            (connect_exits_to_node (current_node_id self)
               (create_node test "decision" (Some test) self).2))
    with (connect_exits_to_node (current_node_id self)
            (create_node test "decision" (Some test) self).2).
  revert Hwf1 HE1 Hs1 Hi1.
  assert (current_node_id
            (connect_exits_to_node (current_node_id self)
               (create_node test "decision" (Some test) self).2)
          = S (current_node_id self)) as Hn1 by by rewrite connect_id.
  assert (current_exits
            (connect_exits_to_node (current_node_id self)
               (create_node test "decision" (Some test) self).2)
          = {[current_node_id self]}) as Hx1 by done.
  revert Hn1 Hx1.
  generalize (connect_exits_to_node (current_node_id self)
                (create_node test "decision" (Some test) self).2).
  intros self1 Hn1 Hx1 Hwf1 HE1 Hs1 Hi1.
  destruct (chain_of_simple body Hb self1 (current_node_id self) Hwf1 Hx1)
    as (Hwf2 & Hn2 & Hx2 & HE2 & Hs2).
  pose proof (info_visit_statements body (current_node_id self) self1
                (proj1 (proj1 Hwf1)) ltac:(lia)) as Hi2.
  revert Hwf2 Hn2 Hx2 HE2 Hs2 Hi2.
  generalize (visit_statements body self1). intros self2 Hwf2 Hn2 Hx2 HE2 Hs2 Hi2.
  assert (wf (set_exits {[current_node_id self]} self2)) as Hwf2'
    by (apply wf_set_exits_one; [done|lia]).
  destruct (chain_of_simple orelse Ho (set_exits {[current_node_id self]} self2)
              (current_node_id self) Hwf2' eq_refl)
    as (Hwf3 & Hn3 & Hx3 & HE3 & Hs3).
  pose proof (info_visit_statements orelse (current_node_id self)
                (set_exits {[current_node_id self]} self2)
                (proj1 (proj1 Hwf2)) ltac:(simpl; lia)) as Hi3.
  change (current_node_id (set_exits {[current_node_id self]} self2))
    with (current_node_id self2) in *.
  change (nodes (set_exits {[current_node_id self]} self2))
    with (nodes self2) in *.
  revert Hwf3 Hn3 Hx3 HE3 Hs3 Hi3.
  generalize (visit_statements orelse (set_exits {[current_node_id self]} self2)).
  intros self3 Hwf3 Hn3 Hx3 HE3 Hs3 Hi3.
  assert (length body ≠ 0) as Hlb by (by destruct body).
  assert (length orelse ≠ 0) as Hlo by (by destruct orelse).
  assert (succs_of (nodes self3) (current_node_id self)
          = [(S (current_node_id self), "");
             (S (current_node_id self) + length body, "")]) as Hd3.
  { rewrite Hs3, Hs2, Hs1, !chain_edge_entry by lia.
    rewrite Hn2, Hn1. done. }
  assert (Dict.mem (current_node_id self) (nodes self3) = true) as Hm3.
  { rewrite (dense_mem _ _ (proj1 (proj1 Hwf3))). apply Nat.ltb_lt. lia. }
  assert (current_exits self2 = {[current_node_id self + length body]}) as Hx2'.
  { rewrite Hx2. f_equal. destruct body; [done|]. simpl. lia. }
  assert (current_exits self3
          = {[current_node_id self + length body + length orelse]}) as Hx3'.
  { rewrite Hx3. f_equal. destruct orelse; [done|]. simpl. lia. }
  split.
  { split; [by apply sound_relabel_if, Hwf3|].
    apply exits_exist_spec. intros e. simpl.
    rewrite Hx2', Hx3', (left_id_L ∅ (∪)), elem_of_union, !elem_of_singleton.
    lia. }
  split; [simpl; lia|].
  split; [simpl; by rewrite Hx2', Hx3', (left_id_L ∅ (∪))|].
  split.
  { change (nodes (set_exits ?F ?b)) with (nodes b).
    rewrite edge_count_relabel_at; [lia|apply Hwf3|by rewrite Hd3]. }
  split.
  { change (nodes (set_exits ?F ?b)) with (nodes b).
    rewrite succs_relabel, Nat.eqb_refl, Hm3, Hd3. reflexivity. }
  change (nodes (set_exits ?F ?b)) with (nodes b).
  by rewrite info_relabel, Hi3, Hi2.
Qed.

(** X16: after [visit_If] on a conditional whose two branches are
    non-empty runs of straight-line statements, the Decision node
    carries the condition as label, has exactly two outgoing edges, the
    first labelled "True" to the first node of the [if] branch and the
    second labelled "False" to the first node of the [else] branch, and
    the open exits are the last nodes of the two branches. *)
Theorem if_else_two_way (test : string) (body orelse : list ast) (self : Builder) :
  wf self →
  forallb is_simple body = true → forallb is_simple orelse = true →
  body ≠ [] → orelse ≠ [] →
  succs_of (nodes (visit (If test body orelse) self)) (current_node_id self)
  = [(S (current_node_id self), "True");
     (S (current_node_id self) + length body, "False")]
  ∧ info_of (nodes (visit (If test body orelse) self)) (current_node_id self)
    = Some (current_node_id self, test, "decision", Some test)
  ∧ current_exits (visit (If test body orelse) self)
    = {[current_node_id self + length body]}
      ∪ {[current_node_id self + length body + length orelse]}.
Proof.
  intros Hwf Hb Ho Hbne Hone.
  destruct (if_else_state test body orelse self Hwf Hb Ho Hbne Hone)
    as (_ & _ & Hx & _ & Hs & Hi).
  done.
Qed.

Lemma if_else_two_way_witness :
  wf started
  ∧ forallb is_simple [Assign ["y"] "1"] = true
  ∧ forallb is_simple [Assign ["y"] "2"] = true
  ∧ [Assign ["y"] "1"] ≠ [] ∧ [Assign ["y"] "2"] ≠ []
  ∧ succs_of (nodes (visit (If "x > 0" [Assign ["y"] "1"] [Assign ["y"] "2"])
                       started)) 1
    = [(2, "True"); (3, "False")]
  ∧ info_of (nodes (visit (If "x > 0" [Assign ["y"] "1"] [Assign ["y"] "2"])
                      started)) 1
    = Some (1, "x > 0", "decision", Some "x > 0")
  ∧ current_exits (visit (If "x > 0" [Assign ["y"] "1"] [Assign ["y"] "2"])
                     started)
    = {[2]} ∪ {[3]}.
Proof.
  assert (wf started) as H by (repeat split; reflexivity).
  split; [exact H|]. split; [reflexivity|]. split; [reflexivity|].
  split; [discriminate|]. split; [discriminate|].
  exact (if_else_two_way "x > 0" [Assign ["y"] "1"] [Assign ["y"] "2"] started
           H eq_refl eq_refl ltac:(discriminate) ltac:(discriminate)).
Defined.

Lemma simple_no_decisions l :
  forallb is_simple l = true → sum_list_with decisions l = 0.
Proof.
  induction l as [|s l IH]; [done|]. simpl.
  intros [Hs Hl]%andb_true_iff. rewrite IH by done.
  by destruct s.
Qed.

Lemma cyclomatic_from_counts g n e :
  node_count g = n → edge_count g = e → n ≠ 0 →
  calculate_cyclomatic_complexity g = Z.max (Z.of_nat e - Z.of_nat n + 2) 1.
Proof.
  intros <- <- Hn. apply cyclomatic_of_nonempty. by intros ->.
Qed.

(** X17: a program consisting of one [if]/[else] whose branches are
    non-empty runs of straight-line statements has as many edges as
    nodes, so its cyclomatic complexity is 2, equal to its decision
    complexity. *)
Theorem if_else_program_complexity (test : string) (body orelse : list ast) :
  forallb is_simple body = true → forallb is_simple orelse = true →
  body ≠ [] → orelse ≠ [] →
  node_count (create_flowchart_cfg [If test body orelse])
  = length body + length orelse + 3
  ∧ edge_count (create_flowchart_cfg [If test body orelse])
    = length body + length orelse + 3
  ∧ calculate_cyclomatic_complexity (create_flowchart_cfg [If test body orelse])
    = 2%Z
  ∧ calculate_complexity_by_decisions (create_flowchart_cfg [If test body orelse])
    = 2%Z.
Proof.
  intros Hb Ho Hbne Hone.
  destruct (if_else_state test body orelse started wf_started Hb Ho Hbne Hone)
    as (Hwf & Hn & Hx & HE & _ & _).
  change (current_node_id started) with 1 in *.
  change (edge_count (nodes started)) with 0 in HE.
  change (size (current_exits started)) with 1 in HE.
  assert (length orelse ≠ 0) as Hlo by (by destruct orelse).
  assert (node_count (create_flowchart_cfg [If test body orelse])
          = length body + length orelse + 3) as HN.
  { rewrite node_count_of_build.
    change (visit_statements [If test body orelse] started)
      with (visit (If test body orelse) started).
    rewrite Hn. lia. }
  assert (edge_count (create_flowchart_cfg [If test body orelse])
          = length body + length orelse + 3) as HEc.
  { unfold create_flowchart_cfg. rewrite visit_Module_eq.
    change (visit_statements [If test body orelse] started)
      with (visit (If test body orelse) started).
    rewrite edge_count_connect_exact by done.
    rewrite Hx, size_union, !size_singleton, HE; [lia|].
    intros x. rewrite !elem_of_singleton. lia. }
  split; [exact HN|]. split; [exact HEc|]. split.
  - rewrite (cyclomatic_from_counts _ _ _ HN HEc); lia.
  - unfold calculate_complexity_by_decisions. rewrite decision_count_of_build.
    simpl. by rewrite !simple_no_decisions.
Qed.

Lemma if_else_program_complexity_witness :
  forallb is_simple [Assign ["y"] "1"] = true
  ∧ forallb is_simple [Assign ["y"] "2"] = true
  ∧ [Assign ["y"] "1"] ≠ [] ∧ [Assign ["y"] "2"] ≠ []
  ∧ node_count (create_flowchart_cfg scenario_B) = 5
  ∧ edge_count (create_flowchart_cfg scenario_B) = 5
  ∧ calculate_cyclomatic_complexity (create_flowchart_cfg scenario_B) = 2%Z
  ∧ calculate_complexity_by_decisions (create_flowchart_cfg scenario_B) = 2%Z.
Proof.
  split; [reflexivity|]. split; [reflexivity|].
  split; [discriminate|]. split; [discriminate|].
  exact (if_else_program_complexity "x > 0" [Assign ["y"] "1"]
           [Assign ["y"] "2"] eq_refl eq_refl
           ltac:(discriminate) ltac:(discriminate)).
Defined.

(** ** Loops with a straight-line body *)

(** What [visit_While] and [visit_For] share: the decision, the body,
    the back-edge and the reset of the open exits. *)
Lemma loop_core text body self :
  wf self → forallb is_simple body = true → body ≠ [] →
  ∀ self2,
    self2 = visit_statements body
              (set_exits {[current_node_id self]}
                 (connect_exits_to_node (current_node_id self)
                    (create_node text "decision" (Some text) self).2)) →
    wf (set_exits {[current_node_id self]}
          (add_edges_from (elements (current_exits self2))
             (current_node_id self) self2))
    ∧ current_node_id self2 = S (current_node_id self) + length body
    ∧ edge_count (nodes (add_edges_from (elements (current_exits self2))
                           (current_node_id self) self2))
      = edge_count (nodes self) + size (current_exits self) + length body + 1
    ∧ succs_of (nodes (add_edges_from (elements (current_exits self2))
                         (current_node_id self) self2)) (current_node_id self)
      = [(S (current_node_id self), "")]
    ∧ succs_of (nodes (add_edges_from (elements (current_exits self2))
                         (current_node_id self) self2))
        (current_node_id self + length body)
      = [(current_node_id self, "")]
    ∧ info_of (nodes (add_edges_from (elements (current_exits self2))
                        (current_node_id self) self2)) (current_node_id self)
      = Some (current_node_id self, text, "decision", Some text).
Proof.
  intros Hwf Hb Hbne self2 ->.
  pose proof (wf_create_connect text "decision" (Some text) self Hwf) as Hwf1.
  pose proof (edge_count_connect_exact text "decision" (Some text) self Hwf) as HE1.
  pose proof (succs_fresh_decision text "decision" (Some text) self Hwf) as Hs1.
  pose proof (info_create_connect_new text "decision" (Some text) self
                (proj1 (proj1 Hwf))) as Hi1.
  change (set_exits {[current_node_id self]}
            (connect_exits_to_node (current_node_id self)
               (create_node text "decision" (Some text) self).2))
    with (connect_exits_to_node (current_node_id self)
            (create_node text "decision" (Some text) self).2).
  assert (current_node_id
            (connect_exits_to_node (current_node_id self)
               (create_node text "decision" (Some text) self).2)
          = S (current_node_id self)) as Hn1 by by rewrite connect_id.
  assert (current_exits
            (connect_exits_to_node (current_node_id self)
               (create_node text "decision" (Some text) self).2)
          = {[current_node_id self]}) as Hx1 by done.
  assert (∀ u, current_node_id self < u →
            succs_of (nodes (connect_exits_to_node (current_node_id self)
                               (create_node text "decision" (Some text) self).2)) u
            = []) as Habs.
  { intros u Hu. apply succs_absent; [apply Hwf1|]. rewrite Hn1. lia. }
  revert Hn1 Hx1 Hwf1 HE1 Hs1 Hi1 Habs.
  generalize (connect_exits_to_node (current_node_id self)
                (create_node text "decision" (Some text) self).2).
  intros self1 Hn1 Hx1 Hwf1 HE1 Hs1 Hi1 Habs.
  destruct (chain_of_simple body Hb self1 (current_node_id self) Hwf1 Hx1)
    as (Hwf2 & Hn2 & Hx2 & HE2 & Hs2).
  pose proof (info_visit_statements body (current_node_id self) self1
                (proj1 (proj1 Hwf1)) ltac:(lia)) as Hi2.
  revert Hwf2 Hn2 Hx2 HE2 Hs2 Hi2.
  generalize (visit_statements body self1). intros self2 Hwf2 Hn2 Hx2 HE2 Hs2 Hi2.
  assert (length body ≠ 0) as Hlb by (by destruct body).
  assert (current_exits self2 = {[current_node_id self + length body]}) as Hx2'.
  { rewrite Hx2. f_equal. destruct body; [done|]. simpl. lia. }
  rewrite Hx2', elements_singleton.
  change (add_edges_from [?e] ?t ?b) with (add_edge e t "" b).
  pose proof (proj1 (proj1 Hwf2)) as Hd2.
  assert (Dict.mem (current_node_id self + length body) (nodes self2) = true)
    as Hm1 by (rewrite (dense_mem _ _ Hd2); apply Nat.ltb_lt; lia).
  assert (Dict.mem (current_node_id self) (nodes self2) = true)
    as Hm2 by (rewrite (dense_mem _ _ Hd2); apply Nat.ltb_lt; lia).
  split.
  { apply wf_set_exits_one; [|rewrite add_edge_id; lia].
    split; [by apply sound_add_edge, Hwf2|].
    apply exits_exist_spec. intros e. rewrite add_edge_exits, add_edge_id.
    destruct Hwf2 as [_ He2]. rewrite exits_exist_spec in He2. apply He2. }
  split; [rewrite Hn2, Hn1; lia|].
  split; [rewrite edge_count_add_edge, Hm1, Hm2 by done; simpl; lia|].
  split.
  { rewrite succs_add_edge, Hs2, Hs1, chain_edge_entry by lia.
    rewrite Hn1. destruct (Nat.eqb_spec (current_node_id self + length body)
                             (current_node_id self)); [lia|]. done. }
  split.
  { rewrite succs_add_edge, Hs2, Nat.eqb_refl, Hm1, Hm2, Habs by lia.
    rewrite Hn1. unfold chain_edge. nat_tests. }
  rewrite info_add_edge, Hi2. exact Hi1.
Qed.

(** X18: after [visit_While] or [visit_For] on a loop whose body is a
    non-empty run of straight-line statements, the decision has a single
    outgoing edge, to the first node of the body; the last node of the
    body has a single outgoing edge, the unlabelled back-edge to the
    decision; and the decision is the only open exit. *)
Theorem loop_structure (test target iter : string) (body orelse : list ast)
    (self : Builder) :
  wf self → forallb is_simple body = true → body ≠ [] →
  (map fst (succs_of (nodes (visit (While test body orelse) self))
              (current_node_id self)) = [S (current_node_id self)]
   ∧ succs_of (nodes (visit (While test body orelse) self))
       (current_node_id self + length body) = [(current_node_id self, "")]
   ∧ current_exits (visit (While test body orelse) self)
     = {[current_node_id self]}
   ∧ info_of (nodes (visit (While test body orelse) self)) (current_node_id self)
     = Some (current_node_id self, test, "decision", Some test))
  ∧ (succs_of (nodes (visit (For target iter body orelse) self))
       (current_node_id self) = [(S (current_node_id self), "")]
     ∧ succs_of (nodes (visit (For target iter body orelse) self))
         (current_node_id self + length body) = [(current_node_id self, "")]
     ∧ current_exits (visit (For target iter body orelse) self)
       = {[current_node_id self]}
     ∧ info_of (nodes (visit (For target iter body orelse) self))
         (current_node_id self)
       = Some (current_node_id self, "for " +:+ target +:+ " in " +:+ iter,
               "decision", Some ("for " +:+ target +:+ " in " +:+ iter))).
Proof.
  intros Hwf Hb Hbne. split.
  - rewrite visit_While_eq; cbv zeta.
    destruct (loop_core test body self Hwf Hb Hbne _ eq_refl)
      as (Hwf' & Hn & HE & Hs & Hlast & Hi).
    assert (length body ≠ 0) as Hlb by (by destruct body).
    change (nodes (relabel ?f ?d (set_exits ?F ?b))) with (nodes (relabel f d b)).
    split; [|split; [|split]].
    + rewrite succs_relabel, Nat.eqb_refl, Hs.
      destruct (Dict.mem _ _); cbn [andb];
        [by rewrite while_relabel_targets | done].
    + rewrite succs_relabel.
      destruct (Nat.eqb_spec (current_node_id self)
                  (current_node_id self + length body)); [lia|]. exact Hlast.
    + done.
    + by rewrite info_relabel.
  - rewrite visit_For_eq; cbv zeta.
    destruct (loop_core ("for " +:+ target +:+ " in " +:+ iter) body self
                Hwf Hb Hbne _ eq_refl)
      as (Hwf' & Hn & HE & Hs & Hlast & Hi).
    done.
Qed.

Lemma loop_structure_witness :
  wf started ∧ forallb is_simple [Assign ["x"] "x - 1"] = true
  ∧ [Assign ["x"] "x - 1"] ≠ []
  ∧ (map fst (succs_of (nodes (visit (While "x > 0" [Assign ["x"] "x - 1"] [])
                                 started)) 1) = [2]
     ∧ succs_of (nodes (visit (While "x > 0" [Assign ["x"] "x - 1"] [])
                          started)) 2 = [(1, "")]
     ∧ current_exits (visit (While "x > 0" [Assign ["x"] "x - 1"] []) started)
       = {[1]}
     ∧ info_of (nodes (visit (While "x > 0" [Assign ["x"] "x - 1"] [])
                         started)) 1
       = Some (1, "x > 0", "decision", Some "x > 0"))
  ∧ (succs_of (nodes (visit (For "i" "xs" [Assign ["x"] "x - 1"] [])
                        started)) 1 = [(2, "")]
     ∧ succs_of (nodes (visit (For "i" "xs" [Assign ["x"] "x - 1"] [])
                          started)) 2 = [(1, "")]
     ∧ current_exits (visit (For "i" "xs" [Assign ["x"] "x - 1"] []) started)
       = {[1]}
     ∧ info_of (nodes (visit (For "i" "xs" [Assign ["x"] "x - 1"] [])
                         started)) 1
       = Some (1, "for i in xs", "decision", Some "for i in xs")).
Proof.
  assert (wf started) as H by (repeat split; reflexivity).
  split; [exact H|]. split; [reflexivity|]. split; [discriminate|].
  exact (loop_structure "x > 0" "i" "xs" [Assign ["x"] "x - 1"] [] started
           H eq_refl ltac:(discriminate)).
Defined.

(** X19: a program consisting of one [while] or [for] loop whose body
    is a non-empty run of straight-line statements has as many edges as
    nodes, so its cyclomatic complexity is 2. *)
Theorem loop_program_complexity (test target iter : string)
    (body orelse : list ast) :
  forallb is_simple body = true → body ≠ [] →
  (node_count (create_flowchart_cfg [While test body orelse]) = length body + 3
   ∧ edge_count (create_flowchart_cfg [While test body orelse]) = length body + 3
   ∧ calculate_cyclomatic_complexity
       (create_flowchart_cfg [While test body orelse]) = 2%Z)
  ∧ (node_count (create_flowchart_cfg [For target iter body orelse])
     = length body + 3
     ∧ edge_count (create_flowchart_cfg [For target iter body orelse])
       = length body + 3
     ∧ calculate_cyclomatic_complexity
         (create_flowchart_cfg [For target iter body orelse]) = 2%Z).
Proof.
  intros Hb Hbne. split.
  - destruct (loop_core test body started wf_started Hb Hbne _ eq_refl)
      as (Hwf & Hn & HE & _).
    assert (wf (visit (While test body orelse) started)) as Hwf'.
    { rewrite visit_While_eq; cbv zeta. destruct Hwf as [Hs He].
      split; [by apply sound_relabel_while|exact He]. }
    assert (node_count (create_flowchart_cfg [While test body orelse])
            = length body + 3) as HN.
    { rewrite node_count_of_build.
      change (visit_statements [While test body orelse] started)
        with (visit (While test body orelse) started).
      rewrite visit_While_eq; cbv zeta.
      change (current_node_id (relabel ?f ?d (set_exits ?F ?b)))
        with (current_node_id b).
      rewrite add_edges_from_id, Hn. change (current_node_id started) with 1. lia. }
    assert (edge_count (create_flowchart_cfg [While test body orelse])
            = length body + 3) as HEc.
    { unfold create_flowchart_cfg. rewrite visit_Module_eq.
      change (visit_statements [While test body orelse] started)
        with (visit (While test body orelse) started).
      rewrite edge_count_connect_exact by done.
      rewrite visit_While_eq; cbv zeta.
      rewrite edge_count_relabel_while.
      change (nodes (set_exits ?F ?b)) with (nodes b). rewrite HE.
      change (current_exits (relabel ?f ?d (set_exits ?F ?b))) with F.
      rewrite size_singleton.
      change (edge_count (nodes started)) with 0.
      change (size (current_exits started)) with 1. lia. }
    split; [exact HN|]. split; [exact HEc|].
    rewrite (cyclomatic_from_counts _ _ _ HN HEc); lia.
  - destruct (loop_core ("for " +:+ target +:+ " in " +:+ iter) body started
                wf_started Hb Hbne _ eq_refl) as (Hwf & Hn & HE & _).
    assert (node_count (create_flowchart_cfg [For target iter body orelse])
            = length body + 3) as HN.
    { rewrite node_count_of_build.
      change (visit_statements [For target iter body orelse] started)
        with (visit (For target iter body orelse) started).
      rewrite visit_For_eq; cbv zeta.
      change (current_node_id (set_exits ?F ?b)) with (current_node_id b).
      rewrite add_edges_from_id, Hn. change (current_node_id started) with 1. lia. }
    assert (edge_count (create_flowchart_cfg [For target iter body orelse])
            = length body + 3) as HEc.
    { unfold create_flowchart_cfg. rewrite visit_Module_eq.
      change (visit_statements [For target iter body orelse] started)
        with (visit (For target iter body orelse) started).
      rewrite visit_For_eq; cbv zeta.
      rewrite edge_count_connect_exact by done.
      change (nodes (set_exits ?F ?b)) with (nodes b). rewrite HE.
      change (current_exits (set_exits ?F ?b)) with F.
      rewrite size_singleton.
      change (edge_count (nodes started)) with 0.
      change (size (current_exits started)) with 1. lia. }
    split; [exact HN|]. split; [exact HEc|].
    rewrite (cyclomatic_from_counts _ _ _ HN HEc); lia.
Qed.

Lemma loop_program_complexity_witness :
  forallb is_simple [Assign ["x"] "x - 1"] = true ∧ [Assign ["x"] "x - 1"] ≠ []
  ∧ (node_count (create_flowchart_cfg scenario_C) = 4
     ∧ edge_count (create_flowchart_cfg scenario_C) = 4
     ∧ calculate_cyclomatic_complexity (create_flowchart_cfg scenario_C) = 2%Z)
  ∧ (node_count (create_flowchart_cfg [For "i" "xs" [Assign ["x"] "x - 1"] []]) = 4
     ∧ edge_count (create_flowchart_cfg [For "i" "xs" [Assign ["x"] "x - 1"] []]) = 4
     ∧ calculate_cyclomatic_complexity
         (create_flowchart_cfg [For "i" "xs" [Assign ["x"] "x - 1"] []]) = 2%Z).
Proof.
  split; [reflexivity|]. split; [discriminate|].
  exact (loop_program_complexity "x > 0" "i" "xs" [Assign ["x"] "x - 1"] []
           eq_refl ltac:(discriminate)).
Defined.

(** ** Function definitions *)

(** X20: a function definition without a [return] among its direct
    statements gets a Start node labelled "def name(params)" and, after
    its body, one synthesized Output node labelled "return None"; that
    node has no outgoing edge and is the only open exit afterwards. *)
Theorem function_implicit_return (name : string) (params : list string)
    (body : list ast) (self : Builder) :
  wf self → existsb is_Return body = false →
  info_of (nodes (visit (FunctionDef name params body) self))
    (current_node_id self)
  = Some (current_node_id self,
          "def " +:+ name +:+ "(" +:+ PyStr.join ", " params +:+ ")",
          "start", None)
  ∧ info_of (nodes (visit (FunctionDef name params body) self))
      (current_node_id (visit (FunctionDef name params body) self) - 1)
    = Some (current_node_id (visit (FunctionDef name params body) self) - 1,
            "return None", "output", None)
  ∧ current_exits (visit (FunctionDef name params body) self)
    = {[current_node_id (visit (FunctionDef name params body) self) - 1]}
  ∧ succs_of (nodes (visit (FunctionDef name params body) self))
      (current_node_id (visit (FunctionDef name params body) self) - 1)
    = [].
Proof.
  intros Hwf Hret. rewrite visit_FunctionDef_eq; cbv zeta. rewrite Hret.
  assert (wf (set_function_name name self)) as Hwf0 by exact Hwf.
  pose proof (wf_create_connect
                ("def " +:+ name +:+ "(" +:+ PyStr.join ", " params +:+ ")")
                "start" None (set_function_name name self) Hwf0) as Hwf1.
  pose proof (info_create_connect_new
                ("def " +:+ name +:+ "(" +:+ PyStr.join ", " params +:+ ")")
                "start" None (set_function_name name self)
                (proj1 (proj1 Hwf0))) as Hi1.
  assert (current_node_id
            (connect_exits_to_node (current_node_id self)
               (create_node
                  ("def " +:+ name +:+ "(" +:+ PyStr.join ", " params +:+ ")")
                  "start" None (set_function_name name self)).2)
          = S (current_node_id self)) as Hn1 by by rewrite connect_id.
  change (current_node_id (set_function_name name self))
    with (current_node_id self) in *.
  revert Hwf1 Hi1 Hn1.
  generalize (connect_exits_to_node (current_node_id self)
                (create_node
                   ("def " +:+ name +:+ "(" +:+ PyStr.join ", " params +:+ ")")
                   "start" None (set_function_name name self)).2).
  intros self1 Hwf1 Hi1 Hn1.
  pose proof (wf_visit_statements body self1 Hwf1) as Hwf2.
  pose proof (info_visit_statements body (current_node_id self) self1
                (proj1 (proj1 Hwf1)) ltac:(lia)) as Hi2.
  pose proof (visit_statements_id_mono body self1) as Hm2.
  revert Hwf2 Hi2 Hm2. generalize (visit_statements body self1).
  intros self2 Hwf2 Hi2 Hm2.
  replace (current_node_id
             (connect_exits_to_node (current_node_id self2)
                (create_node "return None" "output" None self2).2) - 1)
    with (current_node_id self2) by (rewrite connect_id, create_next; lia).
  split.
  { rewrite info_create_connect_old by (apply Hwf2 || lia).
    by rewrite Hi2. }
  split; [apply info_create_connect_new, Hwf2|].
  split; [done|]. by apply succs_fresh_decision.
Qed.

Lemma function_implicit_return_witness :
  wf started ∧ existsb is_Return [Assign ["x"] "1"] = false
  ∧ info_of (nodes (visit (FunctionDef "f" ["a"; "b"] [Assign ["x"] "1"]) started)) 1
    = Some (1, "def f(a, b)", "start", None)
  ∧ info_of (nodes (visit (FunctionDef "f" ["a"; "b"] [Assign ["x"] "1"]) started))
      (current_node_id
         (visit (FunctionDef "f" ["a"; "b"] [Assign ["x"] "1"]) started) - 1)
    = Some (current_node_id
              (visit (FunctionDef "f" ["a"; "b"] [Assign ["x"] "1"]) started) - 1,
            "return None", "output", None)
  ∧ current_exits (visit (FunctionDef "f" ["a"; "b"] [Assign ["x"] "1"]) started)
    = {[current_node_id
          (visit (FunctionDef "f" ["a"; "b"] [Assign ["x"] "1"]) started) - 1]}
  ∧ succs_of (nodes (visit (FunctionDef "f" ["a"; "b"] [Assign ["x"] "1"]) started))
      (current_node_id
         (visit (FunctionDef "f" ["a"; "b"] [Assign ["x"] "1"]) started) - 1)
    = [].
Proof.
  assert (wf started) as H by (repeat split; reflexivity).
  split; [exact H|]. split; [reflexivity|].
  exact (function_implicit_return "f" ["a"; "b"] [Assign ["x"] "1"] started
           H eq_refl).
Defined.

(** ** Statistics shown next to the chart *)

Lemma node_types_fold g ty :
  ∀ m : gmap string nat,
    default 0
      (fold_left (λ (m : gmap string nat) (kv : nat * CFGNode),
                    <[node_type kv.2 := default 0 (m !! node_type kv.2) + 1]> m)
                 g m !! ty)
    = default 0 (m !! ty) + count_kind ty (kinds g).
Proof.
  induction g as [|[k n] g IH]; intros m.
  - simpl. unfold count_kind. simpl. lia.
  - cbn [fold_left]. rewrite IH. cbn [snd].
    unfold kinds, count_kind. rewrite map_cons, filter_cons. cbn [snd].
    rewrite lookup_insert.
    destruct (decide (node_type n = ty)) as [->|Hne]; simpl; lia.
Qed.

(** X21: the per-kind counter computed for the statistics panel holds,
    for every kind, the number of nodes of that kind; hence the number
    shown as decision points plus one is the decision complexity, and a
    kind that does not occur reads as 0. *)
Theorem node_types_counts (g : Graph) (ty : string) :
  node_types_get g ty = count_kind ty (kinds g)
  ∧ calculate_complexity_by_decisions g
    = (Z.of_nat (node_types_get g "decision") + 1)%Z.
Proof.
  unfold node_types_get, node_types.
  rewrite !node_types_fold, !lookup_empty. simpl. split; [done|].
  unfold calculate_complexity_by_decisions. by rewrite decision_count_kinds.
Qed.

(** ** Edge labels *)

Lemma labels_ok_alter (f : CFGNode → CFGNode) k g :
  (∀ n, Forall (λ e : nat * string, e.2 ∈ [""; "True"; "False"]) (successors n) →
        Forall (λ e : nat * string, e.2 ∈ [""; "True"; "False"]) (successors (f n))) →
  labels_ok g → labels_ok (Dict.alter f k g).
Proof.
  intros Hf. unfold labels_ok, Dict.alter. rewrite !Forall_forall.
  intros H kv Hin. apply list_elem_of_fmap in Hin as ([k' n] & -> & Hin).
  specialize (H _ Hin). simpl in *.
  destruct (Nat.eqb k k'); simpl; [by apply Hf | done].
Qed.

Lemma labels_ok_create lbl ty c self :
  labels_ok (nodes self) → labels_ok (nodes (create_node lbl ty c self).2).
Proof.
  intros H. simpl. unfold Dict.set. destruct (Dict.mem _ _).
  - apply labels_ok_alter; [|done]. intros n _. simpl. apply Forall_nil_2.
  - apply Forall_app. split; [done|]. apply Forall_singleton. simpl.
    apply Forall_nil_2.
Qed.

Lemma labels_ok_add_edge a t self :
  labels_ok (nodes self) → labels_ok (nodes (add_edge a t "" self)).
Proof.
  intros H. unfold add_edge. destruct (_ && _); [|done]. simpl.
  apply labels_ok_alter; [done|]. apply labels_ok_alter; [|done].
  intros n Hn. simpl. apply Forall_app. split; [done|].
  apply Forall_singleton. simpl. set_solver.
Qed.

Lemma labels_ok_relabel_if d self :
  labels_ok (nodes self) → labels_ok (nodes (relabel if_relabel d self)).
Proof.
  intros H. simpl. apply labels_ok_alter; [|done]. intros n _. simpl.
  rewrite if_relabel_closed.
  destruct (filter _ (successors n)) as [|e r]; [apply Forall_nil_2|].
  apply Forall_cons. split; [simpl; set_solver|].
  apply Forall_forall. intros x Hx.
  apply list_elem_of_fmap in Hx as (y & -> & _). simpl. set_solver.
Qed.

Lemma labels_ok_relabel_while d self :
  labels_ok (nodes self) → labels_ok (nodes (relabel (while_relabel d) d self)).
Proof.
  intros H. simpl. apply labels_ok_alter; [|done]. intros n _. simpl.
  unfold while_relabel. apply Forall_forall. intros x Hx.
  apply list_elem_of_fmap in Hx as (y & -> & _).
  destruct (Nat.eqb y.1 d); simpl; set_solver.
Qed.

(** ** Invariants that look at labels

    The visitors only ever draw unlabelled edges, and only relabel the
    decision node they have created themselves. *)

Section PreservationFresh.
Variable J : Builder → Prop.
Hypothesis J_create : ∀ self lbl ty c, J self → J (create_node lbl ty c self).2.
Hypothesis J_edge : ∀ self0 self a,
  J self0 → J self → J (add_edge a (current_node_id self0) "" self).
Hypothesis J_exits : ∀ self F, J self → J (set_exits F self).
Hypothesis J_name : ∀ self f, J self → J (set_function_name f self).
Hypothesis J_relabel_if : ∀ self0 self,
  J self0 → J self → J (relabel if_relabel (current_node_id self0) self).
Hypothesis J_relabel_while : ∀ self0 self,
  J self0 → J self →
  J (relabel (while_relabel (current_node_id self0)) (current_node_id self0) self).

Lemma add_edges_from_preserves_fresh self0 exits self :
  J self0 → J self → J (add_edges_from exits (current_node_id self0) self).
Proof using J_edge.
  intros H0. revert self. induction exits as [|e exits IH]; intros self H; [done|].
  rewrite add_edges_from_cons. apply IH. by apply J_edge.
Qed.

Lemma create_connect_preserves_fresh lbl ty c self :
  J self →
  J (connect_exits_to_node (current_node_id self) (create_node lbl ty c self).2).
Proof using J_create J_edge J_exits.
  intros H. unfold connect_exits_to_node. apply J_exits.
  apply add_edges_from_preserves_fresh; [done|]. by apply J_create.
Qed.

Lemma visit_preserves_fresh s : ∀ self, J self → J (visit s self).
Proof using All.
  induction s as [name params body IHb | test body orelse IHb IHo
                 | test body orelse IHb | target iter body orelse IHb
                 | | | | value | | type_name text children IHc] using ast_ind;
    intros self H.
  - rewrite visit_FunctionDef_eq; cbv zeta.
    assert (J (visit_statements body
                 (connect_exits_to_node (current_node_id self)
                    (create_node ("def " +:+ name +:+ "(" +:+ PyStr.join ", " params +:+ ")")
                       "start" None (set_function_name name self)).2))) as H2.
    { apply visit_statements_preserves; [exact IHb|].
      apply (create_connect_preserves_fresh _ _ _ (set_function_name name self)).
      by apply J_name. }
    destruct (existsb is_Return body); [done|].
    by apply create_connect_preserves_fresh.
  - rewrite visit_If_eq; cbv zeta.
    apply J_exits, J_relabel_if; [done|].
    apply visit_statements_preserves; [exact IHo|]. apply J_exits.
    apply visit_statements_preserves; [exact IHb|]. apply J_exits.
    by apply create_connect_preserves_fresh.
  - rewrite visit_While_eq; cbv zeta.
    apply J_relabel_while; [done|]. apply J_exits.
    apply add_edges_from_preserves_fresh; [done|].
    apply visit_statements_preserves; [exact IHb|]. apply J_exits.
    by apply create_connect_preserves_fresh.
  - rewrite visit_For_eq; cbv zeta.
    apply J_exits. apply add_edges_from_preserves_fresh; [done|].
    apply visit_statements_preserves; [exact IHb|]. apply J_exits.
    by apply create_connect_preserves_fresh.
  - simpl. unfold visit_Return. apply J_exits.
    by apply create_connect_preserves_fresh.
  - by apply create_connect_preserves_fresh.
  - by apply create_connect_preserves_fresh.
  - destruct value; by apply create_connect_preserves_fresh.
  - by apply J_create.
  - rewrite visit_Other_eq. apply visit_statements_preserves; [exact IHc|].
    unfold generic_node. destruct text as [t|].
    + destruct (0 <? _); [by apply create_connect_preserves_fresh | done].
    + by apply create_connect_preserves_fresh.
Qed.
End PreservationFresh.

Lemma labels_ok_build body : labels_ok (create_flowchart_cfg body).
Proof.
  unfold create_flowchart_cfg. rewrite visit_Module_eq.
  apply (create_connect_preserves_fresh (λ b, labels_ok (nodes b))).
  - intros. by apply labels_ok_create.
  - intros. by apply labels_ok_add_edge.
  - done.
  - apply visit_statements_preserves.
    + apply Forall_forall. intros s _.
      apply (visit_preserves_fresh (λ b, labels_ok (nodes b))).
      * intros. by apply labels_ok_create.
      * intros. by apply labels_ok_add_edge.
      * done.
      * done.
      * intros. by apply labels_ok_relabel_if.
      * intros. by apply labels_ok_relabel_while.
    + unfold started, labels_ok. simpl. apply Forall_singleton. simpl.
      apply Forall_nil_2.
Qed.

(** X22: in a completed graph every edge is unlabelled or labelled
    "True" or "False"; the exporter therefore never writes another edge
    label. *)
Theorem edge_labels_of_build (body : list ast) (u t : nat) (l : string) :
  (t, l) ∈ succs_of (create_flowchart_cfg body) u →
  l = "" ∨ l = "True" ∨ l = "False".
Proof.
  intros Hin. pose proof (labels_ok_build body) as H.
  unfold labels_ok in H. rewrite Forall_forall in H. unfold succs_of in Hin.
  destruct (Dict.get u (create_flowchart_cfg body)) as [n|] eqn:Hg;
    [|by apply elem_of_nil in Hin].
  apply get_Some_elem in Hg. specialize (H _ Hg). simpl in H.
  rewrite Forall_forall in H. specialize (H _ Hin). simpl in H.
  repeat (apply elem_of_cons in H as [->|H]; [auto|]).
  by apply elem_of_nil in H.
Qed.

Lemma edge_labels_of_build_witness :
  (2, "True") ∈ succs_of (create_flowchart_cfg scenario_B) 1
  ∧ ("True" = "" ∨ "True" = "True" ∨ "True" = "False").
Proof.
  assert ((2, "True") ∈ succs_of (create_flowchart_cfg scenario_B) 1) as H
    by (vm_compute; apply list_elem_of_here).
  split; [exact H|]. exact (edge_labels_of_build scenario_B 1 2 "True" H).
Defined.

(** ** Relabelling a conditional loses no edge *)

Lemma unlabelled_fresh lbl ty c self :
  dense self →
  unlabelled_at (current_node_id self)
    (connect_exits_to_node (current_node_id self) (create_node lbl ty c self).2).
Proof.
  intros Hd. unfold unlabelled_at. rewrite connect_nodes.
  rewrite succs_add_edges_from by apply NoDup_elements.
  rewrite succs_create, succs_absent by (done || lia).
  simpl. destruct (_ && _); [|done]. by apply Forall_singleton.
Qed.

Lemma unlabelled_visit k s self :
  dense self ∧ k < current_node_id self ∧ unlabelled_at k self →
  dense (visit s self) ∧ k < current_node_id (visit s self)
  ∧ unlabelled_at k (visit s self).
Proof.
  apply (visit_preserves_fresh
           (λ b, dense b ∧ k < current_node_id b ∧ unlabelled_at k b)); clear s self.
  - intros self lbl ty c (Hd & Hk & Hu).
    split; [by apply dense_create|]. split; [rewrite create_next; lia|].
    unfold unlabelled_at. by rewrite succs_create.
  - intros self0 self a _ (Hd & Hk & Hu).
    split; [by apply dense_add_edge|]. split; [by rewrite add_edge_id|].
    unfold unlabelled_at. rewrite succs_add_edge. apply Forall_app.
    split; [done|]. destruct (_ && _); [by apply Forall_singleton | done].
  - done.
  - done.
  - intros self0 self (_ & Hk0 & _) (Hd & Hk & Hu).
    split; [by apply dense_relabel|]. split; [done|].
    unfold unlabelled_at. rewrite succs_relabel.
    destruct (Nat.eqb_spec (current_node_id self0) k); [lia|]. done.
  - intros self0 self (_ & Hk0 & _) (Hd & Hk & Hu).
    split; [by apply dense_relabel|]. split; [done|].
    unfold unlabelled_at. rewrite succs_relabel.
    destruct (Nat.eqb_spec (current_node_id self0) k); [lia|]. done.
Qed.

Lemma unlabelled_visit_statements k l self :
  dense self ∧ k < current_node_id self ∧ unlabelled_at k self →
  dense (visit_statements l self) ∧ k < current_node_id (visit_statements l self)
  ∧ unlabelled_at k (visit_statements l self).
Proof.
  apply (visit_statements_preserves
           (λ b, dense b ∧ k < current_node_id b ∧ unlabelled_at k b)).
  apply Forall_forall. intros s _ b. apply unlabelled_visit.
Qed.

Section PreservationUnlabelled.
Variable J : Builder → Prop.
Hypothesis J_dense : ∀ self, J self → dense self.
Hypothesis J_create : ∀ self lbl ty c, J self → J (create_node lbl ty c self).2.
Hypothesis J_edge : ∀ self a t, J self → J (add_edge a t "" self).
Hypothesis J_exits : ∀ self F, J self → J (set_exits F self).
Hypothesis J_name : ∀ self f, J self → J (set_function_name f self).
Hypothesis J_relabel_if : ∀ self d,
  J self → unlabelled_at d self → J (relabel if_relabel d self).
Hypothesis J_relabel_while : ∀ self d,
  J self → J (relabel (while_relabel d) d self).

Lemma visit_preserves_unlabelled s : ∀ self, J self → J (visit s self).
Proof using All.
  assert (∀ self lbl ty c, J self →
            J (connect_exits_to_node (current_node_id self)
                 (create_node lbl ty c self).2)) as Hcc.
  { intros self lbl ty c H.
    apply (create_connect_preserves_fresh J); auto. }
  assert (∀ self exits t, J self → J (add_edges_from exits t self)) as Hadd.
  { intros self exits t. revert self.
    induction exits as [|e exits IH]; intros self H; [done|].
    rewrite add_edges_from_cons. by apply IH, J_edge. }
  induction s as [name params body IHb | test body orelse IHb IHo
                 | test body orelse IHb | target iter body orelse IHb
                 | | | | value | | type_name text children IHc] using ast_ind;
    intros self H.
  - rewrite visit_FunctionDef_eq; cbv zeta.
    assert (J (visit_statements body
                 (connect_exits_to_node (current_node_id self)
                    (create_node ("def " +:+ name +:+ "(" +:+ PyStr.join ", " params +:+ ")")
                       "start" None (set_function_name name self)).2))) as H2.
    { apply visit_statements_preserves; [exact IHb|].
      apply (Hcc (set_function_name name self)). by apply J_name. }
    destruct (existsb is_Return body); [done|]. by apply Hcc.
  - rewrite visit_If_eq; cbv zeta.
    pose proof (Hcc self test "decision" (Some test) H) as H1.
    pose proof (unlabelled_fresh test "decision" (Some test) self (J_dense _ H))
      as Hu1.
    assert (current_node_id self
            < current_node_id
                (connect_exits_to_node (current_node_id self)
                   (create_node test "decision" (Some test) self).2)) as Hk1
      by (rewrite connect_id, create_next; lia).
    revert H1 Hu1 Hk1.
    change (set_exits {[current_node_id self]}
              (connect_exits_to_node (current_node_id self)
                 (create_node test "decision" (Some test) self).2))
      with (connect_exits_to_node (current_node_id self)
              (create_node test "decision" (Some test) self).2).
    generalize (connect_exits_to_node (current_node_id self)
                  (create_node test "decision" (Some test) self).2).
    intros self1 H1 Hu1 Hk1.
    pose proof (visit_statements_preserves J body IHb self1 H1) as H2.
    pose proof (unlabelled_visit_statements (current_node_id self) body self1
                  (conj (J_dense _ H1) (conj Hk1 Hu1))) as (Hd2 & Hk2 & Hu2).
    revert H2 Hd2 Hk2 Hu2. generalize (visit_statements body self1).
    intros self2 H2 Hd2 Hk2 Hu2.
    pose proof (visit_statements_preserves J orelse IHo
                  (set_exits {[current_node_id self]} self2)
                  (J_exits _ _ H2)) as H3.
    pose proof (unlabelled_visit_statements (current_node_id self) orelse
                  (set_exits {[current_node_id self]} self2)
                  (conj Hd2 (conj Hk2 Hu2))) as (_ & _ & Hu3).
    apply J_exits. by apply J_relabel_if.
  - rewrite visit_While_eq; cbv zeta.
    apply J_relabel_while, J_exits, Hadd.
    apply visit_statements_preserves; [exact IHb|]. apply J_exits. by apply Hcc.
  - rewrite visit_For_eq; cbv zeta.
    apply J_exits, Hadd.
    apply visit_statements_preserves; [exact IHb|]. apply J_exits. by apply Hcc.
  - simpl. unfold visit_Return. apply J_exits. by apply Hcc.
  - by apply Hcc.
  - by apply Hcc.
  - destruct value; by apply Hcc.
  - by apply J_create.
  - rewrite visit_Other_eq. apply visit_statements_preserves; [exact IHc|].
    unfold generic_node. destruct text as [t|]; [|by apply Hcc].
    destruct (0 <? _); [by apply Hcc | done].
Qed.
End PreservationUnlabelled.

Lemma filter_unlabelled_all (l : list (nat * string)) :
  Forall (λ e : nat * string, e.2 = "") l →
  filter (λ e, unlabelled e = true) l = l.
Proof.
  induction 1 as [|[t lb] l Hx _ IH]; [done|]. simpl in Hx. subst lb.
  rewrite filter_cons_True by done. by rewrite IH.
Qed.

Lemma preds_have_edges_create lbl ty c self :
  dense self → preds_have_edges (nodes self) →
  preds_have_edges (nodes (create_node lbl ty c self).2).
Proof.
  intros Hd H u t. rewrite preds_create, succs_create by done. apply H.
Qed.

Lemma preds_have_edges_add_edge a t l self :
  preds_have_edges (nodes self) → preds_have_edges (nodes (add_edge a t l self)).
Proof.
  intros H u k. rewrite preds_add_edge, succs_add_edge, map_app, elem_of_app.
  rewrite elem_of_union. intros [Hnew|Hold]; [|left; by apply H].
  destruct (Nat.eqb_spec t k) as [->|]; [|by apply elem_of_empty in Hnew].
  destruct (Dict.mem a (nodes self)), (Dict.mem k (nodes self));
    simpl in Hnew; try by apply elem_of_empty in Hnew.
  apply elem_of_singleton in Hnew as ->. right.
  rewrite Nat.eqb_refl. simpl. apply list_elem_of_here.
Qed.

Lemma preds_have_edges_relabel f d self :
  map fst (f (succs_of (nodes self) d)) = map fst (succs_of (nodes self) d) →
  preds_have_edges (nodes self) → preds_have_edges (nodes (relabel f d self)).
Proof.
  intros Hf H u t. simpl nodes at 1.
  rewrite (preds_alter_succ _ d (nodes self) t) by done.
  intros Hin. specialize (H u t Hin). rewrite succs_relabel.
  destruct (Nat.eqb_spec d u) as [->|]; [|done].
  destruct (Dict.mem u (nodes self)); simpl; [by rewrite Hf | done].
Qed.

Lemma preds_have_edges_visit s self :
  dense self ∧ preds_have_edges (nodes self) →
  dense (visit s self) ∧ preds_have_edges (nodes (visit s self)).
Proof.
  apply (visit_preserves_unlabelled
           (λ b, dense b ∧ preds_have_edges (nodes b))); clear.
  - by intros self [Hd _].
  - intros self lbl ty c [Hd H]. split; [by apply dense_create|].
    by apply preds_have_edges_create.
  - intros self a t [Hd H]. split; [by apply dense_add_edge|].
    by apply preds_have_edges_add_edge.
  - done.
  - done.
  - intros self d [Hd H] Hu. split; [by apply dense_relabel|].
    apply preds_have_edges_relabel; [|done].
    by rewrite if_relabel_targets, filter_unlabelled_all.
  - intros self d [Hd H]. split; [by apply dense_relabel|].
    apply preds_have_edges_relabel; [|done]. apply while_relabel_targets.
Qed.

(** X23: in a completed graph every node recorded as a predecessor of
    [t] still has an edge to [t]: relabelling a conditional drops no
    edge. Together with X7 the predecessor sets are exactly the sets of
    edge sources. *)
Theorem predecessors_have_edges (body : list ast) (u t : nat) :
  u ∈ preds_of (create_flowchart_cfg body) t →
  ∃ l, (t, l) ∈ succs_of (create_flowchart_cfg body) u.
Proof.
  intros Hin.
  assert (preds_have_edges (create_flowchart_cfg body)) as H.
  { unfold create_flowchart_cfg. rewrite visit_Module_eq.
    refine (proj2 (create_connect_preserves_fresh
                     (λ b, dense b ∧ preds_have_edges (nodes b))
                     _ _ _ "END" "end" None _ _)).
    - intros self lbl ty c [Hd H]. split; [by apply dense_create|].
      by apply preds_have_edges_create.
    - intros self0 self a _ [Hd H]. split; [by apply dense_add_edge|].
      by apply preds_have_edges_add_edge.
    - done.
    - apply visit_statements_preserves.
      + apply Forall_forall. intros s _ b. apply preds_have_edges_visit.
      + split; [reflexivity|]. intros x y Hxy. exfalso.
        unfold preds_of, started in Hxy. simpl in Hxy.
        destruct (Nat.eqb y 0); by apply elem_of_empty in Hxy. }
  specialize (H u t Hin).
  apply list_elem_of_fmap in H as ([t' l] & -> & H). by exists l.
Qed.

Lemma predecessors_have_edges_witness :
  1 ∈ preds_of (create_flowchart_cfg scenario_B) 2
  ∧ ∃ l, (2, l) ∈ succs_of (create_flowchart_cfg scenario_B) 1.
Proof.
  assert (1 ∈ preds_of (create_flowchart_cfg scenario_B) 2) as H
    by (vm_compute; reflexivity).
  split; [exact H|]. exact (predecessors_have_edges scenario_B 1 2 H).
Defined.

(** ** Nodes made by [visit_Call] *)

Lemma parked_add_edges_from k exits t self :
  k ∉ exits → parked k self → parked k (add_edges_from exits t self).
Proof.
  revert self. induction exits as [|e exits IH]; intros self Hk H; [done|].
  rewrite add_edges_from_cons. apply not_elem_of_cons in Hk as [Hne Hk].
  apply IH; [done|]. destruct H as (Hlt & Hex & Hs).
  split; [by rewrite add_edge_id|]. split; [by rewrite add_edge_exits|].
  rewrite succs_add_edge, Hs.
  destruct (Nat.eqb_spec e k); [congruence | done].
Qed.

Lemma parked_connect k t self :
  k ≠ t → parked k self → parked k (connect_exits_to_node t self).
Proof.
  intros Hne H.
  assert (k ∉ elements (current_exits self)) as Hk.
  { rewrite elem_of_elements. apply H. }
  destruct (parked_add_edges_from k _ t self Hk H) as (Hlt & _ & Hs).
  split; [by rewrite connect_id, <- (add_edges_from_id (elements (current_exits self)) t)|].
  split; [rewrite connect_exits; by apply not_elem_of_singleton|].
  by rewrite connect_nodes.
Qed.

Lemma parked_create k lbl ty c self :
  dense self → parked k self → parked k (create_node lbl ty c self).2.
Proof.
  intros Hd (Hlt & Hex & Hs).
  split; [rewrite create_next; lia|]. split; [done|]. by rewrite succs_create.
Qed.

Lemma parked_create_connect k lbl ty c self :
  dense self → parked k self →
  parked k (connect_exits_to_node (current_node_id self)
              (create_node lbl ty c self).2).
Proof.
  intros Hd H. apply parked_connect; [destruct H; lia|].
  by apply parked_create.
Qed.

Lemma parked_set_exits k F self :
  k ∉ F → parked k self → parked k (set_exits F self).
Proof. intros Hk (Hlt & _ & Hs). done. Qed.

Lemma parked_relabel k f d self :
  d ≠ k → parked k self → parked k (relabel f d self).
Proof.
  intros Hne (Hlt & Hex & Hs). split; [done|]. split; [done|].
  rewrite succs_relabel. destruct (Nat.eqb_spec d k); [congruence | done].
Qed.

Lemma dense_set_exits F self : dense self → dense (set_exits F self).
Proof. done. Qed.

Lemma dense_create_connect lbl ty c self :
  dense self →
  dense (connect_exits_to_node (current_node_id self) (create_node lbl ty c self).2).
Proof. intros Hd. by apply dense_connect, dense_create. Qed.

Lemma parked_visit k s :
  ∀ self, dense self ∧ parked k self → dense (visit s self) ∧ parked k (visit s self).
Proof.
  intros self [Hd H]. split; [apply (dense_visit_statements [s] self Hd)|].
  revert self Hd H.
  induction s as [name params body IHb | test body orelse IHb IHo
                 | test body orelse IHb | target iter body orelse IHb
                 | | | | value | | type_name text children IHc] using ast_ind;
    intros self Hd H.
  all: assert (∀ l, Forall (λ s, ∀ self, dense self → parked k self →
                                  parked k (visit s self)) l →
               ∀ b, dense b → parked k b → parked k (visit_statements l b)) as Hst
    by (intros l Hl b Hb Hp;
        refine (proj2 (visit_statements_preserves
                         (λ b, dense b ∧ parked k b) l _ b (conj Hb Hp)));
        eapply Forall_impl; [exact Hl|];
        intros s' Hs' b' [Hb' Hp']; split;
        [apply (dense_visit_statements [s'] b' Hb') | by apply Hs']).
  all: assert (k < current_node_id self) as Hlt by apply H.
  - rewrite visit_FunctionDef_eq; cbv zeta.
    pose proof (dense_create_connect
                  ("def " +:+ name +:+ "(" +:+ PyStr.join ", " params +:+ ")")
                  "start" None (set_function_name name self) Hd) as Hd1.
    pose proof (parked_create_connect k
                  ("def " +:+ name +:+ "(" +:+ PyStr.join ", " params +:+ ")")
                  "start" None (set_function_name name self) Hd H) as H1.
    change (current_node_id (set_function_name name self))
      with (current_node_id self) in Hd1, H1.
    pose proof (dense_visit_statements body _ Hd1) as Hd2.
    pose proof (Hst body IHb _ Hd1 H1) as H2.
    destruct (existsb is_Return body); [done|].
    by apply parked_create_connect.
  - rewrite visit_If_eq; cbv zeta.
    pose proof (dense_create_connect test "decision" (Some test) self Hd) as Hd1.
    pose proof (parked_create_connect k test "decision" (Some test) self Hd H) as H1.
    revert Hd1 H1.
    change (set_exits {[current_node_id self]}
              (connect_exits_to_node (current_node_id self)
                 (create_node test "decision" (Some test) self).2))
      with (connect_exits_to_node (current_node_id self)
              (create_node test "decision" (Some test) self).2).
    generalize (connect_exits_to_node (current_node_id self)
                  (create_node test "decision" (Some test) self).2).
    intros self1 Hd1 H1.
    pose proof (dense_visit_statements body _ Hd1) as Hd2.
    pose proof (Hst body IHb _ Hd1 H1) as H2.
    revert Hd2 H2. generalize (visit_statements body self1). intros self2 Hd2 H2.
    assert (parked k (set_exits {[current_node_id self]} self2)) as H2'.
    { apply parked_set_exits; [|done]. apply not_elem_of_singleton. lia. }
    pose proof (Hst orelse IHo _ (dense_set_exits _ _ Hd2) H2') as H3.
    revert H3. generalize (visit_statements orelse
                             (set_exits {[current_node_id self]} self2)).
    intros self3 H3.
    apply parked_set_exits; [|apply parked_relabel; [lia | done]].
    rewrite !not_elem_of_union. split; [split|].
    + apply not_elem_of_empty.
    + apply H2.
    + apply H3.
  - rewrite visit_While_eq; cbv zeta.
    pose proof (dense_create_connect test "decision" (Some test) self Hd) as Hd1.
    pose proof (parked_create_connect k test "decision" (Some test) self Hd H) as H1.
    pose proof (Hst body IHb _ Hd1 H1) as H2.
    apply parked_relabel; [lia|].
    apply parked_set_exits; [apply not_elem_of_singleton; lia|].
    apply parked_add_edges_from; [|exact H2].
    rewrite elem_of_elements. apply H2.
  - rewrite visit_For_eq; cbv zeta.
    pose proof (dense_create_connect ("for " +:+ target +:+ " in " +:+ iter)
                  "decision" (Some ("for " +:+ target +:+ " in " +:+ iter))
                  self Hd) as Hd1.
    pose proof (parked_create_connect k ("for " +:+ target +:+ " in " +:+ iter)
                  "decision" (Some ("for " +:+ target +:+ " in " +:+ iter))
                  self Hd H) as H1.
    pose proof (Hst body IHb _ Hd1 H1) as H2.
    apply parked_set_exits; [apply not_elem_of_singleton; lia|].
    apply parked_add_edges_from; [|exact H2].
    rewrite elem_of_elements. apply H2.
  - rewrite visit_Return_eq.
    apply parked_set_exits; [apply not_elem_of_empty|].
    by apply parked_create_connect.
  - by apply parked_create_connect.
  - by apply parked_create_connect.
  - destruct value; by apply parked_create_connect.
  - by apply parked_create.
  - rewrite visit_Other_eq. apply (Hst children IHc).
    + unfold generic_node. destruct text as [t|]; [|by apply dense_create_connect].
      destruct (0 <? _); [by apply dense_create_connect | done].
    + unfold generic_node. destruct text as [t|]; [|by apply parked_create_connect].
      destruct (0 <? _); [by apply parked_create_connect | done].
Qed.

Lemma parked_visit_statements k l self :
  dense self ∧ parked k self →
  dense (visit_statements l self) ∧ parked k (visit_statements l self).
Proof.
  apply (visit_statements_preserves (λ b, dense b ∧ parked k b)).
  apply Forall_forall. intros s _ b. apply parked_visit.
Qed.

(** X24: the node [visit_Call] creates is never wired into the graph.
    The call leaves the open exits as they were, and whatever statements
    are visited after it, the node is not an open exit, no edge leaves
    it and no edge reaches it: the flow goes round it. *)
Theorem call_node_stays_isolated (c : call) (rest : list ast) (self : Builder) :
  wf self →
  let k := current_node_id self in
  let final := visit_statements rest (visit (Call c) self) in
  current_exits (visit (Call c) self) = current_exits self
  ∧ k ∈ Dict.keys (nodes final)
  ∧ (k ∉ current_exits final)
  ∧ succs_of (nodes final) k = []
  ∧ has_incoming (nodes final) k = false.
Proof.
  intros [Hs He] k final. pose proof Hs as [Hd Ht].
  change (visit (Call c) self) with (visit_Call c self) in *.
  assert (parked k (visit_Call c self)) as Hp.
  { unfold visit_Call. cbv zeta. split; [rewrite create_next; lia|].
    split.
    - rewrite create_exits. intros Hin.
      pose proof (proj1 (exits_exist_spec self) He k Hin) as Hlt.
      unfold k in Hlt. lia.
    - rewrite succs_create by done. apply succs_absent; [done|]. unfold k. lia. }
  assert (dense (visit_Call c self)) as Hd1 by (by apply dense_create).
  destruct (parked_visit_statements k rest _ (conj Hd1 Hp)) as (Hd2 & Hlt & Hex & Hsu).
  assert (untouched k final) as [_ Hu].
  { apply untouched_visit_statements. by apply untouched_fresh. }
  split; [done|]. split; [|done].
  red in Hd2. fold final in Hd2. rewrite Hd2. apply elem_of_seq. fold final in Hlt. lia.
Qed.

Lemma call_node_stays_isolated_witness :
  wf started
  ∧ let final :=
      visit_statements [Assign ["x"] "1"]
        (visit (Call (mkCall "f" ["x"])) started) in
    current_exits (visit (Call (mkCall "f" ["x"])) started) = current_exits started
    ∧ 1 ∈ Dict.keys (nodes final)
    ∧ (1 ∉ current_exits final)
    ∧ succs_of (nodes final) 1 = []
    ∧ has_incoming (nodes final) 1 = false.
Proof.
  split; [apply wf_started|].
  exact (call_node_stays_isolated (mkCall "f" ["x"]) [Assign ["x"] "1"] started
           wf_started).
Defined.
